(** * TalkBridge backend: WAV container codec and Google OAuth (PKCE) flow

    A shallow embedding of
    - [app/routes/tts.py]                 ([pcm16_to_wav]),
    - [app/services/speech/stt_base.py]   ([parse_wav_details], [extract_wav_pcm16]),
    - [app/services/auth/google_oauth.py] ([GoogleOAuthClient]),
    - [app/routes/auth.py]                ([_safe_next_url], [callback]),
    - [app/db/models.py]                  ([User.upsert_google_user]),
    together with the properties the specification states about them.

    Conventions.
    - Python [int] is [Z]; [bytes] is [list byte]; [str] is [string], read as
      a sequence of code points below 256.
    - A Python function that may raise returns [result]; the exception
      classes of the sources are the constructors of [exn].
    - [while] loops take a fuel argument and return [option]: [None] means the
      fuel ran out.  Each loop is run with fuel that is proved sufficient. *)

From Stdlib Require Import ZArith List Lia Bool.
From Stdlib Require Import Strings.String Strings.Ascii Strings.Byte.
From stdpp Require Import base tactics option list gmap strings pretty.

Local Open Scope Z_scope.

(** ** Exceptions and results *)

Inductive exn : Type :=
| ValueError (msg : string)
| StructError
| OAuthError (msg : string)
| HTTPException (status_code : Z) (detail : string)
| JSONDecodeError
| KeyError (key : string).

Inductive result (A : Type) : Type :=
| Ok (a : A)
| Raise (e : exn).
Arguments Ok {A} a.
Arguments Raise {A} e.

Global Instance result_ret : MRet result := fun A a => Ok a.
Global Instance result_bind : MBind result := fun A B k r =>
  match r with
  | Ok a => k a
  | Raise e => Raise e
  end.

(** The exception classes, to compare what is raised with what is named. *)
Inductive exn_class : Type :=
| ValueErrorClass | StructErrorClass | OAuthErrorClass
| HTTPExceptionClass | JSONDecodeErrorClass | KeyErrorClass.

Definition class_of (e : exn) : exn_class :=
  match e with
  | ValueError _ => ValueErrorClass
  | StructError => StructErrorClass
  | OAuthError _ => OAuthErrorClass
  | HTTPException _ _ => HTTPExceptionClass
  | JSONDecodeError => JSONDecodeErrorClass
  | KeyError _ => KeyErrorClass
  end.

(** ** Bytes *)

Module Bytes.

Global Instance byte_eq_dec : EqDecision byte := Byte.byte_eq_dec.

Definition byte_to_Z (b : byte) : Z := Z.of_N (Byte.to_N b).

Definition byte_of_Z (z : Z) : byte :=
  match Byte.of_N (Z.to_N (z mod 256)) with
  | Some b => b
  | None => x00
  end.

(** [b[lo:hi]] for non-negative [lo] and [hi]: Python clips at the end of
    the sequence and gives the empty sequence when [hi <= lo]. *)
Definition slice {A} (b : list A) (lo hi : Z) : list A :=
  firstn (Z.to_nat (hi - lo)) (skipn (Z.to_nat lo) b).

(** [int.from_bytes(bs, "little", signed=False)] *)
Definition int_from_bytes_little (bs : list byte) : Z :=
  fold_right (fun b acc => byte_to_Z b + 256 * acc) 0 bs.

(** The [n] low bytes of [v], least significant first. *)
Fixpoint le_bytes (n : nat) (v : Z) : list byte :=
  match n with
  | O => []
  | S k => byte_of_Z v :: le_bytes k (v / 256)
  end.

(** [struct.pack("<I", v)] and [struct.pack("<H", v)]: [struct.error] when
    [v] does not fit the unsigned field. *)
Definition struct_pack_I (v : Z) : result (list byte) :=
  if (0 <=? v) && (v <? 2 ^ 32) then Ok (le_bytes 4 v) else Raise StructError.

Definition struct_pack_H (v : Z) : result (list byte) :=
  if (0 <=? v) && (v <? 2 ^ 16) then Ok (le_bytes 2 v) else Raise StructError.

Definition bytes_eqb (a b : list byte) : bool :=
  bool_decide (a = b).

End Bytes.

(** ** WAV codec *)

Module Wav.
Import Bytes.

Definition RIFF : list byte := Eval cbv in list_byte_of_string "RIFF".
Definition WAVE : list byte := Eval cbv in list_byte_of_string "WAVE".
Definition fmt_ : list byte := Eval cbv in list_byte_of_string "fmt ".
Definition data : list byte := Eval cbv in list_byte_of_string "data".

(** [app/routes/tts.py]: [pcm16_to_wav].  The items of the joined list are
    evaluated in order, so the first field that does not fit raises. *)
Definition pcm16_to_wav (pcm : list byte) (sample_rate_hz channels : Z)
  : result (list byte) :=
  match pcm with
  | [] => Ok []
  | _ =>
    let bits_per_sample := 16 in
    let byte_rate := sample_rate_hz * channels * (bits_per_sample / 8) in
    let block_align := channels * (bits_per_sample / 8) in
    let data_size := Z.of_nat (length pcm) in
    let riff_size := 36 + data_size in
    p_riff ← struct_pack_I riff_size;
    p_fmt_size ← struct_pack_I 16;
    p_tag ← struct_pack_H 1;
    p_channels ← struct_pack_H channels;
    p_rate ← struct_pack_I sample_rate_hz;
    p_byte_rate ← struct_pack_I byte_rate;
    p_align ← struct_pack_H block_align;
    p_bits ← struct_pack_H bits_per_sample;
    p_data_size ← struct_pack_I data_size;
    let header :=
      RIFF ++ p_riff ++ WAVE ++ fmt_ ++ p_fmt_size ++ p_tag ++ p_channels
      ++ p_rate ++ p_byte_rate ++ p_align ++ p_bits ++ data ++ p_data_size in
    Ok (header ++ pcm)
  end.

(** [app/services/speech/stt_base.py] *)

Definition is_wav (audio_bytes : list byte) : bool :=
  (12 <=? Z.of_nat (length audio_bytes))
  && bytes_eqb (slice audio_bytes 0 4) RIFF
  && bytes_eqb (slice audio_bytes 8 12) WAVE.

Definition _read_u16_le (b : list byte) (off : Z) : Z :=
  int_from_bytes_little (slice b off (off + 2)).

Definition _read_u32_le (b : list byte) (off : Z) : Z :=
  int_from_bytes_little (slice b off (off + 4)).

(** The local variables of the scanning loop of [parse_wav_details]. *)
Record scan_state : Type := ScanState {
  i : Z;
  fmt_found : bool;
  data_found : bool;
  sample_rate : Z;
  channels : Z;
  audio_format : Z;
  bits_per_sample : Z;
  data_offset : Z;
  data_size : Z
}.

Definition scan_init : scan_state :=
  {| i := 12; fmt_found := false; data_found := false;
     sample_rate := 0; channels := 0; audio_format := 0;
     bits_per_sample := 0; data_offset := -1; data_size := 0 |}.

Definition set_i (st : scan_state) (v : Z) : scan_state :=
  {| i := v; fmt_found := fmt_found st; data_found := data_found st;
     sample_rate := sample_rate st; channels := channels st;
     audio_format := audio_format st; bits_per_sample := bits_per_sample st;
     data_offset := data_offset st; data_size := data_size st |}.

Definition set_fmt (st : scan_state) (fmt ch sr bps : Z) : scan_state :=
  {| i := i st; fmt_found := true; data_found := data_found st;
     sample_rate := sr; channels := ch;
     audio_format := fmt; bits_per_sample := bps;
     data_offset := data_offset st; data_size := data_size st |}.

Definition set_data (st : scan_state) (off sz : Z) : scan_state :=
  {| i := i st; fmt_found := fmt_found st; data_found := true;
     sample_rate := sample_rate st; channels := channels st;
     audio_format := audio_format st; bits_per_sample := bits_per_sample st;
     data_offset := off; data_size := sz |}.

(** What one pass through a loop body does to the loop. *)
Inductive flow (A : Type) : Type :=
| Continue (st : A)
| Break (st : A)
| Throw (e : exn).
Arguments Continue {A} st.
Arguments Break {A} st.
Arguments Throw {A} e.

(** The end of the loop body: word alignment, then the exit test. *)
Definition scan_advance (st : scan_state) (chunk_size : Z) : flow scan_state :=
  let st := set_i st (i st + (chunk_size + chunk_size mod 2)) in
  if fmt_found st && data_found st then Break st else Continue st.

(** The body of [while i + 8 <= len(wav_bytes)] in [parse_wav_details]. *)
Definition scan_chunk (wav_bytes : list byte) (st : scan_state)
  : flow scan_state :=
  let chunk_id := slice wav_bytes (i st) (i st + 4) in
  let chunk_size := _read_u32_le wav_bytes (i st + 4) in
  let st := set_i st (i st + 8) in
  if Z.of_nat (length wav_bytes) <? i st + chunk_size then Break st
  else if bytes_eqb chunk_id fmt_ then
    if chunk_size <? 16 then Throw (ValueError "Invalid WAV fmt chunk")
    else
      scan_advance
        (set_fmt st
           (_read_u16_le wav_bytes (i st + 0))
           (_read_u16_le wav_bytes (i st + 2))
           (_read_u32_le wav_bytes (i st + 4))
           (_read_u16_le wav_bytes (i st + 14)))
        chunk_size
  else if bytes_eqb chunk_id data then
    scan_advance (set_data st (i st) chunk_size) chunk_size
  else scan_advance st chunk_size.

Fixpoint scan_chunks (fuel : nat) (wav_bytes : list byte) (st : scan_state)
  : option (result scan_state) :=
  if i st + 8 <=? Z.of_nat (length wav_bytes) then
    match fuel with
    | O => None
    | S fuel' =>
      match scan_chunk wav_bytes st with
      | Continue st' => scan_chunks fuel' wav_bytes st'
      | Break st' => Some (Ok st')
      | Throw e => Some (Raise e)
      end
    end
  else Some (Ok st).

(** The loop as [parse_wav_details] runs it. *)
Definition scan (wav_bytes : list byte) : option (result scan_state) :=
  scan_chunks (length wav_bytes) wav_bytes scan_init.

(** The checks of [parse_wav_details] after its loop. *)
Definition check_scan (wav_bytes : list byte) (st : scan_state)
  : result (Z * Z * Z * Z * Z) :=
  if negb (fmt_found st) || negb (data_found st) then
    Raise (ValueError "WAV fmt/data chunk not found")
  else if negb (bool_decide (audio_format st ∈ [1; 3; 65534])) then
    Raise (ValueError
      ("Unsupported WAV audio format: " +:+ pretty (audio_format st)))
  else if (sample_rate st <=? 0) || (192000 <? sample_rate st) then
    Raise (ValueError
      ("Unreasonable WAV sample rate: " +:+ pretty (sample_rate st)))
  else if (channels st <=? 0) || (2 <? channels st) then
    Raise (ValueError
      ("Unsupported channel count: " +:+ pretty (channels st)))
  else if negb (bool_decide (bits_per_sample st ∈ [16])) then
    Raise (ValueError
      ("Unsupported bits_per_sample: " +:+ pretty (bits_per_sample st)
       +:+ " (expected 16)"))
  else if (data_offset st <? 0)
          || (Z.of_nat (length wav_bytes) <? data_offset st + data_size st) then
    Raise (ValueError "Invalid WAV data chunk bounds")
  else
    Ok (sample_rate st, channels st, bits_per_sample st, audio_format st,
        data_offset st).

(** Returns [(sample_rate_hz, channels, bits_per_sample, audio_format,
    data_offset)]. *)
Definition parse_wav_details (wav_bytes : list byte)
  : option (result (Z * Z * Z * Z * Z)) :=
  if negb (is_wav wav_bytes) then Some (Raise (ValueError "Not a WAV file"))
  else
    match scan wav_bytes with
    | None => None
    | Some (Raise e) => Some (Raise e)
    | Some (Ok st) => Some (check_scan wav_bytes st)
    end.

Definition parse_wav_info (wav_bytes : list byte) : option (result (Z * Z)) :=
  match parse_wav_details wav_bytes with
  | None => None
  | Some (Raise e) => Some (Raise e)
  | Some (Ok (sr, ch, _, _, _)) => Some (Ok (sr, ch))
  end.

(** The second loop, in [extract_wav_pcm16]: the size of the first [data]
    chunk, or Python's [None]. *)
Fixpoint find_data_size (fuel : nat) (wav_bytes : list byte) (i : Z)
  : option (option Z) :=
  if i + 8 <=? Z.of_nat (length wav_bytes) then
    match fuel with
    | O => None
    | S fuel' =>
      let cid := slice wav_bytes i (i + 4) in
      let csz := _read_u32_le wav_bytes (i + 4) in
      let i := i + 8 in
      if Z.of_nat (length wav_bytes) <? i + csz then Some None
      else if bytes_eqb cid data then Some (Some csz)
      else find_data_size fuel' wav_bytes (i + (csz + csz mod 2))
    end
  else Some None.

(** Returns [(pcm_bytes, sample_rate_hz, channels)]. *)
Definition extract_wav_pcm16 (wav_bytes : list byte)
  : option (result (list byte * Z * Z)) :=
  match parse_wav_details wav_bytes with
  | None => None
  | Some (Raise e) => Some (Raise e)
  | Some (Ok (sr, ch, bps, fmt, data_off)) =>
    if negb (bool_decide (fmt ∈ [1; 65534])) then
      Some (Raise (ValueError
        ("WAV must be PCM16 (audio_format=" +:+ pretty fmt +:+ ")")))
    else if negb (bps =? 16) then
      Some (Raise (ValueError "WAV must be 16-bit PCM"))
    else
      match find_data_size (length wav_bytes) wav_bytes 12 with
      | None => None
      | Some None => Some (Raise (ValueError "WAV data chunk not found"))
      | Some (Some data_size) =>
        let pcm := slice wav_bytes data_off (data_off + data_size) in
        match pcm with
        | [] => Some (Raise (ValueError "Empty WAV audio data"))
        | _ => Some (Ok (pcm, sr, ch))
        end
      end
  end.

(** *** Vocabulary for the statements *)

(** Every header field of [pcm16_to_wav] fits its width: the RIFF size as
    [<I], the channel count and the block alignment as [<H], the sample rate
    and the byte rate as [<I]. *)
Definition fields_fit (pcm : list byte) (rate ch : Z) : Prop :=
  36 + Z.of_nat (length pcm) < 2 ^ 32
  /\ 0 <= ch /\ ch * 2 < 2 ^ 16
  /\ 0 <= rate < 2 ^ 32
  /\ rate * ch * 2 < 2 ^ 32.

(** The id and the declared size of the chunk whose header is at [off]. *)
Definition chunk_id_at (wav_bytes : list byte) (off : Z) : list byte :=
  slice wav_bytes off (off + 4).

Definition chunk_size_at (wav_bytes : list byte) (off : Z) : Z :=
  _read_u32_le wav_bytes (off + 4).

(** The states in which the loop of [parse_wav_details] evaluates its test:
    the initial one, and each one a completed pass of the body leads to. *)
Inductive visits (wav_bytes : list byte) : scan_state -> Prop :=
| visits_init : visits wav_bytes scan_init
| visits_step st st' :
    visits wav_bytes st ->
    i st + 8 <= Z.of_nat (length wav_bytes) ->
    scan_chunk wav_bytes st = Continue st' ->
    visits wav_bytes st'.

(** A file with the 44-byte header layout that [pcm16_to_wav] writes, with
    arbitrary field contents. *)
Definition canonical_wav (riff_size tag ch rate byte_rate align bits dsize
                          payload : list byte) : list byte :=
  RIFF ++ riff_size ++ WAVE ++ fmt_ ++ [x10; x00; x00; x00] ++ tag ++ ch
  ++ rate ++ byte_rate ++ align ++ bits ++ data ++ dsize ++ payload.

Global Instance fields_fit_dec pcm rate ch : Decision (fields_fit pcm rate ch).
Proof. unfold fields_fit. apply _. Defined.

(** The state in which the scan of such a file ends when its [data] chunk
    fits. *)
Definition canonical_final (tag ch rate bits dsize : list byte) : scan_state :=
  let dsz := int_from_bytes_little dsize in
  {| i := 44 + (dsz + dsz mod 2); fmt_found := true; data_found := true;
     sample_rate := int_from_bytes_little rate;
     channels := int_from_bytes_little ch;
     audio_format := int_from_bytes_little tag;
     bits_per_sample := int_from_bytes_little bits;
     data_offset := 44; data_size := dsz |}.

Definition sample_pcm : list byte := [x01; x00; xff; x7f].

(** Test files: a [fmt ] chunk of 8 bytes; a [data] chunk that declares 100
    bytes where 4 follow; an unknown [LIST] chunk of 3 bytes and its pad byte
    before the two chunks of a canonical file. *)
Definition wav_short_fmt : list byte :=
  RIFF ++ le_bytes 4 20 ++ WAVE ++ fmt_ ++ le_bytes 4 8
  ++ [x01; x00; x01; x00; xc0; x5d; x00; x00].

Definition wav_data_past_end : list byte :=
  RIFF ++ le_bytes 4 16 ++ WAVE ++ data ++ le_bytes 4 100 ++ sample_pcm.

Definition LIST : list byte := Eval cbv in list_byte_of_string "LIST".

Definition wav_with_list : list byte :=
  RIFF ++ le_bytes 4 52 ++ WAVE
  ++ LIST ++ le_bytes 4 3 ++ [x41; x42; x43] ++ [x00]
  ++ fmt_ ++ le_bytes 4 16 ++ le_bytes 2 1 ++ le_bytes 2 1
  ++ le_bytes 4 24000 ++ le_bytes 4 48000 ++ le_bytes 2 2 ++ le_bytes 2 16
  ++ data ++ le_bytes 4 4 ++ sample_pcm.

(** Canonical files that declare 8 bits per sample and 3 channels. *)
Definition wav_8bit : list byte :=
  canonical_wav (le_bytes 4 40) (le_bytes 2 1) (le_bytes 2 1)
    (le_bytes 4 24000) (le_bytes 4 24000) (le_bytes 2 1) (le_bytes 2 8)
    (le_bytes 4 4) sample_pcm.

Definition wav_3ch : list byte :=
  canonical_wav (le_bytes 4 40) (le_bytes 2 1) (le_bytes 2 3)
    (le_bytes 4 24000) (le_bytes 4 144000) (le_bytes 2 6) (le_bytes 2 16)
    (le_bytes 4 4) sample_pcm.

(** Canonical mono 16-bit files that declare a sample rate of 200000 Hz and
    of 4000 Hz. *)
Definition wav_200khz : list byte :=
  canonical_wav (le_bytes 4 40) (le_bytes 2 1) (le_bytes 2 1)
    (le_bytes 4 200000) (le_bytes 4 400000) (le_bytes 2 2) (le_bytes 2 16)
    (le_bytes 4 4) sample_pcm.

Definition wav_4000hz : list byte :=
  canonical_wav (le_bytes 4 40) (le_bytes 2 1) (le_bytes 2 1)
    (le_bytes 4 4000) (le_bytes 4 8000) (le_bytes 2 2) (le_bytes 2 16)
    (le_bytes 4 4) sample_pcm.

End Wav.

(** ** Python strings *)

Module Py.

(** [str.isspace] on one code point below 256. *)
Definition isspace (c : ascii) : bool :=
  let n := nat_of_ascii c in
  ((9 <=? n) && (n <=? 13) || (28 <=? n) && (n <=? 32)
   || (n =? 133) || (n =? 160))%nat.

Fixpoint lstrip_by (p : ascii -> bool) (s : string) : string :=
  match s with
  | EmptyString => EmptyString
  | String c s' => if p c then lstrip_by p s' else s
  end.

Fixpoint rstrip_by (p : ascii -> bool) (s : string) : string :=
  match s with
  | EmptyString => EmptyString
  | String c s' =>
    match rstrip_by p s' with
    | EmptyString => if p c then EmptyString else String c EmptyString
    | r => String c r
    end
  end.

(** [s.strip()] *)
Definition strip (s : string) : string :=
  rstrip_by isspace (lstrip_by isspace s).

(** [s.rstrip("/")] *)
Definition rstrip_slash (s : string) : string :=
  rstrip_by (fun c => Ascii.eqb c "/") s.

(** [str.lower] on one code point below 256: the ASCII capitals and the
    Latin-1 capitals other than the multiplication sign. *)
Definition lower_char (c : ascii) : ascii :=
  let n := nat_of_ascii c in
  if ((65 <=? n) && (n <=? 90)
      || (192 <=? n) && (n <=? 222) && negb (n =? 215))%nat
  then ascii_of_nat (n + 32) else c.

Fixpoint lower (s : string) : string :=
  match s with
  | EmptyString => EmptyString
  | String c s' => String (lower_char c) (lower s')
  end.

(** [s.startswith(p)] *)
Definition startswith (s p : string) : bool := String.prefix p s.

(** Truth value of a string. *)
Definition nonempty (s : string) : bool := negb (String.eqb s "").

(** [x or y] on strings, and [(x or "")] on an optional string. *)
Definition str_or (x y : string) : string := if nonempty x then x else y.
Definition or_empty (x : option string) : string := default "" x.

(** [sep.join(l)] *)
Definition join (sep : string) (l : list string) : string :=
  String.concat sep l.

(** [s[:n]] *)
Definition take_str (n : nat) (s : string) : string := String.substring 0 n s.

End Py.

(** ** Encodings: base64url, UTF-8, URL query strings *)

Module Encoding.
Import Bytes.

Definition b64_alphabet : list byte := Eval cbv in
  list_byte_of_string
    "ABCDEFGHIJKLMNOPQRSTUVWXYZabcdefghijklmnopqrstuvwxyz0123456789-_".

Definition b64_char (n : Z) : byte := nth (Z.to_nat n) b64_alphabet x41.

(** ["="] *)
Definition b64_pad : byte := x3d.

(** [base64.urlsafe_b64encode]: three bytes give four characters; a last
    group of one or two bytes is completed with ["="]. *)
Fixpoint urlsafe_b64encode (bs : list byte) : list byte :=
  match bs with
  | [] => []
  | [a] =>
    let x := byte_to_Z a in
    [b64_char (x / 4); b64_char (x mod 4 * 16); b64_pad; b64_pad]
  | [a; b] =>
    let x := byte_to_Z a in
    let y := byte_to_Z b in
    [b64_char (x / 4); b64_char (x mod 4 * 16 + y / 16);
     b64_char (y mod 16 * 4); b64_pad]
  | a :: b :: c :: rest =>
    let x := byte_to_Z a in
    let y := byte_to_Z b in
    let z := byte_to_Z c in
    b64_char (x / 4) :: b64_char (x mod 4 * 16 + y / 16)
    :: b64_char (y mod 16 * 4 + z / 64) :: b64_char (z mod 64)
    :: urlsafe_b64encode rest
  end.

(** [bytes.rstrip(x)] for a single byte [x]. *)
Fixpoint rstrip_byte (x : byte) (l : list byte) : list byte :=
  match l with
  | [] => []
  | b :: l' =>
    match rstrip_byte x l' with
    | [] => if bool_decide (b = x) then [] else [b]
    | r => b :: r
    end
  end.

(** [google_oauth.py]: [_b64url].  The encoded bytes are ASCII, which
    [decode("utf-8")] maps to the same code points. *)
Definition _b64url (data : list byte) : string :=
  string_of_list_byte (rstrip_byte b64_pad (urlsafe_b64encode data)).

(** The specification's [base64url_no_pad], after RFC 4648: the input is a
    stream of bits, most significant first, cut into groups of six; a last
    group that is short is completed with zero bits; each group selects one
    character of the URL-safe alphabet; no padding character is written. *)
Definition bits_of_byte (b : byte) : list Z :=
  let x := byte_to_Z b in
  [x / 128 mod 2; x / 64 mod 2; x / 32 mod 2; x / 16 mod 2;
   x / 8 mod 2; x / 4 mod 2; x / 2 mod 2; x mod 2].

Definition sextet_value (a b c d e f : Z) : Z :=
  32 * a + 16 * b + 8 * c + 4 * d + 2 * e + f.

Fixpoint sextets (bits : list Z) : list Z :=
  match bits with
  | [] => []
  | a :: b :: c :: d :: e :: f :: rest =>
    sextet_value a b c d e f :: sextets rest
  | [a] => [sextet_value a 0 0 0 0 0]
  | [a; b] => [sextet_value a b 0 0 0 0]
  | [a; b; c] => [sextet_value a b c 0 0 0]
  | [a; b; c; d] => [sextet_value a b c d 0 0]
  | [a; b; c; d; e] => [sextet_value a b c d e 0]
  end.

Definition base64url_no_pad (data : list byte) : string :=
  string_of_list_byte (map b64_char (sextets (flat_map bits_of_byte data))).

(** The characters of the encoding without the padding, by groups of three
    bytes. *)
Fixpoint b64_unpadded (bs : list byte) : list byte :=
  match bs with
  | [] => []
  | [a] =>
    let x := byte_to_Z a in
    [b64_char (x / 4); b64_char (x mod 4 * 16)]
  | [a; b] =>
    let x := byte_to_Z a in
    let y := byte_to_Z b in
    [b64_char (x / 4); b64_char (x mod 4 * 16 + y / 16);
     b64_char (y mod 16 * 4)]
  | a :: b :: c :: rest =>
    let x := byte_to_Z a in
    let y := byte_to_Z b in
    let z := byte_to_Z c in
    b64_char (x / 4) :: b64_char (x mod 4 * 16 + y / 16)
    :: b64_char (y mod 16 * 4 + z / 64) :: b64_char (z mod 64)
    :: b64_unpadded rest
  end.

(** [s.encode("utf-8")] for code points below 256. *)
Definition utf8_char (c : ascii) : list byte :=
  let n := Z.of_nat (nat_of_ascii c) in
  if n <? 128 then [byte_of_Z n]
  else [byte_of_Z (192 + n / 64); byte_of_Z (128 + n mod 64)].

Definition encode_utf8 (s : string) : list byte :=
  flat_map utf8_char (list_ascii_of_string s).

(** [urllib.parse.quote_plus]: letters, digits and [_.-~] are kept, a space
    becomes ["+"], every other byte of the UTF-8 form becomes [%XX]. *)
Definition is_unreserved (c : ascii) : bool :=
  let n := nat_of_ascii c in
  ((65 <=? n) && (n <=? 90) || (97 <=? n) && (n <=? 122)
   || (48 <=? n) && (n <=? 57)
   || (n =? 95) || (n =? 46) || (n =? 45) || (n =? 126))%nat.

Definition hex_digit (n : Z) : ascii :=
  nth (Z.to_nat n) (list_ascii_of_string "0123456789ABCDEF") "0"%char.

Definition percent_byte (b : byte) : string :=
  let x := byte_to_Z b in
  String "%" (String (hex_digit (x / 16)) (String (hex_digit (x mod 16)) "")).

Definition quote_char (c : ascii) : string :=
  if is_unreserved c then String c ""
  else if Ascii.eqb c " " then "+"
  else String.concat "" (map percent_byte (utf8_char c)).

Fixpoint quote_plus (s : string) : string :=
  match s with
  | EmptyString => EmptyString
  | String c s' => quote_char c +:+ quote_plus s'
  end.

(** A byte that differs from the padding character and that [quote_plus]
    keeps; every character of the alphabet is one. *)
Definition plain (c : byte) : Prop :=
  c <> b64_pad /\ is_unreserved (ascii_of_byte c) = true.

(** [urllib.parse.urlencode] of a dict, in insertion order. *)
Definition urlencode (params : list (string * string)) : string :=
  Py.join "&"
    (map (fun kv => quote_plus (fst kv) +:+ "=" +:+ quote_plus (snd kv))
       params).

(** [secrets]: the operating system's random bytes are a tape that is read
    from the front. *)
Definition tape : Type := nat -> byte.

Definition token_bytes (n : nat) (t : tape) : list byte * tape :=
  (map t (seq 0 n), fun k => t (n + k)%nat).

Definition token_urlsafe (n : nat) (t : tape) : string * tape :=
  let '(tok, t') := token_bytes n t in
  (string_of_list_byte (rstrip_byte b64_pad (urlsafe_b64encode tok)), t').

End Encoding.

(** ** SHA-256 (FIPS 180-4), for [hashlib.sha256] *)

Module SHA256.
Import Bytes.

Definition add32 (x y : Z) : Z := (x + y) mod 2 ^ 32.
Definition not32 (x : Z) : Z := Z.lxor x (2 ^ 32 - 1).
Definition rotr (n x : Z) : Z :=
  Z.lor (Z.shiftr x n) (Z.shiftl x (32 - n) mod 2 ^ 32).

Definition Ch (x y z : Z) : Z := Z.lxor (Z.land x y) (Z.land (not32 x) z).
Definition Maj (x y z : Z) : Z :=
  Z.lxor (Z.lxor (Z.land x y) (Z.land x z)) (Z.land y z).
Definition Sigma0 (x : Z) : Z :=
  Z.lxor (Z.lxor (rotr 2 x) (rotr 13 x)) (rotr 22 x).
Definition Sigma1 (x : Z) : Z :=
  Z.lxor (Z.lxor (rotr 6 x) (rotr 11 x)) (rotr 25 x).
Definition sigma0 (x : Z) : Z :=
  Z.lxor (Z.lxor (rotr 7 x) (rotr 18 x)) (Z.shiftr x 3).
Definition sigma1 (x : Z) : Z :=
  Z.lxor (Z.lxor (rotr 17 x) (rotr 19 x)) (Z.shiftr x 10).

Definition K : list Z :=
  [1116352408; 1899447441; 3049323471; 3921009573; 961987163; 1508970993;
   2453635748; 2870763221; 3624381080; 310598401; 607225278; 1426881987;
   1925078388; 2162078206; 2614888103; 3248222580; 3835390401;
   4022224774; 264347078; 604807628; 770255983; 1249150122; 1555081692;
   1996064986; 2554220882; 2821834349; 2952996808; 3210313671;
   3336571891; 3584528711; 113926993; 338241895; 666307205; 773529912;
   1294757372; 1396182291; 1695183700; 1986661051; 2177026350;
   2456956037; 2730485921; 2820302411; 3259730800; 3345764771;
   3516065817; 3600352804; 4094571909; 275423344; 430227734; 506948616;
   659060556; 883997877; 958139571; 1322822218; 1537002063; 1747873779;
   1955562222; 2024104815; 2227730452; 2361852424; 2428436474;
   2756734187; 3204031479; 3329325298].

Definition H0 : list Z :=
  [1779033703; 3144134277; 1013904242; 2773480762; 1359893119;
   2600822924; 528734635; 1541459225].

(** The message, the byte 0x80, zero bytes up to 56 modulo 64, and the
    length in bits as eight big-endian bytes. *)
Definition pad (msg : list byte) : list byte :=
  let l := Z.of_nat (length msg) in
  let zeros := Z.to_nat ((55 - l) mod 64) in
  msg ++ [x80] ++ repeat x00 zeros ++ rev (le_bytes 8 (8 * l)).

Definition be32 (bs : list byte) : Z :=
  fold_left (fun acc b => acc * 256 + byte_to_Z b) bs 0.

Fixpoint words (n : nat) (bs : list byte) : list Z :=
  match n with
  | O => []
  | S n' => be32 (firstn 4 bs) :: words n' (skipn 4 bs)
  end.

(** The message schedule, latest word first. *)
Fixpoint extend (n : nat) (ws : list Z) : list Z :=
  match n with
  | O => ws
  | S n' =>
    let w :=
      add32 (add32 (sigma1 (nth 1 ws 0)) (nth 6 ws 0))
            (add32 (sigma0 (nth 14 ws 0)) (nth 15 ws 0)) in
    extend n' (w :: ws)
  end.

Definition schedule (block : list byte) : list Z :=
  rev (extend 48 (rev (words 16 block))).

Definition round (st : list Z) (kw : Z * Z) : list Z :=
  match st with
  | [a; b; c; d; e; f; g; h] =>
    let t1 :=
      add32 (add32 (add32 h (Sigma1 e)) (Ch e f g))
            (add32 (fst kw) (snd kw)) in
    let t2 := add32 (Sigma0 a) (Maj a b c) in
    [add32 t1 t2; a; b; c; add32 d t1; e; f; g]
  | _ => st
  end.

Definition compress (h : list Z) (block : list byte) : list Z :=
  let st := fold_left round (combine K (schedule block)) h in
  map (fun p => add32 (fst p) (snd p)) (combine h st).

Fixpoint blocks (n : nat) (bs : list byte) (h : list Z) : list Z :=
  match n with
  | O => h
  | S n' => blocks n' (skipn 64 bs) (compress h (firstn 64 bs))
  end.

Definition digest (msg : list byte) : list byte :=
  let p := pad msg in
  flat_map (fun w => rev (le_bytes 4 w)) (blocks (length p / 64) p H0).

Definition hex_of_bytes (bs : list byte) : string :=
  String.concat ""
    (map (fun b => let x := byte_to_Z b in
                   String (nth (Z.to_nat (x / 16))
                             (list_ascii_of_string "0123456789abcdef") "0"%char)
                     (String (nth (Z.to_nat (x mod 16))
                                (list_ascii_of_string "0123456789abcdef")
                                "0"%char) ""))
         bs).

End SHA256.

(** ** Environment of the OAuth code *)

Module Http.

(** What the code reads of an [httpx] response; [json = None] when the body
    is not a JSON object.  The fields read from a JSON body are strings. *)
Record Response : Type := {
  status_code : Z;
  text : string;
  json : option (gmap string string)
}.

(** A request either gets a response or raises, with the text of the
    exception. *)
Inductive outcome : Type :=
| Responded (r : Response)
| Failed (e : string).

End Http.

(** The constants of [app/core/settings.py], the files that
    [_try_load_client_secrets_json] finds, and the services outside the
    program: [hashlib.sha256], the provider's endpoints (which may answer
    each call differently) and [uuid.uuid4]. *)
Class Environment : Type := {
  GOOGLE_OAUTH_CLIENT_ID : string;
  GOOGLE_OAUTH_CLIENT_SECRET : string;
  GOOGLE_OAUTH_REDIRECT_URI : string;
  GOOGLE_OAUTH_SCOPES : list string;
  FRONTEND_URL : string;
  (** whether [SessionMiddleware] is installed, so that the request has a
      [session] *)
  session_enabled : bool;
  (** per candidate path, in the order tried: the parsed JSON object, or
      [None] when the file is missing or does not parse *)
  client_secrets_files : list (option (gmap string (gmap string string)));
  sha256 : list byte -> list byte;
  token_endpoint : nat -> list (string * string) -> Http.outcome;
  userinfo_endpoint : nat -> string -> Http.outcome;
  uuid4 : nat -> string
}.

(** ** [app/routes/auth.py]: the redirect validator *)

Module Redirect.
Import Py.

Definition _safe_next_url `{Environment} (next_url : string) : string :=
  let nxt := strip next_url in
  if negb (nonempty nxt) then ""
  else if startswith nxt "//" then ""
  else if startswith nxt "/" then nxt
  else
    let fe := rstrip_slash (strip FRONTEND_URL) in
    if nonempty fe && startswith nxt fe then nxt
    else "".

End Redirect.

(** ** The state of the application *)

Module State.
Import Encoding.

(** [app/db/models.py]: a row of [users]; also the dict that [callback]
    stores under ["user"] in the session, which has the same five entries. *)
Record User : Type := {
  user_id : string;
  user_google_sub : string;
  user_email : option string;
  user_name : option string;
  user_picture : option string
}.

(** The outbound HTTPS calls. *)
Inductive NetCall : Type :=
| TokenRequest (data : list (string * string))
| UserinfoRequest (authorization : string).

(** [request.session] (kept between the requests of one browser), the
    [_cached] field of the module-level [GoogleOAuthClient], the rows of
    the [users] table, the random tape, the number of ids drawn and the
    network calls made so far.  The session is a dict with string values
    under the [oauth_*] keys and a dict under ["user"]; the two kinds of
    entries are kept apart by type. *)
Record World : Type := {
  session_strs : gmap string string;
  session_user : option User;
  oauth_cached : option (string * string);
  users : list User;
  entropy : tape;
  uuids : nat;
  net_log : list NetCall
}.

Definition set_session_strs (f : gmap string string -> gmap string string)
    (w : World) : World :=
  {| session_strs := f (session_strs w); session_user := session_user w;
     oauth_cached := oauth_cached w; users := users w; entropy := entropy w;
     uuids := uuids w; net_log := net_log w |}.

Definition set_session_user (u : option User) (w : World) : World :=
  {| session_strs := session_strs w; session_user := u;
     oauth_cached := oauth_cached w; users := users w; entropy := entropy w;
     uuids := uuids w; net_log := net_log w |}.

Definition set_oauth_cached (c : option (string * string)) (w : World)
  : World :=
  {| session_strs := session_strs w; session_user := session_user w;
     oauth_cached := c; users := users w; entropy := entropy w;
     uuids := uuids w; net_log := net_log w |}.

Definition set_users (f : list User -> list User) (w : World)
  : World :=
  {| session_strs := session_strs w; session_user := session_user w;
     oauth_cached := oauth_cached w; users := f (users w);
     entropy := entropy w; uuids := uuids w; net_log := net_log w |}.

Definition set_entropy (t : tape) (w : World) : World :=
  {| session_strs := session_strs w; session_user := session_user w;
     oauth_cached := oauth_cached w; users := users w; entropy := t;
     uuids := uuids w; net_log := net_log w |}.

Definition set_uuids (n : nat) (w : World) : World :=
  {| session_strs := session_strs w; session_user := session_user w;
     oauth_cached := oauth_cached w; users := users w; entropy := entropy w;
     uuids := n; net_log := net_log w |}.

Definition log_call (c : NetCall) (w : World) : World :=
  {| session_strs := session_strs w; session_user := session_user w;
     oauth_cached := oauth_cached w; users := users w; entropy := entropy w;
     uuids := uuids w; net_log := net_log w ++ [c] |}.

(** Computations that read and change the state and may raise; what was
    changed before an exception stays changed. *)
Definition M (A : Type) : Type := World -> result A * World.

Global Instance M_ret : MRet M := fun A a w => (Ok a, w).
Global Instance M_bind : MBind M := fun A B k m w =>
  match m w with
  | (Ok a, w') => k a w'
  | (Raise e, w') => (Raise e, w')
  end.

Definition raise {A} (e : exn) : M A := fun w => (Raise e, w).
Definition get_world : M World := fun w => (Ok w, w).
Definition modify (f : World -> World) : M unit := fun w => (Ok tt, f w).

(** [try: body except OAuthError as e: handler(str(e))] *)
Definition except_OAuthError {A} (body : M A) (handler : string -> M A)
  : M A := fun w =>
  match body w with
  | (Raise (OAuthError msg), w') => handler msg w'
  | other => other
  end.

(** A computation leaves the component [f] of the state as it is. *)
Definition keeps {A B} (f : World -> B) (m : M A) : Prop :=
  forall w, f (snd (m w)) = f w.

(** [secrets.token_urlsafe(n)] *)
Definition secrets_token_urlsafe (n : nat) : M string := fun w =>
  let '(s, t) := token_urlsafe n (entropy w) in (Ok s, set_entropy t w).

End State.

(** ** [app/services/auth/google_oauth.py] *)

Module GoogleOAuth.
Import Py Encoding State.

Definition AUTH_URL : string := "https://accounts.google.com/o/oauth2/v2/auth".
Definition TOKEN_URL : string := "https://oauth2.googleapis.com/token".
Definition USERINFO_URL : string :=
  "https://openidconnect.googleapis.com/v1/userinfo".

Definition _pkce_challenge `{Environment} (verifier : string) : string :=
  let digest := sha256 (encode_utf8 verifier) in
  _b64url digest.

(** A dict that is empty is false in [a or b]. *)
Definition truthy_dict (o : option (gmap string string))
  : option (gmap string string) :=
  match o with
  | Some m => if decide (m = ∅) then None else Some m
  | None => None
  end.

Definition _extract_client_id_secret (data : gmap string (gmap string string))
  : string * string :=
  let block :=
    match truthy_dict (data !! "web") with
    | Some b => b
    | None =>
      match truthy_dict (data !! "installed") with
      | Some b => b
      | None => ∅
      end
    end in
  let cid := strip (or_empty (block !! "client_id")) in
  let sec := strip (or_empty (block !! "client_secret")) in
  (cid, sec).

(** The loop over the candidate files: a file that is missing or does not
    parse is passed over. *)
Fixpoint first_client_secrets
    (candidates : list (option (gmap string (gmap string string))))
  : option (string * string) :=
  match candidates with
  | [] => None
  | None :: rest => first_client_secrets rest
  | Some data :: rest =>
    let '(c, s) := _extract_client_id_secret data in
    if nonempty c && nonempty s then Some (c, s)
    else first_client_secrets rest
  end.

Definition _try_load_client_secrets_json `{Environment} : string * string :=
  let cid := strip GOOGLE_OAUTH_CLIENT_ID in
  let sec := strip GOOGLE_OAUTH_CLIENT_SECRET in
  if nonempty cid && nonempty sec then (cid, sec)
  else
    match first_client_secrets client_secrets_files with
    | Some found => found
    | None => (cid, sec)
    end.

(** The client id and secret that [_client_id_secret] loads when nothing is
    cached. *)
Definition loaded_client `{Environment} : string * string :=
  (strip (fst _try_load_client_secrets_json),
   strip (snd _try_load_client_secrets_json)).

Definition client_missing_message : string :=
  "Google OAuth client ID/secret missing. "
  +:+ "Set GOOGLE_OAUTH_CLIENT_ID + GOOGLE_OAUTH_CLIENT_SECRET "
  +:+ "(or GOOGLE_CLIENT_ID + GOOGLE_CLIENT_SECRET), "
  +:+ "or set GOOGLE_OAUTH_CLIENT_SECRETS_FILE to your downloaded "
  +:+ "OAuth JSON.".

Definition redirect_missing_message : string :=
  "GOOGLE_OAUTH_REDIRECT_URI is empty. "
  +:+ "Set BASE_URL so redirect becomes <BASE_URL>/api/auth/callback.".

Definition _pkce_verifier : M string :=
  v ← secrets_token_urlsafe 64;
  let v := take_str 128 v in
  if (String.length v <? 43)%nat then
    v2 ← secrets_token_urlsafe 64;
    mret (take_str 43 (v +:+ v2))
  else mret v.

Definition _client_id_secret `{Environment} : M (string * string) :=
  w ← get_world;
  match oauth_cached w with
  | Some cached => mret cached
  | None =>
    let '(cid, sec) := _try_load_client_secrets_json in
    let cid := strip cid in
    let sec := strip sec in
    if negb (nonempty cid) || negb (nonempty sec) then
      raise (OAuthError client_missing_message)
    else
      _ ← modify (set_oauth_cached (Some (cid, sec)));
      mret (cid, sec)
  end.

Definition _redirect_uri `{Environment} : M string :=
  let ru := strip GOOGLE_OAUTH_REDIRECT_URI in
  if negb (nonempty ru) then
    raise (OAuthError redirect_missing_message)
  else mret ru.

(** The query parameters of the authorization URL, in the order of the
    dict. *)
Definition authorize_params (client_id redirect_uri scope state challenge
                             : string) : list (string * string) :=
  [("client_id", client_id);
   ("redirect_uri", redirect_uri);
   ("response_type", "code");
   ("scope", scope);
   ("state", state);
   ("code_challenge", challenge);
   ("code_challenge_method", "S256");
   ("access_type", "online");
   ("include_granted_scopes", "true");
   ("prompt", "select_account")].

Definition requested_scope `{Environment} : string :=
  let scopes :=
    match GOOGLE_OAUTH_SCOPES with
    | [] => ["openid"; "email"; "profile"]
    | l => l
    end in
  join " " (filter (fun s => nonempty (strip s) = true) scopes).

(** The text of the authorization URL before and after the
    [code_challenge] parameter. *)
Definition url_before_challenge `{Environment}
    (client_id redirect_uri state : string) : string :=
  AUTH_URL +:+ "?client_id=" +:+ quote_plus client_id
  +:+ "&redirect_uri=" +:+ quote_plus redirect_uri
  +:+ "&response_type=code&scope=" +:+ quote_plus requested_scope
  +:+ "&state=" +:+ quote_plus state.

Definition url_after_challenge : string :=
  "&code_challenge_method=S256&access_type=online"
  +:+ "&include_granted_scopes=true&prompt=select_account".

(** Returns [(state, verifier, authorize_url)]. *)
Definition build_authorize_url `{Environment} : M (string * string * string) :=
  '(client_id, _) ← _client_id_secret;
  redirect_uri ← _redirect_uri;
  state ← secrets_token_urlsafe 24;
  verifier ← _pkce_verifier;
  let challenge := _pkce_challenge verifier in
  let params :=
    authorize_params client_id redirect_uri requested_scope state challenge in
  mret (state, verifier, AUTH_URL +:+ "?" +:+ urlencode params).

(** The POST to the token endpoint and the GET to the userinfo endpoint. *)
Definition post_token `{Environment} (data : list (string * string))
  : M Http.outcome := fun w =>
  (Ok (token_endpoint (length (net_log w)) data),
   log_call (TokenRequest data) w).

Definition get_userinfo `{Environment} (authorization : string)
  : M Http.outcome := fun w =>
  (Ok (userinfo_endpoint (length (net_log w)) authorization),
   log_call (UserinfoRequest authorization) w).

Definition copy_keys (keys : list string) (j out : gmap string string)
  : gmap string string :=
  foldl (fun out k =>
           match j !! k with
           | Some v => <[k := v]> out
           | None => out
           end) out keys.

Definition exchange_code `{Environment} (code code_verifier : string)
  : M (gmap string string) :=
  '(client_id, client_secret) ← _client_id_secret;
  redirect_uri ← _redirect_uri;
  let code := strip code in
  let code_verifier := strip code_verifier in
  if negb (nonempty code) || negb (nonempty code_verifier) then
    raise (OAuthError "Missing code or code_verifier")
  else
    let data :=
      [("code", code);
       ("client_id", client_id);
       ("client_secret", client_secret);
       ("redirect_uri", redirect_uri);
       ("grant_type", "authorization_code");
       ("code_verifier", code_verifier)] in
    o ← post_token data;
    match o with
    | Http.Failed e =>
      raise (OAuthError ("Token exchange request failed: " +:+ e))
    | Http.Responded r =>
      if 400 <=? Http.status_code r then
        let msg := Http.text r in
        let msg :=
          match Http.json r with
          | Some j =>
            str_or (or_empty (j !! "error_description"))
              (str_or (or_empty (j !! "error")) msg)
          | None => msg
          end in
        raise (OAuthError ("Token exchange failed: " +:+ msg))
      else
        match Http.json r with
        | None => raise JSONDecodeError
        | Some j =>
          let access_token := strip (or_empty (j !! "access_token")) in
          if negb (nonempty access_token) then
            raise (OAuthError "Token exchange returned no access_token")
          else
            mret (copy_keys
                    ["id_token"; "refresh_token"; "expires_in"; "scope";
                     "token_type"]
                    j {[ "access_token" := access_token ]})
        end
    end.

Definition fetch_userinfo `{Environment} (access_token : string)
  : M (gmap string string) :=
  let access_token := strip access_token in
  if negb (nonempty access_token) then
    raise (OAuthError "Missing access_token")
  else
    o ← get_userinfo ("Bearer " +:+ access_token);
    match o with
    | Http.Failed e =>
      raise (OAuthError ("Userinfo request failed: " +:+ e))
    | Http.Responded r =>
      if 400 <=? Http.status_code r then
        raise (OAuthError ("Userinfo fetch failed: " +:+ Http.text r))
      else
        match Http.json r with
        | None => raise JSONDecodeError
        | Some j =>
          mret (<["sub" := strip (or_empty (j !! "sub"))]>
                (<["email" := strip (or_empty (j !! "email"))]>
                 (<["name" := strip (or_empty (j !! "name"))]>
                  {[ "picture" := strip (or_empty (j !! "picture")) ]})))
        end
    end.

End GoogleOAuth.

(** ** [app/db/models.py] *)

Module Models.
Import Py State.

(** [x or None] *)
Definition or_None (x : string) : option string :=
  if nonempty x then Some x else None.

(** [(new or old)] for a new string and an optional stored one. *)
Definition new_or_old (new : string) (old : option string) : option string :=
  if nonempty new then Some new else old.

(** [select(User).where(User.google_sub == google_sub)] with
    [scalar_one_or_none]; the column is unique, so at most one row matches. *)
Definition find_user (google_sub : string) (rows : list User) : option User :=
  List.find (fun u => bool_decide (user_google_sub u = google_sub)) rows.

(** Writing back a changed row. *)
Definition update_user (user : User) (rows : list User) : list User :=
  map (fun r => if bool_decide (user_id r = user_id user) then user else r)
      rows.

(** [User.upsert_google_user]; [commit] and [refresh] leave the row as
    written. *)
Definition upsert_google_user `{Environment}
    (google_sub email name picture : string) : M User :=
  w ← get_world;
  match find_user google_sub (users w) with
  | Some user =>
    (* only overwrite if new values are non-empty *)
    let user :=
      {| user_id := user_id user;
         user_google_sub := user_google_sub user;
         user_email := new_or_old email (user_email user);
         user_name := new_or_old name (user_name user);
         user_picture := new_or_old picture (user_picture user) |} in
    _ ← modify (set_users (update_user user));
    mret user
  | None =>
    let user :=
      {| user_id := uuid4 (uuids w);
         user_google_sub := google_sub;
         user_email := or_None (lower (strip email));
         user_name := or_None (strip name);
         user_picture := or_None (strip picture) |} in
    _ ← modify (set_uuids (S (uuids w)));
    _ ← modify (set_users (fun rows => rows ++ [user]));
    mret user
  end.

End Models.

(** ** [app/routes/auth.py] *)

Module Routes.
Import Py State GoogleOAuth Models Redirect.

Inductive Reply : Type :=
| RedirectResponse (url : string) (status_code : Z)
(** [JSONResponse({"ok": True, "user": user})] *)
| JSONResponse_ok_user (user : User).

Definition no_session_error : exn :=
  HTTPException 500 "Session middleware not enabled (SESSION_SECRET missing?)".

(** [GET /auth/login] *)
Definition login `{Environment} (next : string) : M Reply :=
  if negb session_enabled then raise no_session_error
  else
    let safe_next := str_or (_safe_next_url next) "/kiosk.html" in
    '(state, verifier, authorize_url) ← build_authorize_url;
    _ ← modify (set_session_strs (insert "oauth_state" state));
    _ ← modify (set_session_strs (insert "oauth_verifier" verifier));
    _ ← modify (set_session_strs (insert "oauth_next" safe_next));
    mret (RedirectResponse authorize_url 302).

(** The [try] block of [callback]: the two network calls, an [OAuthError]
    turned into a 400. *)
Definition fetch_identity `{Environment} (code verifier : string)
  : M (gmap string string) :=
  except_OAuthError
    (tokens ← exchange_code code verifier;
     match tokens !! "access_token" with
     | Some access_token => fetch_userinfo access_token
     | None => raise (KeyError "access_token")
     end)
    (fun msg => raise (HTTPException 400 msg)).

(** The rest of [callback], from the normalisation of the profile on. *)
Definition complete_sign_in `{Environment} (userinfo : gmap string string)
    (next_url : string) : M Reply :=
  let sub := strip (or_empty (userinfo !! "sub")) in
  let email := lower (strip (or_empty (userinfo !! "email"))) in
  let name := strip (or_empty (userinfo !! "name")) in
  let picture := strip (or_empty (userinfo !! "picture")) in
  if negb (nonempty sub) then
    raise (HTTPException 400 "Google userinfo missing sub")
  else
    user ← upsert_google_user sub email name picture;
    _ ← modify (set_session_user (Some user));
    let nxt := str_or (_safe_next_url next_url) "/kiosk.html" in
    let fe := rstrip_slash (strip FRONTEND_URL) in
    if startswith nxt "/" && nonempty fe then
      mret (RedirectResponse (fe +:+ nxt) 302)
    else if nonempty fe && startswith nxt fe then
      mret (RedirectResponse nxt 302)
    else mret (JSONResponse_ok_user user).

(** [GET /auth/callback]; [qp] is [request.query_params]. *)
Definition callback `{Environment} (qp : gmap string string) : M Reply :=
  if negb session_enabled then raise no_session_error
  else if nonempty (or_empty (qp !! "error")) then
    let detail :=
      str_or (or_empty (qp !! "error_description"))
        (str_or (or_empty (qp !! "error")) "OAuth error") in
    raise (HTTPException 400 detail)
  else
    let code := strip (or_empty (qp !! "code")) in
    let state := strip (or_empty (qp !! "state")) in
    w ← get_world;
    let expected_state := strip (or_empty (session_strs w !! "oauth_state")) in
    let verifier := strip (or_empty (session_strs w !! "oauth_verifier")) in
    let next_url := strip (or_empty (session_strs w !! "oauth_next")) in
    (* one-time cleanup *)
    _ ← modify (set_session_strs (delete "oauth_state"));
    _ ← modify (set_session_strs (delete "oauth_verifier"));
    _ ← modify (set_session_strs (delete "oauth_next"));
    if negb (nonempty code) || negb (nonempty state)
       || negb (nonempty expected_state)
       || negb (String.eqb state expected_state)
       || negb (nonempty verifier) then
      raise (HTTPException 400 "Invalid OAuth state")
    else
      userinfo ← fetch_identity code verifier;
      complete_sign_in userinfo next_url.

(** [GET /auth/me] and [POST /auth/logout] *)
Definition me : M (option User) :=
  w ← get_world; mret (session_user w).

Definition logout : M unit :=
  _ ← modify (set_session_strs (fun _ => ∅));
  modify (set_session_user None).

(** *** Vocabulary for the statements *)

(** The three entries of the one-time authorization state are absent. *)
Definition one_time_erased (w : World) : Prop :=
  session_strs w !! "oauth_state" = None
  /\ session_strs w !! "oauth_verifier" = None
  /\ session_strs w !! "oauth_next" = None.

(** The values [callback] compares, as it reads them. *)
Definition received_code (qp : gmap string string) : string :=
  strip (or_empty (qp !! "code")).
Definition received_state (qp : gmap string string) : string :=
  strip (or_empty (qp !! "state")).
Definition stored_state (w : World) : string :=
  strip (or_empty (session_strs w !! "oauth_state")).
Definition stored_verifier (w : World) : string :=
  strip (or_empty (session_strs w !! "oauth_verifier")).
Definition stored_next (w : World) : string :=
  strip (or_empty (session_strs w !! "oauth_next")).

(** The test of [callback] that guards the network calls. *)
Definition state_rejected (qp : gmap string string) (w : World) : bool :=
  negb (nonempty (received_code qp)) || negb (nonempty (received_state qp))
  || negb (nonempty (stored_state w))
  || negb (String.eqb (received_state qp) (stored_state w))
  || negb (nonempty (stored_verifier w)).

(** The state after the one-time cleanup. *)
Definition consumed (w : World) : World :=
  set_session_strs (delete "oauth_next")
    (set_session_strs (delete "oauth_verifier")
       (set_session_strs (delete "oauth_state") w)).

(** The provider reported an error in the query string. *)
Definition provider_error (qp : gmap string string) : bool :=
  nonempty (or_empty (qp !! "error")).

End Routes.

(** ** Sample deployments and states *)

Module Samples.
Import Bytes Encoding State.

(** The random tape 0, 1, 2, ... *)
Definition counting_tape : tape := fun k => byte_of_Z (Z.of_nat k).

Definition sample_token_endpoint (n : nat) (data : list (string * string))
  : Http.outcome :=
  Http.Responded
    {| Http.status_code := 200; Http.text := "";
       Http.json := Some {[ "access_token" := "tok123" ]} |}.

Definition sample_userinfo_endpoint (n : nat) (authorization : string)
  : Http.outcome :=
  Http.Responded
    {| Http.status_code := 200; Http.text := "";
       Http.json :=
         Some (<["sub" := "abc"]>
               (<["email" := " Ada@B.com "]> {[ "name" := " Ada L " ]})) |}.

(** Nothing is configured. *)
Definition unconfigured : Environment :=
  {| GOOGLE_OAUTH_CLIENT_ID := "";
     GOOGLE_OAUTH_CLIENT_SECRET := "";
     GOOGLE_OAUTH_REDIRECT_URI := "";
     GOOGLE_OAUTH_SCOPES := ["openid"; "email"; "profile"];
     FRONTEND_URL := "";
     session_enabled := true;
     client_secrets_files := [];
     sha256 := SHA256.digest;
     token_endpoint := fun _ _ => Http.Failed "connection refused";
     userinfo_endpoint := fun _ _ => Http.Failed "connection refused";
     uuid4 := fun n => "user-" +:+ pretty n |}.

(** Client and redirect URI from the settings, a front end, and a provider
    that accepts every code. *)
Definition configured : Environment :=
  {| GOOGLE_OAUTH_CLIENT_ID := "client-1";
     GOOGLE_OAUTH_CLIENT_SECRET := "secret-1";
     GOOGLE_OAUTH_REDIRECT_URI := "https://api.example/api/auth/callback";
     GOOGLE_OAUTH_SCOPES := ["openid"; "email"; "profile"];
     FRONTEND_URL := "https://app.example";
     session_enabled := true;
     client_secrets_files := [];
     sha256 := SHA256.digest;
     token_endpoint := sample_token_endpoint;
     userinfo_endpoint := sample_userinfo_endpoint;
     uuid4 := fun n => "user-" +:+ pretty n |}.

(** The same deployment with a provider whose userinfo carries only the
    subject. *)
Definition bare_userinfo_endpoint (n : nat) (authorization : string)
  : Http.outcome :=
  Http.Responded
    {| Http.status_code := 200; Http.text := "";
       Http.json := Some {[ "sub" := "abc" ]} |}.

Definition configured_bare : Environment :=
  {| GOOGLE_OAUTH_CLIENT_ID := "client-1";
     GOOGLE_OAUTH_CLIENT_SECRET := "secret-1";
     GOOGLE_OAUTH_REDIRECT_URI := "https://api.example/api/auth/callback";
     GOOGLE_OAUTH_SCOPES := ["openid"; "email"; "profile"];
     FRONTEND_URL := "https://app.example";
     session_enabled := true;
     client_secrets_files := [];
     sha256 := SHA256.digest;
     token_endpoint := sample_token_endpoint;
     userinfo_endpoint := bare_userinfo_endpoint;
     uuid4 := fun n => "user-" +:+ pretty n |}.

(** A fresh browser and an empty database. *)
Definition fresh : World :=
  {| session_strs := ∅; session_user := None; oauth_cached := None;
     users := []; entropy := counting_tape; uuids := 0; net_log := [] |}.

(** A browser between login and callback. *)
Definition pending : World :=
  set_session_strs
    (fun _ => <["oauth_state" := "st4te"]>
              (<["oauth_verifier" := "v3rifier"]>
               {[ "oauth_next" := "/kiosk.html" ]}))
    fresh.

Definition query (l : list (string * string)) : gmap string string :=
  list_to_map l.

(** Callbacks for [pending]: the matching one, one with another state, one
    whose state has a trailing space, and two in which the provider reports
    an error. *)
Definition query_ok : gmap string string :=
  query [("code", "c0de"); ("state", "st4te")].
Definition query_wrong_state : gmap string string :=
  query [("code", "c0de"); ("state", "0ther")].
Definition query_spaced_state : gmap string string :=
  query [("code", "c0de"); ("state", "st4te ")].
Definition query_denied : gmap string string :=
  query [("error", "access_denied")].
Definition query_denied_wrong_state : gmap string string :=
  query [("error", "access_denied"); ("state", "0ther")].

End Samples.

(** ** Further vocabulary for the WAV codec *)

Module WavTerms.
Import Bytes Wav.

(** The file that [pcm16_to_wav] writes when every field fits. *)
Definition synthesized (pcm : list byte) (rate ch : Z) : list byte :=
  canonical_wav (le_bytes 4 (36 + Z.of_nat (length pcm))) (le_bytes 2 1)
    (le_bytes 2 ch) (le_bytes 4 rate) (le_bytes 4 (rate * ch * 2))
    (le_bytes 2 (ch * 2)) (le_bytes 2 16)
    (le_bytes 4 (Z.of_nat (length pcm))) pcm.

(** A chunk header is at [p] on the walk from offset 12. *)
Definition on_chain (wav : list byte) (p : Z) : Prop :=
  exists st, visits wav st /\ i st = p.

(** The four format fields of [st] are those of the [fmt ] chunk whose
    header is at [p], which lies in the buffer with its 16 bytes. *)
Definition fmt_read_at (wav : list byte) (st : scan_state) (p : Z) : Prop :=
  on_chain wav p
  /\ chunk_id_at wav p = fmt_
  /\ 16 <= chunk_size_at wav p
  /\ p + 8 + chunk_size_at wav p <= Z.of_nat (length wav)
  /\ audio_format st = _read_u16_le wav (p + 8)
  /\ channels st = _read_u16_le wav (p + 10)
  /\ sample_rate st = _read_u32_le wav (p + 12)
  /\ bits_per_sample st = _read_u16_le wav (p + 22).

(** The data offset and size of [st] are those of the [data] chunk whose
    header is at [q], whose payload lies in the buffer. *)
Definition data_read_at (wav : list byte) (st : scan_state) (q : Z) : Prop :=
  on_chain wav q
  /\ chunk_id_at wav q = data
  /\ data_offset st = q + 8
  /\ data_size st = chunk_size_at wav q
  /\ q + 8 + chunk_size_at wav q <= Z.of_nat (length wav).

(** What the loop of [parse_wav_details] keeps true of its variables. *)
Definition read_from_chunks (wav : list byte) (st : scan_state) : Prop :=
  (fmt_found st = true -> exists p, fmt_read_at wav st p)
  /\ (data_found st = true -> exists q, data_read_at wav st q).

(** The state in which the walk through [wav_with_list] reaches its [data]
    chunk. *)
Definition wav_with_list_at_data : scan_state :=
  {| i := 48; fmt_found := true; data_found := false;
     sample_rate := 24000; channels := 1; audio_format := 1;
     bits_per_sample := 16; data_offset := -1; data_size := 0 |}.

(** A [fmt ] chunk for 16-bit mono PCM at 24 kHz. *)
Definition fmt_chunk_mono : list byte :=
  fmt_ ++ le_bytes 4 16
  ++ (le_bytes 2 1 ++ le_bytes 2 1 ++ le_bytes 4 24000 ++ le_bytes 4 48000
      ++ le_bytes 2 2 ++ le_bytes 2 16).

(** A file with two [data] chunks, of payloads [a] and [b], before its
    [fmt ] chunk. *)
Definition two_data_wav (a b : list byte) : list byte :=
  RIFF ++ le_bytes 4 (44 + Z.of_nat (length a) + Z.of_nat (length b)) ++ WAVE
  ++ data ++ le_bytes 4 (Z.of_nat (length a)) ++ a
  ++ data ++ le_bytes 4 (Z.of_nat (length b)) ++ b
  ++ fmt_chunk_mono.

End WavTerms.

(** ** Further vocabulary for the users table *)

Module ModelsTerms.
Import Py State Models.

(** The row that [upsert_google_user] writes over the stored row [old]. *)
Definition updated_row (old : User) (email name picture : string) : User :=
  {| user_id := user_id old;
     user_google_sub := user_google_sub old;
     user_email := new_or_old email (user_email old);
     user_name := new_or_old name (user_name old);
     user_picture := new_or_old picture (user_picture old) |}.

(** The row that it adds for a subject that has none. *)
Definition created_row (id google_sub email name picture : string) : User :=
  {| user_id := id;
     user_google_sub := google_sub;
     user_email := or_None (lower (strip email));
     user_name := or_None (strip name);
     user_picture := or_None (strip picture) |}.

(** A profile as [callback] passes it: the email stripped and lowered, the
    name and the picture stripped. *)
Definition normalised (email name picture : string) : Prop :=
  lower (strip email) = email /\ strip name = name
  /\ strip picture = picture.

(** A table of one row, and a state whose database is that table. *)
Definition ada : User :=
  {| user_id := "user-0"; user_google_sub := "abc";
     user_email := Some "ada@b.com"; user_name := Some "Ada L";
     user_picture := None |}.

Definition with_rows (rows : list User) (w : World) : World :=
  set_users (fun _ => rows) w.

End ModelsTerms.

(** ** Further vocabulary for the sign-in flow *)

Module AuthTerms.
Import Py Encoding State GoogleOAuth Models Redirect Routes.

(** The front-end origin as [callback] and [_safe_next_url] compute it. *)
Definition frontend `{Environment} : string :=
  rstrip_slash (strip FRONTEND_URL).

(** A redirect target that the validator lets through: a path that does
    not begin with ["//"], or a URL that is no path and begins with the
    front-end origin. *)
Definition safe_target `{Environment} (url : string) : Prop :=
  (startswith url "/" = true /\ startswith url "//" = false)
  \/ (startswith url "/" = false
      /\ frontend <> "" /\ startswith url frontend = true).

(** Nothing that a browser or the database can observe differs between
    [w] and [w']: the session, the rows, the ids drawn and the network
    log.  The cached client and the random tape may differ. *)
Definition quiet (w w' : World) : Prop :=
  session_strs w' = session_strs w /\ session_user w' = session_user w
  /\ users w' = users w /\ uuids w' = uuids w /\ net_log w' = net_log w.

(** The form that [exchange_code] posts. *)
Definition token_form (code client_id client_secret redirect_uri
                       code_verifier : string) : list (string * string) :=
  [("code", code);
   ("client_id", client_id);
   ("client_secret", client_secret);
   ("redirect_uri", redirect_uri);
   ("grant_type", "authorization_code");
   ("code_verifier", code_verifier)].

(** The ways a call to the provider fails: an [OAuthError], or an answer
    below 400 whose body is no JSON. *)
Definition provider_failure (e : exn) : Prop :=
  (exists msg, e = OAuthError msg) \/ e = JSONDecodeError.

(** What [exchange_code] yields once it has posted the form. *)
Definition token_result (r : result (gmap string string)) : Prop :=
  match r with
  | Ok tokens =>
    exists tok, tokens !! "access_token" = Some tok
                /\ tok <> "" /\ strip tok = tok
  | Raise e => provider_failure e
  end.

(** What [fetch_userinfo] yields once it has sent the request. *)
Definition userinfo_result (r : result (gmap string string)) : Prop :=
  match r with
  | Ok info =>
    (forall k, k ∈ ["sub"; "email"; "name"; "picture"] ->
               is_Some (info !! k))
    /\ (forall k v, info !! k = Some v ->
                    k ∈ ["sub"; "email"; "name"; "picture"] /\ strip v = v)
  | Raise e => provider_failure e
  end.

(** [w'] differs from [w], for a browser and the database, by the calls
    added to the network log. *)
Definition after_calls (w w' : World) (calls : list NetCall) : Prop :=
  session_strs w' = session_strs w /\ session_user w' = session_user w
  /\ users w' = users w /\ uuids w' = uuids w
  /\ net_log w' = net_log w ++ calls.

(** The calls of one [callback]: none, the token request, or the token
    request and then the userinfo request with a bearer token. *)
Definition both_calls (calls : list NetCall) : Prop :=
  exists form tok,
    tok <> "" /\ calls = [TokenRequest form; UserinfoRequest ("Bearer " +:+ tok)].

Definition provider_calls (calls : list NetCall) : Prop :=
  calls = [] \/ (exists form, calls = [TokenRequest form])
  \/ both_calls calls.

(** A candidate file from which [_try_load_client_secrets_json] takes the
    client: its block has a client id and a client secret that are not
    blank. *)
Definition usable (data : gmap string (gmap string string)) : bool :=
  nonempty (fst (_extract_client_id_secret data))
  && nonempty (snd (_extract_client_id_secret data)).

Definition passed_over (o : option (gmap string (gmap string string)))
  : Prop :=
  match o with
  | None => True
  | Some data => usable data = false
  end.

(** The callback that answers the login of [Samples.fresh] in the
    deployment [Samples.configured]. *)
Definition query_after_login : gmap string string :=
  Samples.query
    [("code", "c0de"); ("state", "AAECAwQFBgcICQoLDA0ODxAREhMUFRYX")].

End AuthTerms.

(** ** [app/services/storage/history_store.py] and the history routes *)

Module Json.

(** A value as [json.loads] gives it and [json.dumps] takes it; a dict is
    the list of its items, whose keys are distinct.  Numbers are kept as
    they are. *)
#[local] Unset Elimination Schemes.
Inductive json (number : Type) : Type :=
| JNull
| JBool (b : bool)
| JNumber (n : number)
| JString (s : string)
| JList (items : list (json number))
| JDict (items : list (string * json number)).
#[local] Set Elimination Schemes.
Arguments JNull {number}.
Arguments JBool {number} b.
Arguments JNumber {number} n.
Arguments JString {number} s.
Arguments JList {number} items.
Arguments JDict {number} items.

(** [d.get(key)], with [None] as JSON's null. *)
Fixpoint dict_get {number} (key : string) (items : list (string * json number))
  : json number :=
  match items with
  | [] => JNull
  | (k, v) :: rest => if String.eqb k key then v else dict_get key rest
  end.

(** [isinstance(h, (list, dict))] *)
Definition is_list_or_dict {number} (h : json number) : bool :=
  match h with
  | JList _ | JDict _ => true
  | _ => false
  end.

End Json.

Module HistoryStore.
Import Json.

Section Store.
Context {number : Type}.

(** The rows of [user_histories] by [user_id], its primary key; the value
    is the [history] column.  A commit is taken to succeed: the ids that
    the routes pass are those of rows of [users], which the program never
    deletes. *)
Definition table : Type := gmap string (json number).

(** [HistoryStore.load] *)
Definition load (user_id : string) (rows : table) : json number :=
  match rows !! user_id with
  | None => JList []
  | Some JNull => JList []
  | Some h => if is_list_or_dict h then h else JList []
  end.

(** [HistoryStore.save]; [json.dumps] accepts every value that was parsed
    from JSON, so that its [except] branch is not taken. *)
Definition save (user_id : string) (history : json number) (rows : table)
  : table :=
  let history :=
    match history with
    | JNull => JList []
    | h => h
    end in
  <[user_id := history]> rows.

End Store.
End HistoryStore.

(** [app/routes/auth.py]: the session's user and the history routes. *)
Module Account.
Import Py State Json HistoryStore.

(** [request.session.get("user")] when it is a dict; [None] also when the
    request has no session. *)
Definition _session_user `{Environment} (w : World) : option User :=
  if session_enabled then session_user w else None.

Definition _require_user `{Environment} (w : World) : result User :=
  match _session_user w with
  | Some u => Ok u
  | None => Raise (HTTPException 401 "Not signed in")
  end.

Section Routes.
Context `{Environment} {number : Type}.

(** [GET /history]: the value under ["history"] of the JSON answer. *)
Definition get_history (w : World) (rows : @table number)
  : result (json number) :=
  u ← _require_user w;
  Ok (load (user_id u) rows).

(** What [put_history] takes from the body. *)
Definition body_history (payload : json number) : json number :=
  match payload with
  | JDict items => dict_get "history" items
  | _ => payload
  end.

(** [PUT /history] *)
Definition put_history (payload : json number) (w : World)
    (rows : @table number) : result unit * @table number :=
  match _require_user w with
  | Raise e => (Raise e, rows)
  | Ok u => (Ok tt, save (user_id u) (body_history payload) rows)
  end.

End Routes.

(** A browser that is signed in as [u]. *)
Definition signed_in (u : User) (w : World) : World :=
  set_session_user (Some u) w.

End Account.

(** ** [clamp_str] of [stt_base.py] and [normalize_lang] of
    [google_stt.py] *)

Module Lang.
Import Py.

(** [s[:n]] for an integer [n]: a negative [n] counts from the end. *)
Definition take_to (n : Z) (s : string) : string :=
  if n <? 0 then take_str (String.length s - Z.to_nat (- n)) s
  else take_str (Z.to_nat n) s.

Definition clamp_str (s default : string) (max_len : Z) : string :=
  let x := strip s in
  if negb (nonempty x) then default
  else take_to max_len x.

Definition _LANG_MAP : list (string * string) :=
  [("en", "en-US"); ("es", "es-ES"); ("fr", "fr-FR"); ("ar", "ar-SA");
   ("hy", "hy-AM"); ("ru", "ru-RU"); ("de", "de-DE"); ("it", "it-IT");
   ("pt", "pt-BR"); ("tr", "tr-TR")].

(** [d.get(key, default)] *)
Fixpoint get_or (key : string) (d : list (string * string)) (default : string)
  : string :=
  match d with
  | [] => default
  | (k, v) :: rest => if String.eqb k key then v else get_or key rest default
  end.

(** ["-" in s] *)
Fixpoint has_hyphen (s : string) : bool :=
  match s with
  | EmptyString => false
  | String c s' => Ascii.eqb c "-" || has_hyphen s'
  end.

Definition normalize_lang (lang : string) : string :=
  let x := strip (clamp_str lang "en" 32) in
  if negb (nonempty x) then "en-US"
  else
    let x_low := lower x in
    if String.eqb x_low "ar-xa" then "ar-SA"
    else if has_hyphen x_low then x
    else get_or x_low _LANG_MAP x.

End Lang.

(* ================================================================== *)
(** * Properties *)

(** ** Bytes and integers *)

Module BytesFacts.
Import Bytes.

Lemma byte_to_Z_range (b : byte) : 0 <= byte_to_Z b < 256.
Proof.
  unfold byte_to_Z. pose proof (Byte.to_N_bounded b). lia.
Qed.

Lemma byte_to_of_Z (z : Z) : byte_to_Z (byte_of_Z z) = z mod 256.
Proof.
  unfold byte_to_Z, byte_of_Z.
  pose proof (Z.mod_pos_bound z 256 eq_refl) as Hm.
  destruct (Byte.of_N (Z.to_N (z mod 256))) as [b|] eqn:E.
  - apply Byte.to_of_N in E. rewrite E. lia.
  - apply Byte.of_N_None_iff in E. lia.
Qed.

Lemma byte_of_to_Z (b : byte) : byte_of_Z (byte_to_Z b) = b.
Proof.
  unfold byte_of_Z. pose proof (byte_to_Z_range b) as Hr.
  rewrite Z.mod_small by lia. unfold byte_to_Z.
  rewrite N2Z.id, Byte.of_to_N. reflexivity.
Qed.

Lemma int_from_bytes_little_range (bs : list byte) :
  0 <= int_from_bytes_little bs < 256 ^ Z.of_nat (length bs).
Proof.
  induction bs as [|b bs IH]; simpl; [lia|].
  pose proof (byte_to_Z_range b).
  rewrite Nat2Z.inj_succ, Z.pow_succ_r by lia.
  fold (int_from_bytes_little bs). lia.
Qed.

Lemma length_le_bytes (n : nat) (v : Z) : length (le_bytes n v) = n.
Proof. revert v. induction n; intros; simpl; [|rewrite IHn]; reflexivity. Qed.

Lemma int_from_le_bytes (n : nat) (v : Z) :
  int_from_bytes_little (le_bytes n v) = v mod 256 ^ Z.of_nat n.
Proof.
  revert v. induction n as [|n IH]; intros v.
  - simpl. rewrite Z.mod_1_r. reflexivity.
  - cbn [le_bytes int_from_bytes_little fold_right].
    fold (int_from_bytes_little (le_bytes n (v / 256))).
    rewrite IH, byte_to_of_Z, Nat2Z.inj_succ, Z.pow_succ_r by lia.
    rewrite Z.rem_mul_r by lia. reflexivity.
Qed.

Lemma int_from_le_bytes_4 (v : Z) :
  0 <= v < 2 ^ 32 -> int_from_bytes_little (le_bytes 4 v) = v.
Proof.
  intros H. rewrite int_from_le_bytes. apply Z.mod_small.
  change (256 ^ Z.of_nat 4) with (2 ^ 32). lia.
Qed.

Lemma int_from_le_bytes_2 (v : Z) :
  0 <= v < 2 ^ 16 -> int_from_bytes_little (le_bytes 2 v) = v.
Proof.
  intros H. rewrite int_from_le_bytes. apply Z.mod_small.
  change (256 ^ Z.of_nat 2) with (2 ^ 16). lia.
Qed.

Lemma struct_pack_I_Ok (v : Z) :
  0 <= v < 2 ^ 32 -> struct_pack_I v = Ok (le_bytes 4 v).
Proof.
  intros H. unfold struct_pack_I.
  destruct (Z.leb_spec 0 v), (Z.ltb_spec v (2 ^ 32)); simpl; (reflexivity || lia).
Qed.

Lemma struct_pack_H_Ok (v : Z) :
  0 <= v < 2 ^ 16 -> struct_pack_H v = Ok (le_bytes 2 v).
Proof.
  intros H. unfold struct_pack_H.
  destruct (Z.leb_spec 0 v), (Z.ltb_spec v (2 ^ 16)); simpl; (reflexivity || lia).
Qed.

Lemma struct_pack_I_inv (v : Z) (bs : list byte) :
  struct_pack_I v = Ok bs ->
  0 <= v < 2 ^ 32 /\ bs = le_bytes 4 v /\ int_from_bytes_little bs = v.
Proof.
  unfold struct_pack_I.
  destruct (Z.leb_spec 0 v), (Z.ltb_spec v (2 ^ 32));
    cbn [andb]; try discriminate.
  intros Heq. assert (bs = le_bytes 4 v) as -> by congruence.
  split; [lia|]. split; [reflexivity|].
  rewrite int_from_le_bytes. apply Z.mod_small.
  change (256 ^ Z.of_nat 4) with (2 ^ 32). lia.
Qed.

Lemma struct_pack_H_inv (v : Z) (bs : list byte) :
  struct_pack_H v = Ok bs ->
  0 <= v < 2 ^ 16 /\ bs = le_bytes 2 v /\ int_from_bytes_little bs = v.
Proof.
  unfold struct_pack_H.
  destruct (Z.leb_spec 0 v), (Z.ltb_spec v (2 ^ 16));
    cbn [andb]; try discriminate.
  intros Heq. assert (bs = le_bytes 2 v) as -> by congruence.
  split; [lia|]. split; [reflexivity|].
  rewrite int_from_le_bytes. apply Z.mod_small.
  change (256 ^ Z.of_nat 2) with (2 ^ 16). lia.
Qed.

Lemma bytes_eqb_eq (a b : list byte) : bytes_eqb a b = true <-> a = b.
Proof. unfold bytes_eqb. apply bool_decide_eq_true. Qed.

Lemma bytes_eqb_neq (a b : list byte) : bytes_eqb a b = false <-> a <> b.
Proof. unfold bytes_eqb. apply bool_decide_eq_false. Qed.

End BytesFacts.

(** ** WAV codec *)

Module WavFacts.
Import Bytes Wav BytesFacts.

Example pcm16_to_wav_sample :
  pcm16_to_wav sample_pcm 24000 1 =
  Ok (list_byte_of_string "RIFF" ++ [x28; x00; x00; x00]
      ++ list_byte_of_string "WAVEfmt " ++ [x10; x00; x00; x00]
      ++ [x01; x00; x01; x00; xc0; x5d; x00; x00; x80; xbb; x00; x00]
      ++ [x02; x00; x10; x00]
      ++ list_byte_of_string "data" ++ [x04; x00; x00; x00] ++ sample_pcm).
Proof. vm_compute. reflexivity. Qed.

Example extract_sample :
  match pcm16_to_wav sample_pcm 24000 1 with
  | Ok w => extract_wav_pcm16 w
  | Raise e => Some (Raise e)
  end = Some (Ok (sample_pcm, 24000, 1)).
Proof. vm_compute. reflexivity. Qed.

(** *** The scanning loop *)

Lemma chunk_size_at_nonneg wav off : 0 <= chunk_size_at wav off.
Proof.
  unfold chunk_size_at, _read_u32_le.
  apply int_from_bytes_little_range.
Qed.

Lemma scan_advance_i st sz st' :
  0 <= sz ->
  scan_advance st sz = Continue st' \/ scan_advance st sz = Break st' ->
  i st' = i st + (sz + sz mod 2).
Proof.
  unfold scan_advance. intros Hsz.
  destruct (fmt_found _ && data_found _); intros [H|H];
    inversion H; reflexivity.
Qed.

Lemma scan_chunk_Continue_advances wav st st' :
  scan_chunk wav st = Continue st' -> i st + 8 <= i st'.
Proof.
  unfold scan_chunk. fold (chunk_size_at wav (i st)).
  pose proof (chunk_size_at_nonneg wav (i st)) as Hsz.
  pose proof (Z.mod_pos_bound (chunk_size_at wav (i st)) 2 eq_refl) as Hm.
  intros H.
  repeat match type of H with
         | (if ?c then _ else _) = _ => destruct c
         end; try discriminate;
    apply (fun h => scan_advance_i _ _ _ Hsz (or_introl h)) in H;
    rewrite H; cbn [i set_i set_fmt set_data]; lia.
Qed.

Lemma scan_chunks_enough fuel wav st :
  Z.of_nat (length wav) - i st < 8 * Z.of_nat fuel + 8 ->
  is_Some (scan_chunks fuel wav st).
Proof.
  revert st. induction fuel as [|fuel IH]; intros st Hf; cbn [scan_chunks].
  - destruct (Z.leb_spec (i st + 8) (Z.of_nat (length wav))); [lia|eauto].
  - destruct (Z.leb_spec (i st + 8) (Z.of_nat (length wav))); [|eauto].
    destruct (scan_chunk wav st) as [st'| |] eqn:E; eauto.
    apply IH. apply scan_chunk_Continue_advances in E. lia.
Qed.

Lemma scan_chunks_more fuel fuel' wav st r :
  scan_chunks fuel wav st = Some r -> (fuel <= fuel')%nat ->
  scan_chunks fuel' wav st = Some r.
Proof.
  revert fuel' st. induction fuel as [|fuel IH]; intros fuel' st;
    cbn [scan_chunks].
  - destruct fuel'; cbn [scan_chunks];
      destruct (i st + 8 <=? Z.of_nat (length wav)); congruence.
  - intros H Hle. destruct fuel' as [|fuel']; [lia|]. cbn [scan_chunks].
    destruct (i st + 8 <=? Z.of_nat (length wav)); [|assumption].
    destruct (scan_chunk wav st); try assumption.
    apply IH; [assumption|lia].
Qed.

Lemma scan_total wav : is_Some (scan wav).
Proof. apply scan_chunks_enough. cbn [i scan_init]. lia. Qed.

Lemma parse_wav_details_total wav : is_Some (parse_wav_details wav).
Proof.
  unfold parse_wav_details. destruct (negb (is_wav wav)); [eauto|].
  destruct (scan_total wav) as [[st|e] ->]; eauto.
Qed.

Lemma visits_i_ge wav st : visits wav st -> 12 <= i st.
Proof.
  induction 1 as [|st st' _ IH _ Hs]; [cbn; lia|].
  apply scan_chunk_Continue_advances in Hs. lia.
Qed.

Lemma visits_not_both wav st :
  visits wav st -> fmt_found st && data_found st = false.
Proof.
  induction 1 as [|st st' _ _ _ Hs]; [reflexivity|].
  unfold scan_chunk, scan_advance in Hs.
  repeat match type of Hs with
         | (if ?c then _ else _) = _ => destruct c eqn:?
         end; try discriminate; inversion Hs; subst; assumption.
Qed.

(** Every state the loop visits leads to the same outcome as the whole
    scan. *)
Lemma visits_scan wav st :
  visits wav st -> scan_chunks (length wav) wav st = scan wav.
Proof.
  induction 1 as [|st st' Hv IH Hg Hs]; [reflexivity|].
  rewrite <- IH.
  pose proof (visits_i_ge _ _ Hv) as Hi.
  pose proof (scan_chunk_Continue_advances _ _ _ Hs) as Hadv.
  destruct (length wav) as [|n] eqn:En; [lia|].
  assert (is_Some (scan_chunks n wav st')) as [r Hr].
  { apply scan_chunks_enough. rewrite En. lia. }
  rewrite (scan_chunks_more n (S n) wav st' r Hr) by lia.
  cbn [scan_chunks]. rewrite En.
  destruct (Z.leb_spec (i st + 8) (Z.of_nat (S n))); [|lia].
  rewrite Hs. symmetry. exact Hr.
Qed.

Lemma visits_Break wav st st' :
  visits wav st -> i st + 8 <= Z.of_nat (length wav) ->
  scan_chunk wav st = Break st' -> scan wav = Some (Ok st').
Proof.
  intros Hv Hg Hs. rewrite <- (visits_scan _ _ Hv).
  pose proof (visits_i_ge _ _ Hv) as Hi.
  destruct (length wav) as [|n] eqn:En; [lia|].
  cbn [scan_chunks]. rewrite En.
  destruct (Z.leb_spec (i st + 8) (Z.of_nat (S n))); [|lia].
  rewrite Hs. reflexivity.
Qed.

Lemma visits_Throw wav st e :
  visits wav st -> i st + 8 <= Z.of_nat (length wav) ->
  scan_chunk wav st = Throw e -> scan wav = Some (Raise e).
Proof.
  intros Hv Hg Hs. rewrite <- (visits_scan _ _ Hv).
  pose proof (visits_i_ge _ _ Hv) as Hi.
  destruct (length wav) as [|n] eqn:En; [lia|].
  cbn [scan_chunks]. rewrite En.
  destruct (Z.leb_spec (i st + 8) (Z.of_nat (S n))); [|lia].
  rewrite Hs. reflexivity.
Qed.

Lemma visits_exit wav st :
  visits wav st -> Z.of_nat (length wav) < i st + 8 ->
  scan wav = Some (Ok st).
Proof.
  intros Hv Hg. rewrite <- (visits_scan _ _ Hv).
  destruct (length wav) as [|n] eqn:En; cbn [scan_chunks]; rewrite ?En;
    destruct (Z.leb_spec (i st + 8) (Z.of_nat (length wav)));
    rewrite ?En in *; try lia;
    match goal with
    | |- context [?a <=? ?b] => destruct (Z.leb_spec a b); [lia|reflexivity]
    end.
Qed.

(** *** One pass of the loop body, by kind of chunk *)

Section ScanChunk.
Variable wav : list byte.
Variable st : scan_state.
Let len := Z.of_nat (length wav).
Let size := chunk_size_at wav (i st).
Let payload := i st + 8.

Lemma scan_chunk_truncated :
  len < payload + size ->
  scan_chunk wav st = Break (set_i st payload).
Proof.
  intros H. unfold scan_chunk. fold (chunk_size_at wav (i st)).
  cbn [i set_i]. fold size payload len.
  destruct (Z.ltb_spec len (payload + size)); [reflexivity|lia].
Qed.

Lemma scan_chunk_fmt_short :
  payload + size <= len -> chunk_id_at wav (i st) = fmt_ -> size < 16 ->
  scan_chunk wav st = Throw (ValueError "Invalid WAV fmt chunk").
Proof.
  intros H Hid Hsz. unfold scan_chunk.
  fold (chunk_size_at wav (i st)) (chunk_id_at wav (i st)).
  cbn [i set_i]. fold size payload len. rewrite Hid.
  destruct (Z.ltb_spec len (payload + size)); [lia|].
  change (bytes_eqb fmt_ fmt_) with true. cbn match.
  destruct (Z.ltb_spec size 16); [reflexivity|lia].
Qed.

Lemma scan_chunk_fmt :
  payload + size <= len -> chunk_id_at wav (i st) = fmt_ -> 16 <= size ->
  scan_chunk wav st =
  scan_advance
    (set_fmt (set_i st payload)
       (_read_u16_le wav payload) (_read_u16_le wav (payload + 2))
       (_read_u32_le wav (payload + 4)) (_read_u16_le wav (payload + 14)))
    size.
Proof.
  intros H Hid Hsz. unfold scan_chunk.
  fold (chunk_size_at wav (i st)) (chunk_id_at wav (i st)).
  cbn [i set_i]. fold size payload len. rewrite Hid.
  destruct (Z.ltb_spec len (payload + size)); [lia|].
  change (bytes_eqb fmt_ fmt_) with true. cbn match.
  destruct (Z.ltb_spec size 16); [lia|].
  rewrite Z.add_0_r. reflexivity.
Qed.

Lemma scan_chunk_data :
  payload + size <= len -> chunk_id_at wav (i st) = data ->
  scan_chunk wav st =
  scan_advance (set_data (set_i st payload) payload size) size.
Proof.
  intros H Hid. unfold scan_chunk.
  fold (chunk_size_at wav (i st)) (chunk_id_at wav (i st)).
  cbn [i set_i]. fold size payload len. rewrite Hid.
  destruct (Z.ltb_spec len (payload + size)); [lia|].
  change (bytes_eqb data fmt_) with false.
  change (bytes_eqb data data) with true. reflexivity.
Qed.

Lemma scan_chunk_other :
  payload + size <= len ->
  chunk_id_at wav (i st) <> fmt_ -> chunk_id_at wav (i st) <> data ->
  scan_chunk wav st = scan_advance (set_i st payload) size.
Proof.
  intros H Hf Hd. unfold scan_chunk.
  fold (chunk_size_at wav (i st)) (chunk_id_at wav (i st)).
  cbn [i set_i]. fold size payload len.
  destruct (Z.ltb_spec len (payload + size)); [lia|].
  apply bytes_eqb_neq in Hf, Hd. rewrite Hf, Hd. reflexivity.
Qed.
End ScanChunk.

(** *** The second loop, of [extract_wav_pcm16] *)

Lemma find_data_size_hit fuel wav off :
  off + 8 + chunk_size_at wav off <= Z.of_nat (length wav) ->
  chunk_id_at wav off = data ->
  find_data_size (S fuel) wav off = Some (Some (chunk_size_at wav off)).
Proof.
  intros H Hid. cbn [find_data_size].
  fold (chunk_size_at wav off) (chunk_id_at wav off). rewrite Hid.
  pose proof (chunk_size_at_nonneg wav off).
  destruct (Z.leb_spec (off + 8) (Z.of_nat (length wav))); [|lia].
  destruct (Z.ltb_spec (Z.of_nat (length wav))
              (off + 8 + chunk_size_at wav off)); [lia|reflexivity].
Qed.

Lemma find_data_size_skip fuel wav off :
  off + 8 + chunk_size_at wav off <= Z.of_nat (length wav) ->
  chunk_id_at wav off <> data ->
  find_data_size (S fuel) wav off =
  find_data_size fuel wav
    (off + 8 + (chunk_size_at wav off + chunk_size_at wav off mod 2)).
Proof.
  intros H Hid. cbn [find_data_size].
  fold (chunk_size_at wav off) (chunk_id_at wav off).
  pose proof (chunk_size_at_nonneg wav off).
  destruct (Z.leb_spec (off + 8) (Z.of_nat (length wav))); [|lia].
  destruct (Z.ltb_spec (Z.of_nat (length wav))
              (off + 8 + chunk_size_at wav off)); [lia|].
  apply bytes_eqb_neq in Hid. rewrite Hid. reflexivity.
Qed.

Lemma find_data_size_enough fuel wav off :
  Z.of_nat (length wav) - off < 8 * Z.of_nat fuel + 8 ->
  is_Some (find_data_size fuel wav off).
Proof.
  revert off. induction fuel as [|fuel IH]; intros off Hf;
    cbn [find_data_size].
  - destruct (Z.leb_spec (off + 8) (Z.of_nat (length wav))); [lia|eauto].
  - destruct (Z.leb_spec (off + 8) (Z.of_nat (length wav))); [|eauto].
    destruct (_ <? _); [eauto|]. destruct (bytes_eqb _ _); [eauto|].
    apply IH. fold (chunk_size_at wav off).
    pose proof (chunk_size_at_nonneg wav off).
    pose proof (Z.mod_pos_bound (chunk_size_at wav off) 2 eq_refl). lia.
Qed.

Lemma extract_wav_pcm16_total wav : is_Some (extract_wav_pcm16 wav).
Proof.
  unfold extract_wav_pcm16.
  destruct (parse_wav_details_total wav) as [[[[[[sr ch] bps] fmt] off]|e] ->];
    [|eauto].
  destruct (negb (bool_decide _)); [eauto|]. destruct (negb (_ =? _)); [eauto|].
  destruct (find_data_size_enough (length wav) wav 12) as [[sz|] ->];
    [lia| |eauto].
  destruct (slice _ _ _); eauto.
Qed.

(** *** Files with the canonical 44-byte header *)

Lemma length_4 {A} (l : list A) :
  length l = 4%nat -> exists a b c d, l = [a; b; c; d].
Proof.
  destruct l as [|a [|b [|c [|d [|]]]]]; try discriminate; eauto.
Qed.

Lemma length_2 {A} (l : list A) :
  length l = 2%nat -> exists a b, l = [a; b].
Proof.
  destruct l as [|a [|b [|]]]; try discriminate; eauto.
Qed.

Section Canonical.
Variables riff_size tag ch rate byte_rate align bits dsize payload : list byte.
Hypothesis len_riff_size : length riff_size = 4%nat.
Hypothesis len_tag : length tag = 2%nat.
Hypothesis len_ch : length ch = 2%nat.
Hypothesis len_rate : length rate = 4%nat.
Hypothesis len_byte_rate : length byte_rate = 4%nat.
Hypothesis len_align : length align = 2%nat.
Hypothesis len_bits : length bits = 2%nat.
Hypothesis len_dsize : length dsize = 4%nat.

Let wav := canonical_wav riff_size tag ch rate byte_rate align bits dsize
             payload.
Let dsz := int_from_bytes_little dsize.

Let final := canonical_final tag ch rate bits dsize.

Ltac explicit_fields :=
  destruct (length_4 _ len_riff_size) as (?&?&?&?&Hf1);
  destruct (length_2 _ len_tag) as (?&?&Hf2);
  destruct (length_2 _ len_ch) as (?&?&Hf3);
  destruct (length_4 _ len_rate) as (?&?&?&?&Hf4);
  destruct (length_4 _ len_byte_rate) as (?&?&?&?&Hf5);
  destruct (length_2 _ len_align) as (?&?&Hf6);
  destruct (length_2 _ len_bits) as (?&?&Hf7);
  destruct (length_4 _ len_dsize) as (?&?&?&?&Hf8);
  subst wav dsz final;
  rewrite ?Hf1, ?Hf2, ?Hf3, ?Hf4, ?Hf5, ?Hf6, ?Hf7, ?Hf8 in *;
  clear Hf1 Hf2 Hf3 Hf4 Hf5 Hf6 Hf7 Hf8.

Lemma length_canonical_wav : length wav = (44 + length payload)%nat.
Proof.
  subst wav. unfold canonical_wav. rewrite !length_app.
  rewrite len_riff_size, len_tag, len_ch, len_rate, len_byte_rate,
    len_align, len_bits, len_dsize. reflexivity.
Qed.

Lemma is_wav_canonical : is_wav wav = true.
Proof.
  unfold is_wav. rewrite length_canonical_wav.
  destruct (Z.leb_spec 12 (Z.of_nat (44 + length payload))); [|lia].
  explicit_fields. reflexivity.
Qed.

Lemma scan_canonical :
  dsz <= Z.of_nat (length payload) ->
  scan wav = Some (Ok final).
Proof.
  intros Hfit.
  pose proof length_canonical_wav as Hlen.
  assert (Hv1 : visits wav
    (set_i (set_fmt (set_i scan_init 20)
              (int_from_bytes_little tag) (int_from_bytes_little ch)
              (int_from_bytes_little rate) (int_from_bytes_little bits))
           36)).
  { apply (visits_step wav scan_init); [constructor|cbn [i scan_init]; lia|].
    rewrite scan_chunk_fmt.
    - explicit_fields. reflexivity.
    - replace (chunk_size_at wav (i scan_init)) with 16
        by (explicit_fields; reflexivity).
      rewrite Hlen. cbn [i scan_init]. lia.
    - explicit_fields. reflexivity.
    - replace (chunk_size_at wav (i scan_init)) with 16
        by (explicit_fields; reflexivity).
      lia. }
  apply (visits_Break wav _ _ Hv1); [cbn [i set_i]; lia|].
  rewrite scan_chunk_data.
  - explicit_fields. reflexivity.
  - cbn [i set_i]. rewrite Hlen.
    replace (chunk_size_at wav 36) with dsz
      by (explicit_fields; reflexivity). lia.
  - explicit_fields. reflexivity.
Qed.

Lemma parse_wav_details_canonical :
  dsz <= Z.of_nat (length payload) ->
  parse_wav_details wav = Some (check_scan wav final).
Proof.
  intros Hfit. unfold parse_wav_details.
  rewrite is_wav_canonical, (scan_canonical Hfit). reflexivity.
Qed.

Lemma find_data_size_canonical :
  dsz <= Z.of_nat (length payload) ->
  find_data_size (length wav) wav 12 = Some (Some dsz).
Proof.
  intros Hfit. pose proof length_canonical_wav as Hlen.
  rewrite Hlen at 1.
  change (44 + length payload)%nat with (S (S (42 + length payload))).
  rewrite find_data_size_skip.
  - replace (chunk_size_at wav 12) with 16 by (explicit_fields; reflexivity).
    change (12 + 8 + (16 + 16 mod 2)) with 36.
    replace dsz with (chunk_size_at wav 36) in *
      by (explicit_fields; reflexivity).
    apply find_data_size_hit; [lia|]. explicit_fields. reflexivity.
  - replace (chunk_size_at wav 12) with 16 by (explicit_fields; reflexivity).
    lia.
  - explicit_fields. discriminate.
Qed.

Lemma slice_payload_canonical :
  slice wav 44 (44 + dsz) = firstn (Z.to_nat dsz) payload.
Proof.
  unfold slice. replace (44 + dsz - 44) with dsz by lia.
  explicit_fields. reflexivity.
Qed.
End Canonical.

(** *** The checks after the loop *)

Lemma check_scan_Ok wav st :
  fmt_found st = true -> data_found st = true ->
  audio_format st ∈ [1; 3; 65534] ->
  0 < sample_rate st <= 192000 ->
  1 <= channels st <= 2 ->
  bits_per_sample st = 16 ->
  0 <= data_offset st ->
  data_offset st + data_size st <= Z.of_nat (length wav) ->
  check_scan wav st =
  Ok (sample_rate st, channels st, bits_per_sample st, audio_format st,
      data_offset st).
Proof.
  intros Hf Hd Hfmt Hsr Hch Hbps Hoff Hfit. unfold check_scan.
  rewrite Hf, Hd. cbn [negb orb].
  rewrite (bool_decide_eq_true_2 _ Hfmt). cbn [negb].
  destruct (Z.leb_spec (sample_rate st) 0); [lia|].
  destruct (Z.ltb_spec 192000 (sample_rate st)); [lia|].
  destruct (Z.leb_spec (channels st) 0); [lia|].
  destruct (Z.ltb_spec 2 (channels st)); [lia|]. cbn [orb].
  rewrite bool_decide_eq_true_2
    by (rewrite Hbps; apply list_elem_of_singleton; reflexivity).
  cbn [negb].
  destruct (Z.ltb_spec (data_offset st) 0); [lia|].
  destruct (Z.ltb_spec (Z.of_nat (length wav))
              (data_offset st + data_size st)); [lia|].
  reflexivity.
Qed.

Lemma check_scan_inv wav st sr ch bps fmt off :
  check_scan wav st = Ok (sr, ch, bps, fmt, off) ->
  (sr = sample_rate st /\ ch = channels st /\ bps = bits_per_sample st
   /\ fmt = audio_format st /\ off = data_offset st)
  /\ fmt_found st = true /\ data_found st = true
  /\ (fmt = 1 \/ fmt = 3 \/ fmt = 65534)
  /\ 0 < sr <= 192000
  /\ (ch = 1 \/ ch = 2)
  /\ bps = 16
  /\ 0 <= off /\ off + data_size st <= Z.of_nat (length wav).
Proof.
  unfold check_scan.
  destruct (fmt_found st), (data_found st); cbn [negb orb]; try discriminate.
  destruct (bool_decide (audio_format st ∈ _)) eqn:Efmt;
    cbn [negb]; [|discriminate].
  apply bool_decide_eq_true in Efmt.
  destruct (Z.leb_spec (sample_rate st) 0); [discriminate|].
  destruct (Z.ltb_spec 192000 (sample_rate st)); [discriminate|].
  destruct (Z.leb_spec (channels st) 0); [discriminate|].
  destruct (Z.ltb_spec 2 (channels st)); [discriminate|]. cbn [orb].
  destruct (bool_decide (bits_per_sample st ∈ _)) eqn:Ebps;
    cbn [negb]; [|discriminate].
  apply bool_decide_eq_true in Ebps.
  destruct (Z.ltb_spec (data_offset st) 0); [discriminate|].
  destruct (Z.ltb_spec (Z.of_nat (length wav))
              (data_offset st + data_size st)); [discriminate|].
  cbn [orb]. intros [= <- <- <- <- <-].
  rewrite !elem_of_cons, elem_of_nil in Efmt.
  apply list_elem_of_singleton in Ebps.
  repeat split; try lia; try reflexivity; try assumption; tauto.
Qed.

Lemma check_scan_raises wav st e :
  check_scan wav st = Raise e -> exists msg, e = ValueError msg.
Proof.
  unfold check_scan.
  repeat match goal with
         | |- (if ?c then _ else _) = _ -> _ => destruct c
         end; intros [= <-]; eauto.
Qed.

Lemma check_scan_not_found wav st :
  fmt_found st && data_found st = false ->
  check_scan wav st = Raise (ValueError "WAV fmt/data chunk not found").
Proof.
  unfold check_scan. destruct (fmt_found st), (data_found st);
    (discriminate || reflexivity).
Qed.

Lemma parse_wav_details_inv wav sr ch bps fmt off :
  parse_wav_details wav = Some (Ok (sr, ch, bps, fmt, off)) ->
  is_wav wav = true /\
  exists st, scan wav = Some (Ok st)
             /\ check_scan wav st = Ok (sr, ch, bps, fmt, off).
Proof.
  unfold parse_wav_details.
  destruct (is_wav wav); cbn [negb]; [|discriminate].
  destruct (scan wav) as [[st|e]|]; try discriminate.
  intros [= H]. eauto.
Qed.

Lemma parse_wav_details_raises wav e :
  parse_wav_details wav = Some (Raise e) -> exists msg, e = ValueError msg.
Proof.
  unfold parse_wav_details.
  destruct (is_wav wav); cbn [negb]; [|intros [= <-]; eauto].
  destruct (scan wav) as [[st|e']|] eqn:Es; try discriminate.
  - intros [= H]. eapply check_scan_raises, H.
  - intros [= <-]. revert Es. unfold scan.
    generalize scan_init. induction (length wav) as [|n IH]; intros st;
      cbn [scan_chunks]; destruct (_ <=? _); try discriminate.
    destruct (scan_chunk wav st) as [st'| |e0] eqn:Ec; try discriminate;
      [apply IH|].
    intros [= <-]. revert Ec. unfold scan_chunk, scan_advance.
    repeat match goal with
           | |- (if ?c then _ else _) = _ -> _ => destruct c
           end; try discriminate. intros [= <-]. eauto.
Qed.

(** *** [pcm16_to_wav] *)

(** The header [pcm16_to_wav] writes for a payload of [n] bytes. *)
Lemma length_wav_header (n rate ch : Z) :
  length (RIFF ++ le_bytes 4 (36 + n) ++ WAVE
          ++ fmt_ ++ le_bytes 4 16 ++ le_bytes 2 1 ++ le_bytes 2 ch
          ++ le_bytes 4 rate ++ le_bytes 4 (rate * ch * 2)
          ++ le_bytes 2 (ch * 2) ++ le_bytes 2 16
          ++ data ++ le_bytes 4 n) = 44%nat.
Proof. reflexivity. Qed.

Lemma pcm16_to_wav_fits pcm rate ch :
  pcm <> [] -> fields_fit pcm rate ch ->
  pcm16_to_wav pcm rate ch =
  Ok ((RIFF ++ le_bytes 4 (36 + Z.of_nat (length pcm)) ++ WAVE
       ++ fmt_ ++ le_bytes 4 16 ++ le_bytes 2 1 ++ le_bytes 2 ch
       ++ le_bytes 4 rate ++ le_bytes 4 (rate * ch * 2)
       ++ le_bytes 2 (ch * 2) ++ le_bytes 2 16
       ++ data ++ le_bytes 4 (Z.of_nat (length pcm))) ++ pcm).
Proof.
  intros Hne (Hlen & Hch0 & Hch & Hrate & Hbr).
  unfold pcm16_to_wav. destruct pcm as [|b pcm]; [congruence|].
  set (n := Z.of_nat (length (b :: pcm))) in *.
  assert (0 <= n) by (subst n; lia).
  change (16 / 8) with 2.
  assert (0 <= rate * ch * 2) by nia.
  rewrite (struct_pack_I_Ok (36 + n)) by lia.
  rewrite (struct_pack_I_Ok 16) by lia.
  rewrite (struct_pack_H_Ok 1) by lia.
  rewrite (struct_pack_H_Ok ch) by lia.
  rewrite (struct_pack_I_Ok rate) by lia.
  rewrite (struct_pack_I_Ok (rate * ch * 2)) by lia.
  rewrite (struct_pack_H_Ok (ch * 2)) by lia.
  rewrite (struct_pack_H_Ok 16) by lia.
  rewrite (struct_pack_I_Ok n) by lia.
  reflexivity.
Qed.

Lemma struct_pack_I_cases v :
  struct_pack_I v = Ok (le_bytes 4 v) /\ 0 <= v < 2 ^ 32
  \/ struct_pack_I v = Raise StructError /\ ~ 0 <= v < 2 ^ 32.
Proof.
  unfold struct_pack_I.
  destruct (Z.leb_spec 0 v), (Z.ltb_spec v (2 ^ 32)); cbn [andb];
    ((left; split; [reflexivity|lia]) || (right; split; [reflexivity|lia])).
Qed.

Lemma struct_pack_H_cases v :
  struct_pack_H v = Ok (le_bytes 2 v) /\ 0 <= v < 2 ^ 16
  \/ struct_pack_H v = Raise StructError /\ ~ 0 <= v < 2 ^ 16.
Proof.
  unfold struct_pack_H.
  destruct (Z.leb_spec 0 v), (Z.ltb_spec v (2 ^ 16)); cbn [andb];
    ((left; split; [reflexivity|lia]) || (right; split; [reflexivity|lia])).
Qed.

Lemma pcm16_to_wav_overflow pcm rate ch :
  pcm <> [] -> ~ fields_fit pcm rate ch ->
  pcm16_to_wav pcm rate ch = Raise StructError.
Proof.
  intros Hne Hnot. unfold pcm16_to_wav, fields_fit in *.
  destruct pcm as [|b pcm]; [congruence|].
  set (n := Z.of_nat (length (b :: pcm))) in *.
  assert (0 <= n) by (subst n; lia).
  change (16 / 8) with 2.
  destruct (struct_pack_I_cases (36 + n)) as [[-> ?]|[-> ?]]; [|reflexivity].
  destruct (struct_pack_I_cases 16) as [[-> ?]|[-> ?]]; [|reflexivity].
  destruct (struct_pack_H_cases 1) as [[-> ?]|[-> ?]]; [|reflexivity].
  destruct (struct_pack_H_cases ch) as [[-> ?]|[-> ?]]; [|reflexivity].
  destruct (struct_pack_I_cases rate) as [[-> ?]|[-> ?]]; [|reflexivity].
  destruct (struct_pack_I_cases (rate * ch * 2)) as [[-> ?]|[-> ?]];
    [|reflexivity].
  destruct (struct_pack_H_cases (ch * 2)) as [[-> ?]|[-> ?]]; [|reflexivity].
  exfalso. apply Hnot. lia.
Qed.

(** C5, as amended.  [pcm16_to_wav] returns the empty byte sequence for an
    empty payload.  For a non-empty payload whose header fields all fit their
    widths it returns exactly the 44-byte header (["RIFF"], [36 + len] as
    little-endian u32, ["WAVE"], a 16-byte ["fmt "] chunk with format tag 1,
    the channel count, the sample rate, [rate * channels * 2],
    [channels * 2] and 16 bits per sample, then ["data"] and [len]) followed
    by the payload; when a field does not fit, it raises [struct.error]. *)
Theorem pcm16_to_wav_layout (pcm : list byte) (rate ch : Z) :
  (pcm = [] -> pcm16_to_wav pcm rate ch = Ok [])
  /\ (pcm <> [] -> fields_fit pcm rate ch ->
      exists header,
        pcm16_to_wav pcm rate ch = Ok (header ++ pcm)
        /\ length header = 44%nat
        /\ header =
           RIFF ++ le_bytes 4 (36 + Z.of_nat (length pcm)) ++ WAVE
           ++ fmt_ ++ le_bytes 4 16 ++ le_bytes 2 1 ++ le_bytes 2 ch
           ++ le_bytes 4 rate ++ le_bytes 4 (rate * ch * 2)
           ++ le_bytes 2 (ch * 2) ++ le_bytes 2 16
           ++ data ++ le_bytes 4 (Z.of_nat (length pcm)))
  /\ (pcm <> [] -> ~ fields_fit pcm rate ch ->
      pcm16_to_wav pcm rate ch = Raise StructError).
Proof.
  split; [|split].
  - intros ->. reflexivity.
  - intros Hne Hfit. eexists. split; [|split; [|reflexivity]].
    + apply pcm16_to_wav_fits; assumption.
    + apply length_wav_header.
  - apply pcm16_to_wav_overflow.
Qed.

Lemma fields_fit_sample : fields_fit sample_pcm 24000 1.
Proof. unfold fields_fit. cbn. lia. Qed.

Lemma pcm16_to_wav_layout_witness :
  pcm16_to_wav [] 24000 1 = Ok []
  /\ (exists header,
        pcm16_to_wav sample_pcm 24000 1 = Ok (header ++ sample_pcm)
        /\ length header = 44%nat
        /\ header =
           RIFF ++ le_bytes 4 40 ++ WAVE
           ++ fmt_ ++ le_bytes 4 16 ++ le_bytes 2 1 ++ le_bytes 2 1
           ++ le_bytes 4 24000 ++ le_bytes 4 48000
           ++ le_bytes 2 2 ++ le_bytes 2 16
           ++ data ++ le_bytes 4 4)
  /\ pcm16_to_wav sample_pcm 24000 40000 = Raise StructError.
Proof.
  split; [|split].
  - apply (proj1 (pcm16_to_wav_layout [] 24000 1)). reflexivity.
  - apply (proj1 (proj2 (pcm16_to_wav_layout sample_pcm 24000 1))).
    + discriminate.
    + exact fields_fit_sample.
  - apply (proj2 (proj2 (pcm16_to_wav_layout sample_pcm 24000 40000))).
    + discriminate.
    + unfold fields_fit. lia.
Defined.

(** C5 as stated fails: a sample rate that does not fit 32 bits makes
    [struct.pack] raise, and no header is returned. *)
Lemma pcm16_to_wav_layout_counterexample :
  pcm16_to_wav [x00; x00] 4294967296 1 = Raise StructError
  /\ ~ (exists header,
          pcm16_to_wav [x00; x00] 4294967296 1 = Ok (header ++ [x00; x00])).
Proof.
  split; [reflexivity|]. intros [header H]. discriminate H.
Qed.

(** The fields of the written header read back as the values. *)
Lemma pcm16_to_wav_fields pcm rate ch out :
  pcm <> [] -> pcm16_to_wav pcm rate ch = Ok out ->
  _read_u32_le out 4 = 36 + Z.of_nat (length pcm)
  /\ _read_u32_le out 16 = 16
  /\ _read_u16_le out 20 = 1
  /\ _read_u16_le out 22 = ch
  /\ _read_u32_le out 24 = rate
  /\ _read_u32_le out 28 = rate * ch * 2
  /\ _read_u16_le out 32 = ch * 2
  /\ _read_u16_le out 34 = 16
  /\ _read_u32_le out 40 = Z.of_nat (length pcm).
Proof.
  intros Hne Hout.
  destruct (decide (fields_fit pcm rate ch)) as [Hfit|Hnot].
  2:{ rewrite pcm16_to_wav_overflow in Hout by assumption. discriminate. }
  rewrite pcm16_to_wav_fits in Hout by assumption.
  injection Hout as <-. destruct Hfit as (Hlen & Hch0 & Hch & Hrate & Hbr).
  assert (0 <= rate * ch * 2) by nia.
  repeat split;
    match goal with
    | |- _read_u32_le _ _ = ?v =>
      transitivity (int_from_bytes_little (le_bytes 4 v));
        [reflexivity|apply int_from_le_bytes_4; lia]
    | |- _read_u16_le _ _ = ?v =>
      transitivity (int_from_bytes_little (le_bytes 2 v));
        [reflexivity|apply int_from_le_bytes_2; lia]
    end.
Qed.

(** *** Round trip *)

Lemma extract_pcm16_to_wav (b : list byte) (rate : Z) :
  b <> [] -> 36 + Z.of_nat (length b) < 2 ^ 32 -> 0 < rate <= 192000 ->
  exists w, pcm16_to_wav b rate 1 = Ok w
            /\ extract_wav_pcm16 w = Some (Ok (b, rate, 1)).
Proof.
  intros Hne Hlen Hrate.
  set (n := Z.of_nat (length b)).
  exists (canonical_wav (le_bytes 4 (36 + n)) (le_bytes 2 1) (le_bytes 2 1)
            (le_bytes 4 rate) (le_bytes 4 (rate * 1 * 2)) (le_bytes 2 (1 * 2))
            (le_bytes 2 16) (le_bytes 4 n) b).
  split.
  { rewrite pcm16_to_wav_fits; [|assumption|unfold fields_fit; lia].
    reflexivity. }
  assert (Hn : int_from_bytes_little (le_bytes 4 n) = n)
    by (apply int_from_le_bytes_4; subst n; lia).
  assert (Hfit : int_from_bytes_little (le_bytes 4 n) <= Z.of_nat (length b))
    by (rewrite Hn; subst n; lia).
  unfold extract_wav_pcm16.
  rewrite parse_wav_details_canonical
    by (assumption || apply length_le_bytes).
  rewrite check_scan_Ok; unfold canonical_final; cbn [fmt_found data_found
    audio_format sample_rate channels bits_per_sample data_offset data_size].
  - rewrite (int_from_le_bytes_4 rate) by lia.
    change (int_from_bytes_little (le_bytes 2 1)) with 1.
    change (int_from_bytes_little (le_bytes 2 16)) with 16.
    change (negb (bool_decide (1 ∈ [1; 65534]))) with false.
    change (negb (16 =? 16)) with false. cbn match.
    rewrite find_data_size_canonical
      by (assumption || apply length_le_bytes).
    rewrite slice_payload_canonical by apply length_le_bytes.
    rewrite Hn. subst n. rewrite Nat2Z.id, firstn_all.
    destruct b; [congruence|reflexivity].
  - reflexivity.
  - reflexivity.
  - change (int_from_bytes_little (le_bytes 2 1)) with 1.
    apply elem_of_cons. left. reflexivity.
  - rewrite (int_from_le_bytes_4 rate) by lia. lia.
  - change (int_from_bytes_little (le_bytes 2 1)) with 1. lia.
  - reflexivity.
  - lia.
  - rewrite length_canonical_wav by apply length_le_bytes. lia.
Qed.

(** C1, as amended.  For a non-empty PCM16 buffer [b] of even length, short
    enough for the RIFF size to fit 32 bits, and a rate in [8000, 192000],
    [extract_wav_pcm16] of [pcm16_to_wav b rate 1] succeeds and returns [b],
    [rate] and one channel. *)
Theorem wav_roundtrip (b : list byte) (rate : Z) :
  b <> [] ->
  Nat.Even (length b) ->
  36 + Z.of_nat (length b) < 2 ^ 32 ->
  8000 <= rate <= 192000 ->
  exists w, pcm16_to_wav b rate 1 = Ok w
            /\ extract_wav_pcm16 w = Some (Ok (b, rate, 1)).
Proof.
  intros Hne _ Hlen Hrate. apply extract_pcm16_to_wav; (assumption || lia).
Qed.

Lemma wav_roundtrip_witness :
  exists w, pcm16_to_wav sample_pcm 24000 1 = Ok w
            /\ extract_wav_pcm16 w = Some (Ok (sample_pcm, 24000, 1)).
Proof.
  apply (wav_roundtrip sample_pcm 24000).
  - discriminate.
  - exists 2%nat. reflexivity.
  - cbn. lia.
  - lia.
Defined.

(** C1 as stated fails at the empty buffer, which has even length:
    [pcm16_to_wav] returns no header at all, and the empty sequence is not a
    WAV file. *)
Lemma wav_roundtrip_counterexample :
  Nat.Even (length (@nil byte))
  /\ 8000 <= 24000 <= 192000
  /\ pcm16_to_wav [] 24000 1 = Ok []
  /\ extract_wav_pcm16 [] = Some (Raise (ValueError "Not a WAV file"))
  /\ ~ (exists w, pcm16_to_wav [] 24000 1 = Ok w
                  /\ extract_wav_pcm16 w = Some (Ok ([], 24000, 1))).
Proof.
  split; [exists 0%nat; reflexivity|]. split; [lia|].
  split; [reflexivity|]. split; [reflexivity|].
  intros (w & Hw & He). injection Hw as <-. discriminate He.
Qed.

(** *** What a successful parse guarantees *)

Lemma extract_wav_pcm16_inv wav pcm sr ch :
  extract_wav_pcm16 wav = Some (Ok (pcm, sr, ch)) ->
  pcm <> [] /\
  exists bps fmt off,
    parse_wav_details wav = Some (Ok (sr, ch, bps, fmt, off))
    /\ (fmt = 1 \/ fmt = 65534).
Proof.
  unfold extract_wav_pcm16.
  destruct (parse_wav_details wav)
    as [[[[[[sr' ch'] bps] fmt] off]|e]|]; try discriminate.
  destruct (bool_decide (fmt ∈ [1; 65534])) eqn:Efmt; cbn [negb];
    [|discriminate].
  apply bool_decide_eq_true in Efmt.
  rewrite !elem_of_cons, elem_of_nil in Efmt.
  destruct (bps =? 16); cbn [negb]; [|discriminate].
  destruct (find_data_size _ _ _) as [[sz|]|]; try discriminate.
  destruct (slice wav off (off + sz)) as [|x l] eqn:Es; [discriminate|].
  intros [= <- <- <-]. split; [discriminate|].
  exists bps, fmt, off. split; [reflexivity|tauto].
Qed.

(** C7, as amended.  Every result of [parse_wav_details] has
    [bits_per_sample = 16], one or two channels and a sample rate in
    (0, 192000]; so has every result of [extract_wav_pcm16], whose payload is
    moreover non-empty.  A scan that ends with a sample rate of 0 or above
    192000 is rejected with [ValueError]. *)
Theorem parsed_audio_invariant (wav : list byte) :
  (forall sr ch bps fmt off,
     parse_wav_details wav = Some (Ok (sr, ch, bps, fmt, off)) ->
     bps = 16 /\ (ch = 1 \/ ch = 2) /\ 0 < sr <= 192000)
  /\ (forall pcm sr ch,
        extract_wav_pcm16 wav = Some (Ok (pcm, sr, ch)) ->
        (ch = 1 \/ ch = 2) /\ 0 < sr <= 192000 /\ pcm <> [])
  /\ (forall st,
        is_wav wav = true -> scan wav = Some (Ok st) ->
        fmt_found st = true -> data_found st = true ->
        audio_format st ∈ [1; 3; 65534] ->
        sample_rate st <= 0 \/ 192000 < sample_rate st ->
        parse_wav_details wav =
        Some (Raise (ValueError ("Unreasonable WAV sample rate: "
                                 +:+ pretty (sample_rate st))))).
Proof.
  split; [|split].
  - intros sr ch bps fmt off H.
    apply parse_wav_details_inv in H as (_ & st & _ & H).
    apply check_scan_inv in H. tauto.
  - intros pcm sr ch H.
    apply extract_wav_pcm16_inv in H as (Hne & bps & fmt & off & H & _).
    apply parse_wav_details_inv in H as (_ & st & _ & H).
    apply check_scan_inv in H. tauto.
  - intros st Hw Hs Hf Hd Hfmt Hsr. unfold parse_wav_details.
    rewrite Hw, Hs. cbn [negb]. unfold check_scan.
    rewrite Hf, Hd. cbn [negb orb].
    rewrite (bool_decide_eq_true_2 _ Hfmt). cbn [negb].
    destruct (Z.leb_spec (sample_rate st) 0); [reflexivity|].
    destruct (Z.ltb_spec 192000 (sample_rate st)); [reflexivity|lia].
Qed.

Lemma parsed_audio_invariant_witness :
  (16 = 16 /\ (1 = 1 \/ 1 = 2) /\ 0 < 4000 <= 192000)
  /\ ((1 = 1 \/ 1 = 2) /\ 0 < 4000 <= 192000 /\ sample_pcm <> [])
  /\ parse_wav_details wav_200khz =
     Some (Raise (ValueError ("Unreasonable WAV sample rate: "
                              +:+ pretty 200000))).
Proof.
  split; [|split].
  - apply (proj1 (parsed_audio_invariant wav_4000hz) 4000 1 16 1 44).
    vm_compute. reflexivity.
  - apply (proj1 (proj2 (parsed_audio_invariant wav_4000hz))
             sample_pcm 4000 1).
    vm_compute. reflexivity.
  - apply (proj2 (proj2 (parsed_audio_invariant wav_200khz))
             (canonical_final (le_bytes 2 1) (le_bytes 2 1)
                (le_bytes 4 200000) (le_bytes 2 16) (le_bytes 4 4))).
    + reflexivity.
    + vm_compute. reflexivity.
    + reflexivity.
    + reflexivity.
    + apply elem_of_cons. left. reflexivity.
    + right. vm_compute. reflexivity.
Defined.

(** C7 as stated fails: a file that declares 4000 Hz is parsed, so a parsed
    sample rate can lie below 8000. *)
Lemma parsed_audio_invariant_counterexample :
  parse_wav_details wav_4000hz = Some (Ok (4000, 1, 16, 1, 44))
  /\ extract_wav_pcm16 wav_4000hz = Some (Ok (sample_pcm, 4000, 1))
  /\ ~ (8000 <= 4000 <= 192000).
Proof.
  split; [vm_compute; reflexivity|]. split; [vm_compute; reflexivity|]. lia.
Qed.

(** *** Rejections and skipped chunks *)

Lemma is_wav_false wav :
  slice wav 0 4 <> RIFF \/ slice wav 8 12 <> WAVE -> is_wav wav = false.
Proof.
  unfold is_wav. intros [H|H]; apply bytes_eqb_neq in H; rewrite H.
  - apply andb_false_intro1, andb_false_intro2. reflexivity.
  - apply andb_false_intro2. reflexivity.
Qed.

Lemma parse_fails_of_scan wav :
  (exists msg, scan wav = Some (Raise (ValueError msg)))
  \/ (exists st e, scan wav = Some (Ok st) /\ check_scan wav st = Raise e) ->
  exists msg, parse_wav_details wav = Some (Raise (ValueError msg)).
Proof.
  intros H. unfold parse_wav_details.
  destruct (is_wav wav); cbn [negb]; [|eauto].
  destruct H as [[msg ->]|(st & e & -> & Hc)]; [eauto|].
  rewrite Hc. apply check_scan_raises in Hc as [msg ->]. eauto.
Qed.

Lemma Zodd_pad (size : Z) : size mod 2 = if Z.odd size then 1 else 0.
Proof. apply Zmod_odd. Qed.

(** C6.  [parse_wav_details] fails with [ValueError] for a buffer that does
    not carry ["RIFF"] at offset 0 and ["WAVE"] at offset 8, for a visited
    ["fmt "] chunk that declares fewer than 16 bytes, for a visited ["data"]
    chunk whose declared size reaches past the end of the buffer, and when
    the scan ends with bits-per-sample other than 16 or a channel count other
    than 1 and 2 (both read from the ["fmt "] chunk; a ["data"] chunk that
    fits records its payload offset and size).  A visited chunk with
    another id that fits in the buffer is skipped without failure, the offset
    advancing by 8, the declared size and one pad byte when the size is odd;
    and the scan ends with the pass after which both a ["fmt "] and a
    ["data"] chunk have been seen. *)
Theorem parse_rejects_and_skips (wav : list byte) :
  let len := Z.of_nat (length wav) in
  (slice wav 0 4 <> RIFF \/ slice wav 8 12 <> WAVE ->
   parse_wav_details wav = Some (Raise (ValueError "Not a WAV file")))
  /\ (forall st,
        visits wav st -> i st + 8 <= len ->
        chunk_id_at wav (i st) = fmt_ -> chunk_size_at wav (i st) < 16 ->
        exists msg, parse_wav_details wav = Some (Raise (ValueError msg)))
  /\ (forall st,
        visits wav st -> i st + 8 <= len ->
        chunk_id_at wav (i st) = data ->
        len < i st + 8 + chunk_size_at wav (i st) ->
        exists msg, parse_wav_details wav = Some (Raise (ValueError msg)))
  /\ (forall st,
        scan wav = Some (Ok st) -> bits_per_sample st <> 16 ->
        exists msg, parse_wav_details wav = Some (Raise (ValueError msg)))
  /\ (forall st,
        scan wav = Some (Ok st) -> channels st <> 1 -> channels st <> 2 ->
        exists msg, parse_wav_details wav = Some (Raise (ValueError msg)))
  /\ (forall st,
        i st + 8 + chunk_size_at wav (i st) <= len ->
        chunk_id_at wav (i st) = fmt_ -> 16 <= chunk_size_at wav (i st) ->
        exists st',
          (scan_chunk wav st = Continue st' \/ scan_chunk wav st = Break st')
          /\ fmt_found st' = true /\ data_found st' = data_found st
          /\ channels st' = _read_u16_le wav (i st + 8 + 2)
          /\ bits_per_sample st' = _read_u16_le wav (i st + 8 + 14))
  /\ (forall st,
        i st + 8 + chunk_size_at wav (i st) <= len ->
        chunk_id_at wav (i st) = data ->
        exists st',
          (scan_chunk wav st = Continue st' \/ scan_chunk wav st = Break st')
          /\ data_found st' = true /\ fmt_found st' = fmt_found st
          /\ data_offset st' = i st + 8
          /\ data_size st' = chunk_size_at wav (i st))
  /\ (forall st,
        visits wav st ->
        i st + 8 + chunk_size_at wav (i st) <= len ->
        chunk_id_at wav (i st) <> fmt_ -> chunk_id_at wav (i st) <> data ->
        scan_chunk wav st =
        Continue (set_i st (i st + 8 + chunk_size_at wav (i st)
                            + (if Z.odd (chunk_size_at wav (i st))
                               then 1 else 0))))
  /\ (forall st st',
        visits wav st -> i st + 8 <= len ->
        scan_chunk wav st = Continue st' \/ scan_chunk wav st = Break st' ->
        fmt_found st' = true -> data_found st' = true ->
        scan_chunk wav st = Break st' /\ scan wav = Some (Ok st')).
Proof.
  intros len. repeat apply conj.
  - intros H. unfold parse_wav_details.
    rewrite (is_wav_false _ H). reflexivity.
  - intros st Hv Hg Hid Hsz. apply parse_fails_of_scan.
    destruct (Z.lt_ge_cases len (i st + 8 + chunk_size_at wav (i st)))
      as [Hcut|Hfit].
    + right. exists (set_i st (i st + 8)). eexists. split.
      * apply (visits_Break _ _ _ Hv Hg). apply scan_chunk_truncated, Hcut.
      * apply check_scan_not_found. apply (visits_not_both _ _ Hv).
    + left. eexists. apply (visits_Throw _ _ _ Hv Hg).
      apply scan_chunk_fmt_short; assumption.
  - intros st Hv Hg Hid Hcut. apply parse_fails_of_scan.
    right. exists (set_i st (i st + 8)). eexists. split.
    + apply (visits_Break _ _ _ Hv Hg). apply scan_chunk_truncated, Hcut.
    + apply check_scan_not_found. apply (visits_not_both _ _ Hv).
  - intros st Hs Hbps. apply parse_fails_of_scan. right. exists st.
    destruct (check_scan wav st) as [[[[[sr ch] bps] fmt] off]|e] eqn:Hc;
      [|eauto].
    apply check_scan_inv in Hc. exfalso. apply Hbps.
    destruct Hc as ((_ & _ & <- & _) & _ & _ & _ & _ & _ & -> & _).
    reflexivity.
  - intros st Hs Hch1 Hch2. apply parse_fails_of_scan. right. exists st.
    destruct (check_scan wav st) as [[[[[sr ch] bps] fmt] off]|e] eqn:Hc;
      [|eauto].
    apply check_scan_inv in Hc. exfalso.
    destruct Hc as ((_ & -> & _) & _ & _ & _ & _ & [Hc|Hc] & _); tauto.
  - intros st Hfit Hid Hsz. rewrite scan_chunk_fmt by assumption.
    unfold scan_advance.
    match goal with
    | |- context [if ?c then _ else _] => destruct c
    end; eexists; (split; [eauto|]); repeat split.
  - intros st Hfit Hid. rewrite scan_chunk_data by assumption.
    unfold scan_advance.
    match goal with
    | |- context [if ?c then _ else _] => destruct c
    end; eexists; (split; [eauto|]); repeat split.
  - intros st Hv Hfit Hf Hd. rewrite scan_chunk_other by assumption.
    unfold scan_advance. cbn [fmt_found data_found set_i i].
    rewrite (visits_not_both _ _ Hv), Zodd_pad. f_equal. f_equal. lia.
  - intros st st' Hv Hg Hs Hf Hd.
    destruct Hs as [Hs|Hs].
    + pose proof (visits_not_both _ _ (visits_step _ _ _ Hv Hg Hs)) as Hnb.
      rewrite Hf, Hd in Hnb. discriminate.
    + split; [assumption|]. apply (visits_Break _ _ _ Hv Hg Hs).
Qed.

Lemma visits_after_fmt_4000hz :
  visits wav_4000hz
    (set_i (set_fmt (set_i scan_init 20) 1 1 4000 16) 36).
Proof.
  apply (visits_step wav_4000hz scan_init);
    [constructor|vm_compute; discriminate|reflexivity].
Qed.

Lemma parse_rejects_and_skips_witness :
  parse_wav_details [] = Some (Raise (ValueError "Not a WAV file"))
  /\ (exists msg,
        parse_wav_details wav_short_fmt = Some (Raise (ValueError msg)))
  /\ (exists msg,
        parse_wav_details wav_data_past_end = Some (Raise (ValueError msg)))
  /\ (exists msg, parse_wav_details wav_8bit = Some (Raise (ValueError msg)))
  /\ (exists msg, parse_wav_details wav_3ch = Some (Raise (ValueError msg)))
  /\ (exists st',
        (scan_chunk wav_4000hz scan_init = Continue st'
         \/ scan_chunk wav_4000hz scan_init = Break st')
        /\ fmt_found st' = true /\ data_found st' = false
        /\ channels st' = _read_u16_le wav_4000hz (12 + 8 + 2)
        /\ bits_per_sample st' = _read_u16_le wav_4000hz (12 + 8 + 14))
  /\ (exists st',
        (scan_chunk wav_4000hz (set_i scan_init 36) = Continue st'
         \/ scan_chunk wav_4000hz (set_i scan_init 36) = Break st')
        /\ data_found st' = true /\ fmt_found st' = false
        /\ data_offset st' = 36 + 8
        /\ data_size st' = chunk_size_at wav_4000hz 36)
  /\ scan_chunk wav_with_list scan_init =
     Continue (set_i scan_init (12 + 8 + chunk_size_at wav_with_list 12
                                + (if Z.odd (chunk_size_at wav_with_list 12)
                                   then 1 else 0)))
  /\ (scan_chunk wav_4000hz
        (set_i (set_fmt (set_i scan_init 20) 1 1 4000 16) 36) =
      Break (canonical_final (le_bytes 2 1) (le_bytes 2 1) (le_bytes 4 4000)
               (le_bytes 2 16) (le_bytes 4 4))
      /\ scan wav_4000hz =
         Some (Ok (canonical_final (le_bytes 2 1) (le_bytes 2 1)
                     (le_bytes 4 4000) (le_bytes 2 16) (le_bytes 4 4)))).
Proof.
  repeat apply conj.
  - apply (proj1 (parse_rejects_and_skips [])).
    left. discriminate.
  - destruct (parse_rejects_and_skips wav_short_fmt)
      as (_ & H & _).
    apply (H scan_init); [constructor|vm_compute; discriminate|reflexivity|].
    vm_compute. reflexivity.
  - destruct (parse_rejects_and_skips wav_data_past_end)
      as (_ & _ & H & _).
    apply (H scan_init); [constructor|vm_compute; discriminate|reflexivity|].
    vm_compute. reflexivity.
  - destruct (parse_rejects_and_skips wav_8bit)
      as (_ & _ & _ & H & _).
    apply (H (canonical_final (le_bytes 2 1) (le_bytes 2 1)
                (le_bytes 4 24000) (le_bytes 2 8) (le_bytes 4 4)));
      [vm_compute; reflexivity|vm_compute; discriminate].
  - destruct (parse_rejects_and_skips wav_3ch)
      as (_ & _ & _ & _ & H & _).
    apply (H (canonical_final (le_bytes 2 1) (le_bytes 2 3)
                (le_bytes 4 24000) (le_bytes 2 16) (le_bytes 4 4)));
      [vm_compute; reflexivity|vm_compute; discriminate
      |vm_compute; discriminate].
  - destruct (parse_rejects_and_skips wav_4000hz)
      as (_ & _ & _ & _ & _ & H & _).
    apply (H scan_init);
      [vm_compute; discriminate|reflexivity|vm_compute; discriminate].
  - destruct (parse_rejects_and_skips wav_4000hz)
      as (_ & _ & _ & _ & _ & _ & H & _).
    apply (H (set_i scan_init 36)); [vm_compute; discriminate|reflexivity].
  - destruct (parse_rejects_and_skips wav_with_list)
      as (_ & _ & _ & _ & _ & _ & _ & H & _).
    apply (H scan_init);
      [constructor|vm_compute; discriminate|discriminate|discriminate].
  - destruct (parse_rejects_and_skips wav_4000hz)
      as (_ & _ & _ & _ & _ & _ & _ & _ & H).
    apply H; [exact visits_after_fmt_4000hz|vm_compute; discriminate
             |right; reflexivity|reflexivity|reflexivity].
  - destruct (parse_rejects_and_skips wav_4000hz)
      as (_ & _ & _ & _ & _ & _ & _ & _ & H).
    apply (H (set_i (set_fmt (set_i scan_init 20) 1 1 4000 16) 36));
      [exact visits_after_fmt_4000hz|vm_compute; discriminate
      |right; reflexivity|reflexivity|reflexivity].
Defined.

Example parse_wav_with_list :
  extract_wav_pcm16 wav_with_list = Some (Ok (sample_pcm, 24000, 1)).
Proof. vm_compute. reflexivity. Qed.

End WavFacts.

(** ** Python strings *)

Module PyFacts.
Import Py.

Lemma nonempty_true s : nonempty s = true <-> s <> "".
Proof.
  unfold nonempty. rewrite negb_true_iff. apply String.eqb_neq.
Qed.

Lemma nonempty_false s : nonempty s = false <-> s = "".
Proof.
  unfold nonempty. rewrite negb_false_iff. apply String.eqb_eq.
Qed.

Lemma startswith_nil p : p <> "" -> startswith "" p = false.
Proof. destruct p; [congruence|reflexivity]. Qed.

Lemma rstrip_by_nil_iff p s :
  rstrip_by p s = "" <-> lstrip_by p s = "".
Proof.
  induction s as [|c s IH]; cbn; [tauto|].
  destruct (rstrip_by p s) eqn:Er, (p c) eqn:Ep; split; intros H;
    try discriminate; try reflexivity.
  - apply IH. reflexivity.
  - apply IH in H. discriminate.
Qed.

(** Stripping on the right keeps a prefix that does not end in a stripped
    character. *)
Lemma rstrip_by_prefix p (a : ascii) (s : string) :
  p a = false -> rstrip_by p (String a s) = String a (rstrip_by p s).
Proof.
  intros Ha. cbn. destruct (rstrip_by p s); [rewrite Ha|]; reflexivity.
Qed.

Lemma append_assoc (a b c : string) : (a +:+ b) +:+ c = a +:+ (b +:+ c).
Proof.
  induction a as [|x a IH]; [reflexivity|].
  exact (f_equal (String x) IH).
Qed.

Lemma append_nil_r (a : string) : a +:+ "" = a.
Proof.
  induction a as [|x a IH]; [reflexivity|].
  exact (f_equal (String x) IH).
Qed.

Lemma take_str_all n s : (String.length s <= n)%nat -> take_str n s = s.
Proof.
  unfold take_str. revert n.
  induction s as [|c s IH]; intros [|n] Hn; cbn in *;
    try reflexivity; try lia.
  rewrite IH by lia. reflexivity.
Qed.

Lemma startswith_cons s (a : ascii) p :
  startswith s (String a p) = true <->
  exists s', s = String a s' /\ startswith s' p = true.
Proof.
  unfold startswith. destruct s as [|b s]; cbn [String.prefix].
  - split; [discriminate|]. intros (s' & Hs & _). discriminate.
  - destruct (ascii_dec a b) as [<-|Hne].
    + split; [eauto|]. intros (s' & [= <-] & Hp). exact Hp.
    + split; [discriminate|]. intros (s' & [= <- <-] & _). congruence.
Qed.

(** A candidate that begins with two slashes still does after stripping. *)
Lemma startswith_strip_slashes s :
  startswith s "//" = true -> startswith (strip s) "//" = true.
Proof.
  intros (s1 & -> & (s2 & -> & _)%startswith_cons)%startswith_cons.
  unfold strip.
  change (lstrip_by isspace (String "/" (String "/" s2)))
    with (String "/" (String "/" s2)).
  rewrite !rstrip_by_prefix by reflexivity.
  apply startswith_cons. eexists. split; [reflexivity|].
  apply startswith_cons. eexists. split; [reflexivity|].
  unfold startswith. destruct (rstrip_by isspace s2); reflexivity.
Qed.

(** *** [strip] and [lower] *)

Lemma lstrip_by_head p s :
  lstrip_by p s = ""
  \/ exists c r, lstrip_by p s = String c r /\ p c = false.
Proof.
  induction s as [|c s IH]; [left; reflexivity|]. cbn [lstrip_by].
  destruct (p c) eqn:E; [exact IH|]. right. eauto.
Qed.

Lemma rstrip_by_idem p s : rstrip_by p (rstrip_by p s) = rstrip_by p s.
Proof.
  induction s as [|c s IH]; [reflexivity|]. cbn [rstrip_by].
  destruct (rstrip_by p s) as [|d r] eqn:Er.
  - destruct (p c) eqn:E; [reflexivity|]. cbn [rstrip_by]. rewrite E.
    reflexivity.
  - cbn [rstrip_by] in *. rewrite IH. reflexivity.
Qed.

Lemma strip_idem s : strip (strip s) = strip s.
Proof.
  unfold strip.
  destruct (lstrip_by_head isspace s) as [->|(c & r & -> & Hc)];
    [reflexivity|].
  rewrite rstrip_by_prefix by assumption.
  cbn [lstrip_by]. rewrite Hc.
  rewrite <- (rstrip_by_prefix isspace c r Hc). apply rstrip_by_idem.
Qed.

Lemma strip_nil : strip "" = "".
Proof. reflexivity. Qed.

Lemma isspace_lower_char c : isspace (lower_char c) = isspace c.
Proof. destruct c as [[] [] [] [] [] [] [] []]; reflexivity. Qed.

Lemma lower_char_idem c : lower_char (lower_char c) = lower_char c.
Proof. destruct c as [[] [] [] [] [] [] [] []]; reflexivity. Qed.

Lemma lower_idem s : lower (lower s) = lower s.
Proof.
  induction s as [|c s IH]; [reflexivity|]. cbn [lower].
  rewrite lower_char_idem, IH. reflexivity.
Qed.

Lemma lstrip_lower s :
  lstrip_by isspace (lower s) = lower (lstrip_by isspace s).
Proof.
  induction s as [|c s IH]; [reflexivity|]. cbn [lower lstrip_by].
  rewrite isspace_lower_char. destruct (isspace c); [exact IH|reflexivity].
Qed.

Lemma rstrip_lower s :
  rstrip_by isspace (lower s) = lower (rstrip_by isspace s).
Proof.
  induction s as [|c s IH]; [reflexivity|]. cbn [lower rstrip_by].
  rewrite IH, isspace_lower_char.
  destruct (rstrip_by isspace s); cbn [lower]; [|reflexivity].
  destruct (isspace c); reflexivity.
Qed.

Lemma strip_lower s : strip (lower s) = lower (strip s).
Proof. unfold strip. rewrite lstrip_lower, rstrip_lower. reflexivity. Qed.

(** A string that was stripped and lowered is left as it is by both. *)
Lemma normal_email_fixed s :
  lower (strip (lower (strip s))) = lower (strip s).
Proof. rewrite strip_lower, strip_idem, lower_idem. reflexivity. Qed.

End PyFacts.

(** ** The redirect validator *)

Module RedirectFacts.
Import Py PyFacts Redirect.

Section Validator.
Context `{Environment}.

(** C9.  With [nxt] the stripped candidate and [fe] the trusted front-end
    origin (stripped, without trailing slashes): the validator returns the
    empty string when [nxt] begins with ["//"] (in particular when the
    candidate itself does); it returns [nxt] when [nxt] otherwise begins
    with ["/"], or when a front-end origin is configured and is a prefix of
    [nxt]; and it returns the empty string for every other candidate. *)
Theorem safe_next_url_spec (next_url : string) :
  let nxt := strip next_url in
  let fe := rstrip_slash (strip FRONTEND_URL) in
  (startswith nxt "//" = true -> _safe_next_url next_url = "")
  /\ (startswith next_url "//" = true -> _safe_next_url next_url = "")
  /\ (startswith nxt "//" = false ->
      startswith nxt "/" = true
      \/ (fe <> "" /\ startswith nxt fe = true) ->
      _safe_next_url next_url = nxt)
  /\ (startswith nxt "/" = false ->
      fe = "" \/ startswith nxt fe = false ->
      _safe_next_url next_url = "").
Proof.
  intros nxt fe. unfold _safe_next_url. fold nxt fe.
  assert (Hraw : startswith next_url "//" = true ->
                 startswith nxt "//" = true).
  { apply startswith_strip_slashes. }
  repeat apply conj.
  - intros H2. destruct (nonempty nxt); cbn [negb]; [|reflexivity].
    rewrite H2. reflexivity.
  - intros H2%Hraw. destruct (nonempty nxt); cbn [negb]; [|reflexivity].
    rewrite H2. reflexivity.
  - intros H2 Hok. destruct (nonempty nxt) eqn:En; cbn [negb].
    + rewrite H2. destruct (startswith nxt "/") eqn:H1; [reflexivity|].
      destruct Hok as [Hok|[Hfe Hok]]; [discriminate|].
      apply nonempty_true in Hfe. rewrite Hfe, Hok. reflexivity.
    + apply nonempty_false in En. symmetry. exact En.
  - intros H1 Hno. destruct (nonempty nxt) eqn:En; cbn [negb];
      [|reflexivity].
    destruct (startswith nxt "//") eqn:H2; [reflexivity|].
    rewrite H1. destruct Hno as [Hfe|Hno].
    + apply nonempty_false in Hfe. rewrite Hfe. reflexivity.
    + rewrite Hno, andb_false_r. reflexivity.
Qed.
End Validator.

Lemma safe_next_url_spec_witness :
  @_safe_next_url Samples.configured " //evil.example/x" = ""
  /\ @_safe_next_url Samples.configured "//evil.example/x" = ""
  /\ @_safe_next_url Samples.configured " /kiosk.html " = "/kiosk.html"
  /\ @_safe_next_url Samples.configured "https://app.example/done"
     = "https://app.example/done"
  /\ @_safe_next_url Samples.configured "https://evil.example/" = "".
Proof.
  repeat apply conj.
  - apply (proj1 (@safe_next_url_spec Samples.configured " //evil.example/x")).
    reflexivity.
  - destruct (@safe_next_url_spec Samples.configured "//evil.example/x")
      as (_ & H & _).
    apply H. reflexivity.
  - destruct (@safe_next_url_spec Samples.configured " /kiosk.html ")
      as (_ & _ & H & _).
    apply H; [reflexivity|left; reflexivity].
  - destruct (@safe_next_url_spec Samples.configured
                "https://app.example/done") as (_ & _ & H & _).
    apply H; [reflexivity|right; split; [discriminate|reflexivity]].
  - destruct (@safe_next_url_spec Samples.configured "https://evil.example/")
      as (_ & _ & _ & H).
    apply H; [reflexivity|right; reflexivity].
Defined.

End RedirectFacts.

(** ** Encodings *)

Module EncodingFacts.
Import Bytes BytesFacts Encoding.

Lemma list_ind3 {A} (P : list A -> Prop) :
  P [] -> (forall a, P [a]) -> (forall a b, P [a; b]) ->
  (forall a b c rest, P rest -> P (a :: b :: c :: rest)) ->
  forall l, P l.
Proof.
  intros H0 H1 H2 H3.
  assert (forall n l, (length l <= n)%nat -> P l) as Hn.
  { induction n as [|n IH]; intros l Hl.
    - destruct l; [exact H0|cbn in Hl; lia].
    - destruct l as [|a [|b [|c rest]]]; auto.
      apply H3, IH. cbn in Hl. lia. }
  intros l. apply (Hn (length l)). lia.
Qed.

Lemma nth_Forall {A} (P : A -> Prop) (l : list A) (d : A) (k : nat) :
  Forall P l -> P d -> P (nth k l d).
Proof.
  intros Hl Hd. revert k. induction Hl; intros [|k]; cbn; auto.
Qed.

Lemma b64_char_plain n : plain (b64_char n).
Proof.
  unfold b64_char. apply nth_Forall.
  - unfold b64_alphabet.
    repeat (constructor; [split; [discriminate|reflexivity]|]).
    constructor.
  - split; [discriminate|reflexivity].
Qed.

Lemma b64_unpadded_plain bs : Forall plain (b64_unpadded bs).
Proof.
  induction bs as [|a|a b|a b c rest IH] using list_ind3;
    cbn [b64_unpadded];
    repeat (constructor; [apply b64_char_plain|]);
    (constructor || exact IH).
Qed.

Lemma rstrip_byte_cons_ne x b l :
  b <> x -> rstrip_byte x (b :: l) = b :: rstrip_byte x l.
Proof.
  intros Hne. cbn [rstrip_byte].
  destruct (rstrip_byte x l); [|reflexivity].
  rewrite bool_decide_eq_false_2 by assumption. reflexivity.
Qed.

(** Removing the trailing ["="] leaves the characters without padding. *)
Lemma rstrip_urlsafe_b64encode bs :
  rstrip_byte b64_pad (urlsafe_b64encode bs) = b64_unpadded bs.
Proof.
  induction bs as [|a|a b|a b c rest IH] using list_ind3;
    cbn [urlsafe_b64encode b64_unpadded];
    rewrite ?rstrip_byte_cons_ne by apply b64_char_plain.
  - reflexivity.
  - reflexivity.
  - reflexivity.
  - rewrite IH. reflexivity.
Qed.

(** The bits of one byte, recombined. *)
Lemma byte_bits (b : byte) :
  let x := byte_to_Z b in
  32 * (x / 128 mod 2) + 16 * (x / 64 mod 2) + 8 * (x / 32 mod 2)
  + 4 * (x / 16 mod 2) + 2 * (x / 8 mod 2) + x / 4 mod 2 = x / 4
  /\ 2 * (x / 2 mod 2) + x mod 2 = x mod 4
  /\ 8 * (x / 128 mod 2) + 4 * (x / 64 mod 2) + 2 * (x / 32 mod 2)
     + x / 16 mod 2 = x / 16
  /\ 8 * (x / 8 mod 2) + 4 * (x / 4 mod 2) + 2 * (x / 2 mod 2) + x mod 2
     = x mod 16
  /\ 2 * (x / 128 mod 2) + x / 64 mod 2 = x / 64
  /\ 32 * (x / 32 mod 2) + 16 * (x / 16 mod 2) + 8 * (x / 8 mod 2)
     + 4 * (x / 4 mod 2) + 2 * (x / 2 mod 2) + x mod 2 = x mod 64.
Proof. destruct b; vm_compute; repeat split. Qed.

Section Sextets.
Variables a b c : byte.
Let x := byte_to_Z a.
Let y := byte_to_Z b.
Let z := byte_to_Z c.

Lemma sextet_1 :
  sextet_value (x / 128 mod 2) (x / 64 mod 2) (x / 32 mod 2)
    (x / 16 mod 2) (x / 8 mod 2) (x / 4 mod 2) = x / 4.
Proof. unfold sextet_value. pose proof (byte_bits a). cbv zeta in *. subst x y z. lia. Qed.

Lemma sextet_2 :
  sextet_value (x / 2 mod 2) (x mod 2) (y / 128 mod 2) (y / 64 mod 2)
    (y / 32 mod 2) (y / 16 mod 2) = x mod 4 * 16 + y / 16.
Proof.
  unfold sextet_value. pose proof (byte_bits a). pose proof (byte_bits b).
  cbv zeta in *. subst x y z. lia.
Qed.

Lemma sextet_3 :
  sextet_value (y / 8 mod 2) (y / 4 mod 2) (y / 2 mod 2) (y mod 2)
    (z / 128 mod 2) (z / 64 mod 2) = y mod 16 * 4 + z / 64.
Proof.
  unfold sextet_value. pose proof (byte_bits b). pose proof (byte_bits c).
  cbv zeta in *. subst x y z. lia.
Qed.

Lemma sextet_4 :
  sextet_value (z / 32 mod 2) (z / 16 mod 2) (z / 8 mod 2) (z / 4 mod 2)
    (z / 2 mod 2) (z mod 2) = z mod 64.
Proof. unfold sextet_value. pose proof (byte_bits c). cbv zeta in *. subst x y z. lia. Qed.

Lemma sextet_2_last :
  sextet_value (x / 2 mod 2) (x mod 2) 0 0 0 0 = x mod 4 * 16.
Proof. unfold sextet_value. pose proof (byte_bits a). cbv zeta in *. subst x y z. lia. Qed.

Lemma sextet_3_last :
  sextet_value (y / 8 mod 2) (y / 4 mod 2) (y / 2 mod 2) (y mod 2) 0 0
  = y mod 16 * 4.
Proof. unfold sextet_value. pose proof (byte_bits b). cbv zeta in *. subst x y z. lia. Qed.
End Sextets.

Lemma sextets_b64_unpadded bs :
  map b64_char (sextets (flat_map bits_of_byte bs)) = b64_unpadded bs.
Proof.
  induction bs as [|a|a b|a b c rest IH] using list_ind3;
    cbn [flat_map bits_of_byte app sextets map b64_unpadded].
  - reflexivity.
  - rewrite sextet_1, sextet_2_last. reflexivity.
  - rewrite sextet_1, sextet_2, sextet_3_last. reflexivity.
  - rewrite sextet_1, sextet_2, sextet_3, sextet_4, IH. reflexivity.
Qed.

(** [_b64url] computes the specification's [base64url_no_pad]. *)
Lemma _b64url_spec data : _b64url data = base64url_no_pad data.
Proof.
  unfold _b64url, base64url_no_pad.
  rewrite rstrip_urlsafe_b64encode, sextets_b64_unpadded. reflexivity.
Qed.

Lemma length_b64_unpadded bs :
  length (b64_unpadded bs) = ((4 * length bs + 2) / 3)%nat.
Proof.
  induction bs as [|a|a b|a b c rest IH] using list_ind3;
    cbn [b64_unpadded length]; try reflexivity.
  rewrite IH.
  replace (4 * S (S (S (length rest))) + 2)%nat
    with ((4 * length rest + 2) + 4 * 3)%nat by lia.
  rewrite Nat.div_add by lia. lia.
Qed.

Lemma length_string_of_list_byte l :
  String.length (string_of_list_byte l) = length l.
Proof.
  induction l as [|c l IH]; [reflexivity|].
  change (string_of_list_byte (c :: l))
    with (String (ascii_of_byte c) (string_of_list_byte l)).
  cbn [String.length length]. rewrite IH. reflexivity.
Qed.

Lemma length_token_urlsafe n t :
  String.length (fst (token_urlsafe n t)) = ((4 * n + 2) / 3)%nat.
Proof.
  unfold token_urlsafe, token_bytes. cbn [fst].
  rewrite length_string_of_list_byte, rstrip_urlsafe_b64encode,
    length_b64_unpadded, length_map, length_seq.
  reflexivity.
Qed.

Lemma quote_plus_plain l :
  Forall plain l -> quote_plus (string_of_list_byte l) = string_of_list_byte l.
Proof.
  induction 1 as [|c l [_ Hc] _ IH]; [reflexivity|].
  change (string_of_list_byte (c :: l))
    with (String (ascii_of_byte c) (string_of_list_byte l)).
  cbn [quote_plus]. unfold quote_char. rewrite Hc, IH. reflexivity.
Qed.

(** [quote_plus] leaves a base64url string as it is. *)
Lemma quote_plus_b64url data : quote_plus (_b64url data) = _b64url data.
Proof.
  unfold _b64url. rewrite rstrip_urlsafe_b64encode.
  apply quote_plus_plain, b64_unpadded_plain.
Qed.

Example b64url_hello :
  _b64url (list_byte_of_string "hello") = "aGVsbG8"
  /\ base64url_no_pad (list_byte_of_string "hello") = "aGVsbG8".
Proof. split; vm_compute; reflexivity. Qed.

Example b64url_high : _b64url [xfb; xff] = "-_8".
Proof. vm_compute. reflexivity. Qed.

Example urlencode_sample :
  urlencode [("scope", "openid email"); ("redirect_uri", "https://a.b/c")]
  = "scope=openid+email&redirect_uri=https%3A%2F%2Fa.b%2Fc".
Proof. vm_compute. reflexivity. Qed.

(** Known answers: FIPS 180-4 for ["abc"], and a message of two blocks. *)
Example sha256_abc :
  SHA256.hex_of_bytes (SHA256.digest (list_byte_of_string "abc"))
  = "ba7816bf8f01cfea414140de5dae2223b00361a396177a9cb410ff61f20015ad".
Proof. vm_compute. reflexivity. Qed.

Example sha256_two_blocks :
  SHA256.hex_of_bytes (SHA256.digest (repeat x61 100))
  = "2816597888e4a0d3a36b82b83316ab32680eb8f00f8cd3b904d681246d285a0e".
Proof. vm_compute. reflexivity. Qed.

(** The example of RFC 7636, appendix B. *)
Example pkce_rfc7636 :
  _b64url (SHA256.digest
             (encode_utf8 "dBjftJeZ4CVP-mB92K27uhbUJU1p1r_wW1gFWFOEjXk"))
  = "E9Melhoa2OwvFrEMTJguCHaoeK1t8URWbuGJSstw-cM".
Proof. vm_compute. reflexivity. Qed.

End EncodingFacts.

(** ** The state monad *)

Module StateFacts.
Import State.

Lemma bind_Ok {A B} (m : M A) (k : A -> M B) w a w' :
  m w = (Ok a, w') -> (m ≫= k) w = k a w'.
Proof. intros E. unfold mbind, M_bind. rewrite E. reflexivity. Qed.

Lemma bind_Raise {A B} (m : M A) (k : A -> M B) w e w' :
  m w = (Raise e, w') -> (m ≫= k) w = (Raise e, w').
Proof. intros E. unfold mbind, M_bind. rewrite E. reflexivity. Qed.

Lemma bind_inv_Ok {A B} (m : M A) (k : A -> M B) w b w2 :
  (m ≫= k) w = (Ok b, w2) ->
  exists a w1, m w = (Ok a, w1) /\ k a w1 = (Ok b, w2).
Proof.
  unfold mbind, M_bind. destruct (m w) as [[a|e] w1]; [eauto|discriminate].
Qed.

Section Keeps.
Context {B : Type} (f : World -> B).

Lemma keeps_ret {A} (a : A) : keeps f (mret a).
Proof. intros w. reflexivity. Qed.

Lemma keeps_raise {A} e : keeps f (@raise A e).
Proof. intros w. reflexivity. Qed.

Lemma keeps_get_world : keeps f get_world.
Proof. intros w. reflexivity. Qed.

Lemma keeps_modify g : (forall w, f (g w) = f w) -> keeps f (modify g).
Proof. intros Hg w. apply Hg. Qed.

Lemma keeps_bind {A C} (m : M A) (k : A -> M C) :
  keeps f m -> (forall a, keeps f (k a)) -> keeps f (m ≫= k).
Proof.
  intros Hm Hk w. unfold mbind, M_bind.
  specialize (Hm w). destruct (m w) as [[a|e] w1]; cbn [snd] in *.
  - rewrite Hk. exact Hm.
  - exact Hm.
Qed.

Lemma keeps_except {A} (m : M A) h :
  keeps f m -> (forall msg, keeps f (h msg)) ->
  keeps f (except_OAuthError m h).
Proof.
  intros Hm Hh w. unfold except_OAuthError.
  specialize (Hm w). destruct (m w) as [[a|[]] w1]; cbn [snd] in *;
    try exact Hm.
  rewrite Hh. exact Hm.
Qed.
End Keeps.

End StateFacts.

(** ** The OAuth client *)

Module GoogleOAuthFacts.
Import Py PyFacts Encoding EncodingFacts State StateFacts GoogleOAuth.

Create HintDb keeps discriminated.

Ltac keeps_step :=
  first
    [ solve [eauto with keeps]
    | progress cbv zeta
    | apply keeps_ret | apply keeps_raise | apply keeps_get_world
    | apply keeps_modify; intros; reflexivity
    | apply keeps_bind; [|intros]
    | apply keeps_except; [|intros]
    | match goal with
      | |- keeps _ (match ?x with _ => _ end) => destruct x
      | |- keeps _ (let '(_, _) := ?x in _) => destruct x
      end ].

Ltac solve_keeps := repeat keeps_step.

Section Client.
Context `{Environment}.

Lemma keeps_session_client_id_secret : keeps session_strs _client_id_secret.
Proof. unfold _client_id_secret. solve_keeps. Qed.

Lemma keeps_log_client_id_secret : keeps net_log _client_id_secret.
Proof. unfold _client_id_secret. solve_keeps. Qed.

Lemma keeps_redirect_uri {B} (f : World -> B) : keeps f _redirect_uri.
Proof. unfold _redirect_uri. solve_keeps. Qed.

Lemma keeps_session_token_urlsafe n :
  keeps session_strs (secrets_token_urlsafe n).
Proof.
  intros w. unfold secrets_token_urlsafe.
  destruct (token_urlsafe n (entropy w)). reflexivity.
Qed.

Lemma keeps_session_post_token data : keeps session_strs (post_token data).
Proof. intros w. reflexivity. Qed.

Lemma keeps_session_get_userinfo a : keeps session_strs (get_userinfo a).
Proof. intros w. reflexivity. Qed.

Hint Resolve keeps_session_client_id_secret keeps_log_client_id_secret
  keeps_redirect_uri keeps_session_token_urlsafe keeps_session_post_token
  keeps_session_get_userinfo : keeps.

Lemma keeps_session_exchange_code code verifier :
  keeps session_strs (exchange_code code verifier).
Proof. unfold exchange_code. solve_keeps. Qed.

Lemma keeps_session_fetch_userinfo token :
  keeps session_strs (fetch_userinfo token).
Proof. unfold fetch_userinfo. solve_keeps. Qed.

(** *** Configuration that cannot be resolved *)

Lemma client_id_secret_missing w :
  oauth_cached w = None ->
  fst loaded_client = "" \/ snd loaded_client = "" ->
  _client_id_secret w = (Raise (OAuthError client_missing_message), w).
Proof.
  intros Hc Hmiss. unfold _client_id_secret.
  unfold mbind at 1, M_bind at 1, get_world. rewrite Hc.
  unfold loaded_client in Hmiss. cbn [fst snd] in Hmiss.
  destruct _try_load_client_secrets_json as [cid sec]. cbn [fst snd] in *.
  assert (negb (nonempty (strip cid)) || negb (nonempty (strip sec)) = true)
    as ->.
  { destruct Hmiss as [E|E]; rewrite E; [reflexivity|].
    apply orb_true_r. }
  reflexivity.
Qed.

Lemma client_id_secret_loaded w :
  oauth_cached w = None ->
  fst loaded_client <> "" -> snd loaded_client <> "" ->
  _client_id_secret w =
  (Ok loaded_client, set_oauth_cached (Some loaded_client) w).
Proof.
  intros Hc H1 H2. unfold _client_id_secret.
  unfold mbind at 1, M_bind at 1, get_world. rewrite Hc.
  unfold loaded_client in *. cbn [fst snd] in *.
  destruct _try_load_client_secrets_json as [cid sec]. cbn [fst snd] in *.
  apply nonempty_true in H1, H2. rewrite H1, H2. reflexivity.
Qed.

Lemma client_id_secret_cached w cached :
  oauth_cached w = Some cached -> _client_id_secret w = (Ok cached, w).
Proof.
  intros Hc. unfold _client_id_secret.
  unfold mbind, M_bind, get_world. rewrite Hc. reflexivity.
Qed.

Lemma redirect_uri_missing w :
  strip GOOGLE_OAUTH_REDIRECT_URI = "" ->
  _redirect_uri w = (Raise (OAuthError redirect_missing_message), w).
Proof.
  intros E. unfold _redirect_uri. rewrite E. reflexivity.
Qed.

Lemma redirect_uri_set w :
  strip GOOGLE_OAUTH_REDIRECT_URI <> "" ->
  _redirect_uri w = (Ok (strip GOOGLE_OAUTH_REDIRECT_URI), w).
Proof.
  intros E%nonempty_true. unfold _redirect_uri. rewrite E. reflexivity.
Qed.

(** *** The PKCE verifier and challenge *)

Lemma secrets_token_urlsafe_run n w :
  secrets_token_urlsafe n w =
  (Ok (fst (token_urlsafe n (entropy w))),
   set_entropy (snd (token_urlsafe n (entropy w))) w).
Proof.
  unfold secrets_token_urlsafe.
  destruct (token_urlsafe n (entropy w)). reflexivity.
Qed.

(** The first token already has 86 characters, so [_pkce_verifier]
    returns it as it is. *)
Lemma pkce_verifier_run w :
  _pkce_verifier w =
  (Ok (fst (token_urlsafe 64 (entropy w))),
   set_entropy (snd (token_urlsafe 64 (entropy w))) w).
Proof.
  unfold _pkce_verifier. erewrite bind_Ok
    by apply secrets_token_urlsafe_run.
  pose proof (length_token_urlsafe 64 (entropy w)) as Hlen.
  change ((4 * 64 + 2) / 3)%nat with 86%nat in Hlen.
  rewrite take_str_all by lia. rewrite Hlen. reflexivity.
Qed.

Lemma length_pkce_verifier w v w' :
  _pkce_verifier w = (Ok v, w') -> String.length v = 86%nat.
Proof.
  rewrite pkce_verifier_run. intros [= <- _].
  apply (length_token_urlsafe 64).
Qed.

Lemma pkce_verifier_total w : exists v w', _pkce_verifier w = (Ok v, w').
Proof. rewrite pkce_verifier_run. eauto. Qed.

(** The challenge is the specification's function of the verifier. *)
Lemma pkce_challenge_spec verifier :
  _pkce_challenge verifier =
  base64url_no_pad (sha256 (encode_utf8 verifier)).
Proof. unfold _pkce_challenge. apply _b64url_spec. Qed.

Lemma authorize_url_shape client_id redirect_uri state challenge :
  AUTH_URL +:+ "?" +:+
  urlencode (authorize_params client_id redirect_uri requested_scope state
               challenge)
  = url_before_challenge client_id redirect_uri state
    +:+ "&code_challenge=" +:+ quote_plus challenge
    +:+ url_after_challenge.
Proof.
  unfold url_before_challenge, url_after_challenge, urlencode,
    authorize_params, join, AUTH_URL.
  cbn [map fst snd String.concat].
  generalize (quote_plus client_id) (quote_plus redirect_uri)
    (quote_plus requested_scope) (quote_plus state)
    (quote_plus challenge).
  intros a b c d e. rewrite !append_assoc. reflexivity.
Qed.

(** C4.  Every verifier that [build_authorize_url] returns has between 43
    and 128 characters, and the [code_challenge] parameter of the returned
    authorization URL is, character for character,
    [base64url_no_pad (sha256 verifier)]. *)
Theorem pkce_verifier_and_challenge (w w' : World)
    (state verifier url : string) :
  build_authorize_url w = (Ok (state, verifier, url), w') ->
  let challenge := base64url_no_pad (sha256 (encode_utf8 verifier)) in
  (43 <= String.length verifier <= 128)%nat
  /\ (exists client_id redirect_uri,
        url = AUTH_URL +:+ "?" +:+
              urlencode (authorize_params client_id redirect_uri
                           requested_scope state challenge)
        /\ url = url_before_challenge client_id redirect_uri state
                 +:+ "&code_challenge=" +:+ challenge
                 +:+ url_after_challenge).
Proof.
  intros Hb challenge. unfold build_authorize_url in Hb.
  apply bind_inv_Ok in Hb as ([cid sec] & w1 & _ & Hb).
  apply bind_inv_Ok in Hb as (ru & w2 & _ & Hb).
  apply bind_inv_Ok in Hb as (st & w3 & _ & Hb).
  apply bind_inv_Ok in Hb as (v & w4 & Hv & Hb).
  injection Hb as <- <- <- <-.
  apply length_pkce_verifier in Hv.
  split; [lia|]. exists cid, ru.
  rewrite pkce_challenge_spec. fold challenge.
  split; [reflexivity|].
  rewrite authorize_url_shape. subst challenge.
  rewrite <- _b64url_spec, quote_plus_b64url. reflexivity.
Qed.

(** With a client and a redirect URI resolved, a verifier is produced. *)
Lemma build_authorize_url_total w :
  (oauth_cached w <> None
   \/ (fst loaded_client <> "" /\ snd loaded_client <> "")) ->
  strip GOOGLE_OAUTH_REDIRECT_URI <> "" ->
  exists state verifier url w',
    build_authorize_url w = (Ok (state, verifier, url), w').
Proof.
  intros Hc Hru. unfold build_authorize_url.
  assert (exists c w1, _client_id_secret w = (Ok c, w1)) as ([cid sec] & w1 & E).
  { destruct (oauth_cached w) as [c|] eqn:Ec.
    - exists c, w. apply client_id_secret_cached, Ec.
    - destruct Hc as [Hc|[H1 H2]]; [congruence|].
      eexists _, _. apply client_id_secret_loaded; assumption. }
  erewrite bind_Ok by exact E. cbv beta iota.
  erewrite bind_Ok by (apply redirect_uri_set, Hru).
  erewrite bind_Ok by apply secrets_token_urlsafe_run.
  erewrite bind_Ok by apply pkce_verifier_run.
  eexists _, _, _, _. reflexivity.
Qed.

(** C8, as amended.  [build_authorize_url] fails with [OAuthError] - the
    exception class of the token and userinfo failures; the code has no
    configuration error class of its own - when no client is cached and
    the client id or its secret cannot be resolved, and when the redirect
    URI cannot be resolved. *)
Theorem build_authorize_url_unresolved (w : World) :
  (oauth_cached w = None ->
   fst loaded_client = "" \/ snd loaded_client = "" ->
   build_authorize_url w = (Raise (OAuthError client_missing_message), w))
  /\ (strip GOOGLE_OAUTH_REDIRECT_URI = "" ->
      exists msg w',
        build_authorize_url w = (Raise (OAuthError msg), w')
        /\ class_of (OAuthError msg) = OAuthErrorClass).
Proof.
  split.
  - intros Hc Hmiss. unfold build_authorize_url.
    apply bind_Raise. apply client_id_secret_missing; assumption.
  - intros Hru. unfold build_authorize_url.
    destruct (_client_id_secret w) as [[[cid sec]|e] w1] eqn:E.
    + exists redirect_missing_message, w1. split; [|reflexivity].
      erewrite bind_Ok by exact E. cbv beta iota.
      apply bind_Raise. apply redirect_uri_missing, Hru.
    + assert (exists msg, e = OAuthError msg) as [msg ->].
      { revert E. unfold _client_id_secret.
        unfold mbind, M_bind, get_world, modify, raise, mret, M_ret.
        destruct (oauth_cached w); [discriminate|].
        destruct _try_load_client_secrets_json as [c s0]. cbv zeta.
        destruct (negb _ || negb _); [|discriminate].
        intros [= <- _]. eauto. }
      exists msg, w1. split; [|reflexivity].
      apply bind_Raise. exact E.
Qed.
End Client.

Lemma run_pair {A} (r : result A * State.World) (a : A) :
  fst r = Ok a -> r = (Ok a, snd r).
Proof. destruct r as [x w]. cbn. intros ->. reflexivity. Qed.

Lemma pkce_verifier_and_challenge_witness :
  exists state verifier url,
    fst (@build_authorize_url Samples.configured Samples.fresh)
    = Ok (state, verifier, url)
    /\ (43 <= String.length verifier <= 128)%nat
    /\ exists client_id redirect_uri,
         url = AUTH_URL +:+ "?" +:+
               urlencode
                 (authorize_params client_id redirect_uri
                    (@requested_scope Samples.configured) state
                    (base64url_no_pad
                       (@sha256 Samples.configured (encode_utf8 verifier))))
         /\ url = @url_before_challenge Samples.configured client_id
                    redirect_uri state
                  +:+ "&code_challenge="
                  +:+ base64url_no_pad
                        (@sha256 Samples.configured (encode_utf8 verifier))
                  +:+ url_after_challenge.
Proof.
  pose (r := @build_authorize_url Samples.configured Samples.fresh).
  assert (E : exists state verifier url, fst r = Ok (state, verifier, url)).
  { eexists _, _, _. vm_compute. reflexivity. }
  destruct E as (state & verifier & url & E).
  exists state, verifier, url. split; [exact E|].
  apply run_pair in E.
  exact (@pkce_verifier_and_challenge Samples.configured _ _ _ _ _ E).
Defined.

Example authorize_url_sample :
  fst (@build_authorize_url Samples.configured Samples.fresh) =
  Ok ("AAECAwQFBgcICQoLDA0ODxAREhMUFRYX",
      "GBkaGxwdHh8gISIjJCUmJygpKissLS4vMDEyMzQ1Njc4OTo7PD0-P0BBQkNERUZHSElKS0xNTk9QUVJTVFVWVw",
      "https://accounts.google.com/o/oauth2/v2/auth?client_id=client-1"
      +:+ "&redirect_uri=https%3A%2F%2Fapi.example%2Fapi%2Fauth%2Fcallback"
      +:+ "&response_type=code&scope=openid+email+profile"
      +:+ "&state=AAECAwQFBgcICQoLDA0ODxAREhMUFRYX"
      +:+ "&code_challenge=RJrc0wi7CgeAOrFx2_PAYbEziKyp1wc-1C7wfipWpsw"
      +:+ "&code_challenge_method=S256&access_type=online"
      +:+ "&include_granted_scopes=true&prompt=select_account").
Proof. vm_compute. reflexivity. Qed.

Lemma build_authorize_url_unresolved_witness :
  @build_authorize_url Samples.unconfigured Samples.fresh
  = (Raise (OAuthError client_missing_message), Samples.fresh)
  /\ exists msg w',
       @build_authorize_url Samples.unconfigured Samples.fresh
       = (Raise (OAuthError msg), w')
       /\ class_of (OAuthError msg) = OAuthErrorClass.
Proof.
  split.
  - apply (proj1 (@build_authorize_url_unresolved Samples.unconfigured
                    Samples.fresh)).
    + reflexivity.
    + left. reflexivity.
  - apply (proj2 (@build_authorize_url_unresolved Samples.unconfigured
                    Samples.fresh)).
    reflexivity.
Defined.

(** C8 as stated fails: with nothing configured the exception raised is an
    [OAuthError], not one of a class distinct from it. *)
Lemma build_authorize_url_unresolved_counterexample :
  @build_authorize_url Samples.unconfigured Samples.fresh
  = (Raise (OAuthError client_missing_message), Samples.fresh)
  /\ ~ (class_of (OAuthError client_missing_message) <> OAuthErrorClass).
Proof.
  split; [reflexivity|]. intros Hne. apply Hne. reflexivity.
Qed.

End GoogleOAuthFacts.

(** ** The users table *)

Module ModelsFacts.
Import Py PyFacts State StateFacts GoogleOAuthFacts Models.

Section Upsert.
Context `{Environment}.

Lemma keeps_session_upsert sub email name picture :
  keeps session_strs (upsert_google_user sub email name picture).
Proof. unfold upsert_google_user. solve_keeps. Qed.

Lemma keeps_log_upsert sub email name picture :
  keeps net_log (upsert_google_user sub email name picture).
Proof. unfold upsert_google_user. solve_keeps. Qed.

Lemma find_user_sub google_sub rows user :
  find_user google_sub rows = Some user -> user_google_sub user = google_sub.
Proof.
  unfold find_user. intros [_ Hf]%find_some.
  apply bool_decide_eq_true in Hf. exact Hf.
Qed.

Lemma or_None_Some x : x <> "" -> or_None x = Some x.
Proof. intros E%nonempty_true. unfold or_None. rewrite E. reflexivity. Qed.

Lemma new_or_old_Some x old : x <> "" -> new_or_old x old = Some x.
Proof.
  intros E%nonempty_true. unfold new_or_old. rewrite E. reflexivity.
Qed.

(** The row that [upsert_google_user] returns for a normalised profile:
    it carries the subject, and each other field that is not empty. *)
Lemma upsert_normalised sub email name picture w user w' :
  upsert_google_user (strip sub) (lower (strip email)) (strip name)
    (strip picture) w = (Ok user, w') ->
  user_google_sub user = strip sub
  /\ (lower (strip email) <> "" ->
      user_email user = Some (lower (strip email)))
  /\ (strip name <> "" -> user_name user = Some (strip name))
  /\ (strip picture <> "" -> user_picture user = Some (strip picture)).
Proof.
  unfold upsert_google_user.
  unfold mbind, M_bind, get_world, modify, mret, M_ret.
  destruct (find_user (strip sub) (users w)) as [old|] eqn:Ef;
    intros [= <- _]; cbn [user_google_sub user_email user_name user_picture].
  - split; [eapply find_user_sub, Ef|].
    repeat split; apply new_or_old_Some.
  - split; [reflexivity|].
    rewrite normal_email_fixed, !strip_idem.
    repeat split; apply or_None_Some.
Qed.
End Upsert.

End ModelsFacts.

(** ** The OAuth callback *)

Module RoutesFacts.
Import Py PyFacts State StateFacts GoogleOAuth GoogleOAuthFacts Models
  ModelsFacts Redirect Routes.

Section Callback.
Context `{Environment}.

Lemma consumed_erased w : one_time_erased (consumed w).
Proof.
  unfold one_time_erased, consumed. cbn [session_strs set_session_strs].
  repeat split; simplify_map_eq; reflexivity.
Qed.

Lemma consumed_net_log w : net_log (consumed w) = net_log w.
Proof. reflexivity. Qed.

Lemma callback_no_session qp w :
  session_enabled = false -> callback qp w = (Raise no_session_error, w).
Proof. intros E. unfold callback. rewrite E. reflexivity. Qed.

Lemma callback_provider_error qp w :
  session_enabled = true -> provider_error qp = true ->
  callback qp w =
  (Raise (HTTPException 400
            (str_or (or_empty (qp !! "error_description"))
               (str_or (or_empty (qp !! "error")) "OAuth error"))), w).
Proof.
  intros E He. unfold callback. unfold provider_error in He.
  rewrite E, He. reflexivity.
Qed.

Lemma callback_rejected qp w :
  session_enabled = true -> provider_error qp = false ->
  state_rejected qp w = true ->
  callback qp w =
  (Raise (HTTPException 400 "Invalid OAuth state"), consumed w).
Proof.
  intros E He Hr. unfold callback. unfold provider_error in He.
  rewrite E, He. cbn [negb].
  unfold state_rejected, received_code, received_state, stored_state,
    stored_verifier in Hr.
  unfold mbind, M_bind, get_world, modify. rewrite Hr. reflexivity.
Qed.

Lemma callback_accepted qp w :
  session_enabled = true -> provider_error qp = false ->
  state_rejected qp w = false ->
  callback qp w =
  (userinfo ← fetch_identity (received_code qp) (stored_verifier w);
   complete_sign_in userinfo (stored_next w)) (consumed w).
Proof.
  intros E He Hr. unfold callback. unfold provider_error in He.
  rewrite E, He. cbn [negb].
  unfold state_rejected, received_code, received_state, stored_state,
    stored_verifier in Hr.
  unfold mbind at 1 2 3 4. unfold M_bind at 1 2 3 4.
  unfold get_world, modify. rewrite Hr. reflexivity.
Qed.

Hint Resolve keeps_session_exchange_code keeps_session_fetch_userinfo
  keeps_session_upsert : keeps.

Lemma keeps_session_fetch_identity code verifier :
  keeps session_strs (fetch_identity code verifier).
Proof. unfold fetch_identity. solve_keeps. Qed.

Lemma keeps_session_complete_sign_in userinfo next_url :
  keeps session_strs (complete_sign_in userinfo next_url).
Proof. unfold complete_sign_in. solve_keeps. Qed.

Lemma erased_rejected qp w : one_time_erased w -> state_rejected qp w = true.
Proof.
  intros (Hs & _). unfold state_rejected, stored_state. rewrite Hs.
  change (nonempty (strip (or_empty None))) with false.
  cbn [negb]. rewrite orb_true_r. reflexivity.
Qed.

Lemma state_rejected_cases qp w :
  received_code qp = "" \/ received_state qp = "" \/ stored_state w = ""
  \/ stored_verifier w = "" \/ received_state qp <> stored_state w ->
  state_rejected qp w = true.
Proof.
  unfold state_rejected.
  intros [E|[E|[E|[E|E]]]];
    try (apply nonempty_false in E; rewrite E; cbn [negb];
         rewrite ?orb_true_r; reflexivity).
  apply String.eqb_neq in E. rewrite E. cbn [negb].
  rewrite ?orb_true_r. reflexivity.
Qed.

(** Every run of [callback] past its first two checks ends without the
    one-time entries. *)
Lemma callback_erases qp w :
  session_enabled = true -> provider_error qp = false ->
  one_time_erased (snd (callback qp w)).
Proof.
  intros E He. destruct (state_rejected qp w) eqn:Hr.
  - rewrite callback_rejected by assumption. apply consumed_erased.
  - rewrite callback_accepted by assumption.
    assert (Hk : keeps session_strs
              (userinfo ← fetch_identity (received_code qp)
                            (stored_verifier w);
               complete_sign_in userinfo (stored_next w))).
    { apply keeps_bind; [apply keeps_session_fetch_identity|].
      intros. apply keeps_session_complete_sign_in. }
    unfold one_time_erased. rewrite (Hk (consumed w)).
    apply consumed_erased.
Qed.

(** C2, as amended.  With sessions enabled: a callback that carries a
    provider error fails with a 400 that bears the provider's message and
    leaves the state untouched; any other callback in which, after
    stripping, the code is empty, the received state is empty, the stored
    state is empty, the stored verifier is empty, or the received state
    differs from the stored one, fails with 400 "Invalid OAuth state"
    without any network call. *)
Theorem callback_invalid_state (qp : gmap string string) (w : World) :
  session_enabled = true ->
  (provider_error qp = true ->
   exists detail, callback qp w = (Raise (HTTPException 400 detail), w))
  /\ (provider_error qp = false ->
      received_code qp = "" \/ received_state qp = ""
      \/ stored_state w = "" \/ stored_verifier w = ""
      \/ received_state qp <> stored_state w ->
      exists w',
        callback qp w = (Raise (HTTPException 400 "Invalid OAuth state"), w')
        /\ net_log w' = net_log w).
Proof.
  intros E. split.
  - intros He. eexists. apply callback_provider_error; assumption.
  - intros He Hbad. exists (consumed w). split; [|reflexivity].
    apply callback_rejected; try assumption.
    apply state_rejected_cases, Hbad.
Qed.

(** C3, as amended.  With sessions enabled, every callback without a
    provider error erases the one-time state, state, verifier and next,
    whether it succeeds or fails; every later callback on that session
    fails with a 400 and without a network call, on the state check when
    it carries no provider error. *)
Theorem callback_erases_and_no_replay (qp : gmap string string) (w : World) :
  session_enabled = true -> provider_error qp = false ->
  let w' := snd (callback qp w) in
  one_time_erased w'
  /\ forall qp2,
       exists detail w'',
         callback qp2 w' = (Raise (HTTPException 400 detail), w'')
         /\ net_log w'' = net_log w'
         /\ one_time_erased w''
         /\ (provider_error qp2 = false -> detail = "Invalid OAuth state").
Proof.
  intros E He w'. pose proof (callback_erases qp w E He) as Her.
  fold w' in Her. split; [exact Her|]. intros qp2.
  destruct (provider_error qp2) eqn:He2.
  - eexists _, w'. split; [apply callback_provider_error; assumption|].
    split; [reflexivity|]. split; [exact Her|discriminate].
  - exists "Invalid OAuth state", (consumed w').
    split; [apply callback_rejected; try assumption;
            apply erased_rejected, Her|].
    split; [reflexivity|]. split; [apply consumed_erased|reflexivity].
Qed.

Lemma complete_sign_in_inv userinfo next_url w reply w' :
  complete_sign_in userinfo next_url w = (Ok reply, w') ->
  let sub := strip (or_empty (userinfo !! "sub")) in
  let email := lower (strip (or_empty (userinfo !! "email"))) in
  let name := strip (or_empty (userinfo !! "name")) in
  let picture := strip (or_empty (userinfo !! "picture")) in
  sub <> "" /\
  exists user w2,
    upsert_google_user sub email name picture w = (Ok user, w2)
    /\ w' = set_session_user (Some user) w2.
Proof.
  intros Hc. cbv zeta. unfold complete_sign_in in Hc.
  destruct (nonempty (strip (or_empty (userinfo !! "sub")))) eqn:Hsub;
    cbn [negb] in Hc; [|discriminate].
  split; [apply nonempty_true, Hsub|].
  apply bind_inv_Ok in Hc as (user & w2 & Hu & Hc).
  exists user, w2. split; [exact Hu|].
  unfold mbind, M_bind, modify, mret, M_ret in Hc.
  repeat match type of Hc with
         | context [if ?c then _ else _] => destruct c
         end; injection Hc as _ <-; reflexivity.
Qed.

(** C10, as amended.  On every successful callback the profile that
    [fetch_userinfo] returned is normalised - the subject, the name and the
    picture stripped, the email stripped and lowered - and passed so to
    [upsert_google_user]; the session's user record is the row that the
    upsert returns, which carries the subject, and each other field when
    its normalised value is not empty. *)
Theorem callback_normalises_profile (qp : gmap string string)
    (w w' : World) (reply : Reply) :
  callback qp w = (Ok reply, w') ->
  exists userinfo w1 user w2,
    fetch_identity (received_code qp) (stored_verifier w) (consumed w)
    = (Ok userinfo, w1)
    /\ let sub := strip (or_empty (userinfo !! "sub")) in
       let email := lower (strip (or_empty (userinfo !! "email"))) in
       let name := strip (or_empty (userinfo !! "name")) in
       let picture := strip (or_empty (userinfo !! "picture")) in
       upsert_google_user sub email name picture w1 = (Ok user, w2)
       /\ w' = set_session_user (Some user) w2
       /\ session_user w' = Some user
       /\ sub <> ""
       /\ user_google_sub user = sub
       /\ (email <> "" -> user_email user = Some email)
       /\ (name <> "" -> user_name user = Some name)
       /\ (picture <> "" -> user_picture user = Some picture).
Proof.
  intros Hc.
  destruct session_enabled eqn:E;
    [|rewrite callback_no_session in Hc by assumption; discriminate].
  destruct (provider_error qp) eqn:He;
    [rewrite callback_provider_error in Hc by assumption; discriminate|].
  destruct (state_rejected qp w) eqn:Hr;
    [rewrite callback_rejected in Hc by assumption; discriminate|].
  rewrite callback_accepted in Hc by assumption.
  apply bind_inv_Ok in Hc as (userinfo & w1 & Hf & Hc).
  apply complete_sign_in_inv in Hc as (Hsub & user & w2 & Hu & ->).
  exists userinfo, w1, user, w2. split; [exact Hf|]. cbv zeta.
  split; [exact Hu|]. split; [reflexivity|]. split; [reflexivity|].
  split; [exact Hsub|].
  rewrite <- (strip_idem (or_empty (userinfo !! "sub"))) in Hu at 1.
  rewrite <- (strip_idem (or_empty (userinfo !! "name"))) in Hu at 1.
  rewrite <- (strip_idem (or_empty (userinfo !! "picture"))) in Hu at 1.
  rewrite <- (normal_email_fixed (or_empty (userinfo !! "email"))) in Hu.
  apply upsert_normalised in Hu.
  rewrite !strip_idem, normal_email_fixed in Hu.
  exact Hu.
Qed.
End Callback.

Lemma callback_invalid_state_witness :
  (exists detail,
     @callback Samples.configured Samples.query_denied Samples.pending
     = (Raise (HTTPException 400 detail), Samples.pending))
  /\ (exists w',
        @callback Samples.configured Samples.query_wrong_state Samples.pending
        = (Raise (HTTPException 400 "Invalid OAuth state"), w')
        /\ net_log w' = net_log Samples.pending).
Proof.
  split.
  - apply (proj1 (@callback_invalid_state Samples.configured
                    Samples.query_denied Samples.pending eq_refl)).
    vm_compute. reflexivity.
  - apply (proj2 (@callback_invalid_state Samples.configured
                    Samples.query_wrong_state Samples.pending eq_refl)).
    + vm_compute. reflexivity.
    + right. right. right. right. vm_compute. discriminate.
Defined.

(** C2 as stated fails twice.  A callback that reports a provider error and
    a wrong state fails with the provider's message, not with "Invalid OAuth
    state".  A received state that differs from the stored one by a trailing
    space only is accepted, because both are stripped before they are
    compared: the token exchange and the userinfo fetch are made. *)
Lemma callback_invalid_state_counterexample :
  (received_state Samples.query_denied_wrong_state
   <> stored_state Samples.pending
   /\ @callback Samples.configured Samples.query_denied_wrong_state
        Samples.pending
      = (Raise (HTTPException 400 "access_denied"), Samples.pending))
  /\ (or_empty (Samples.query_spaced_state !! "state")
      <> or_empty (session_strs Samples.pending !! "oauth_state")
      /\ fst (@callback Samples.configured Samples.query_spaced_state
                Samples.pending)
         = Ok (RedirectResponse "https://app.example/kiosk.html" 302)
      /\ net_log (snd (@callback Samples.configured
                         Samples.query_spaced_state Samples.pending))
         = [TokenRequest
              [("code", "c0de"); ("client_id", "client-1");
               ("client_secret", "secret-1");
               ("redirect_uri", "https://api.example/api/auth/callback");
               ("grant_type", "authorization_code");
               ("code_verifier", "v3rifier")];
            UserinfoRequest "Bearer tok123"]).
Proof.
  split; [split|split; [|split]].
  - vm_compute. discriminate.
  - apply (@callback_provider_error Samples.configured); vm_compute;
      reflexivity.
  - vm_compute. discriminate.
  - vm_compute. reflexivity.
  - vm_compute. reflexivity.
Qed.

Lemma callback_erases_and_no_replay_witness :
  let w' := snd (@callback Samples.configured Samples.query_ok
                   Samples.pending) in
  one_time_erased w'
  /\ forall qp2,
       exists detail w'',
         @callback Samples.configured qp2 w'
         = (Raise (HTTPException 400 detail), w'')
         /\ net_log w'' = net_log w'
         /\ one_time_erased w''
         /\ (provider_error qp2 = false -> detail = "Invalid OAuth state").
Proof.
  apply (@callback_erases_and_no_replay Samples.configured Samples.query_ok
           Samples.pending).
  - reflexivity.
  - vm_compute. reflexivity.
Defined.

Example callback_replay_sample :
  fst (@callback Samples.configured Samples.query_ok Samples.pending)
  = Ok (RedirectResponse "https://app.example/kiosk.html" 302)
  /\ fst (@callback Samples.configured Samples.query_ok
            (snd (@callback Samples.configured Samples.query_ok
                    Samples.pending)))
     = Raise (HTTPException 400 "Invalid OAuth state").
Proof. split; vm_compute; reflexivity. Qed.

(** C3 as stated fails: a callback in which the provider reports an error
    returns before the cleanup, and the one-time state stays in the
    session. *)
Lemma callback_erases_and_no_replay_counterexample :
  @callback Samples.configured Samples.query_denied Samples.pending
  = (Raise (HTTPException 400 "access_denied"), Samples.pending)
  /\ session_strs
       (snd (@callback Samples.configured Samples.query_denied
               Samples.pending)) !! "oauth_state" = Some "st4te"
  /\ ~ one_time_erased
        (snd (@callback Samples.configured Samples.query_denied
                Samples.pending)).
Proof.
  assert (E :
    @callback Samples.configured Samples.query_denied Samples.pending
    = (Raise (HTTPException 400 "access_denied"), Samples.pending)).
  { apply (@callback_provider_error Samples.configured); vm_compute;
      reflexivity. }
  split; [exact E|]. rewrite E. cbn [snd]. split.
  - vm_compute. reflexivity.
  - intros (Hs & _). vm_compute in Hs. discriminate.
Qed.

Lemma callback_normalises_profile_witness :
  exists reply userinfo w1 user w2,
    fst (@callback Samples.configured Samples.query_ok Samples.pending)
    = Ok reply
    /\ @fetch_identity Samples.configured
         (received_code Samples.query_ok) (stored_verifier Samples.pending)
         (consumed Samples.pending)
       = (Ok userinfo, w1)
    /\ let sub := strip (or_empty (userinfo !! "sub")) in
       let email := lower (strip (or_empty (userinfo !! "email"))) in
       let name := strip (or_empty (userinfo !! "name")) in
       let picture := strip (or_empty (userinfo !! "picture")) in
       @upsert_google_user Samples.configured sub email name picture w1
       = (Ok user, w2)
       /\ snd (@callback Samples.configured Samples.query_ok Samples.pending)
          = set_session_user (Some user) w2
       /\ session_user
            (snd (@callback Samples.configured Samples.query_ok
                    Samples.pending)) = Some user
       /\ sub <> ""
       /\ user_google_sub user = sub
       /\ (email <> "" -> user_email user = Some email)
       /\ (name <> "" -> user_name user = Some name)
       /\ (picture <> "" -> user_picture user = Some picture).
Proof.
  assert (E : exists reply,
    fst (@callback Samples.configured Samples.query_ok Samples.pending)
    = Ok reply).
  { eexists. vm_compute. reflexivity. }
  destruct E as [reply E]. exists reply.
  pose proof (run_pair _ _ E) as E'.
  destruct (@callback_normalises_profile Samples.configured _ _ _ _ E')
    as (userinfo & w1 & user & w2 & Hf & Hrest).
  exists userinfo, w1, user, w2. split; [exact E|]. split; [exact Hf|].
  exact Hrest.
Defined.

Example callback_session_user_sample :
  session_user
    (snd (@callback Samples.configured Samples.query_ok Samples.pending))
  = Some {| user_id := "user-0"; user_google_sub := "abc";
            user_email := Some "ada@b.com"; user_name := Some "Ada L";
            user_picture := None |}.
Proof. vm_compute. reflexivity. Qed.

(** C10 as stated fails: when the userinfo carries no email, the normalised
    email is the empty string, and what is written into the session's user
    record is [None]; likewise for the name and the picture. *)
Lemma callback_normalises_profile_counterexample :
  fst (@callback Samples.configured_bare Samples.query_ok Samples.pending)
  = Ok (RedirectResponse "https://app.example/kiosk.html" 302)
  /\ session_user
       (snd (@callback Samples.configured_bare Samples.query_ok
               Samples.pending))
     = Some {| user_id := "user-0"; user_google_sub := "abc";
               user_email := None; user_name := None;
               user_picture := None |}
  /\ user_email <$>
       session_user
         (snd (@callback Samples.configured_bare Samples.query_ok
                 Samples.pending))
     <> Some (Some (lower (strip (or_empty
                                    (({[ "sub" := "abc" ]} : gmap string string)
                                       !! "email"))))).
Proof.
  split; [vm_compute; reflexivity|]. split; [vm_compute; reflexivity|].
  vm_compute. discriminate.
Qed.

(** The scenario of the specification: a login, then the matching
    callback. *)
Example login_then_callback :
  let w1 := snd (@login Samples.configured "/kiosk.html" Samples.fresh) in
  let qp :=
    Samples.query
      [("code", "c0de"); ("state", "AAECAwQFBgcICQoLDA0ODxAREhMUFRYX")] in
  let w2 := snd (@callback Samples.configured qp w1) in
  session_strs w1 !! "oauth_state" = Some "AAECAwQFBgcICQoLDA0ODxAREhMUFRYX"
  /\ session_strs w1 !! "oauth_next" = Some "/kiosk.html"
  /\ fst (@callback Samples.configured qp w1)
     = Ok (RedirectResponse "https://app.example/kiosk.html" 302)
  /\ (user_google_sub <$> session_user w2) = Some "abc"
  /\ session_strs w2 !! "oauth_state" = None
  /\ session_strs w2 !! "oauth_verifier" = None.
Proof. repeat split; vm_compute; reflexivity. Qed.

End RoutesFacts.

(** ** More on the WAV codec *)

Module WavMore.
Import Bytes Wav WavTerms BytesFacts WavFacts.

Lemma pcm16_to_wav_synthesized pcm rate ch :
  pcm <> [] -> fields_fit pcm rate ch ->
  pcm16_to_wav pcm rate ch = Ok (synthesized pcm rate ch).
Proof.
  intros Hne Hfit. rewrite pcm16_to_wav_fits by assumption. reflexivity.
Qed.

Lemma parse_synthesized pcm rate ch :
  fields_fit pcm rate ch ->
  let w := synthesized pcm rate ch in
  is_wav w = true
  /\ length w = (44 + length pcm)%nat
  /\ parse_wav_details w =
     Some (check_scan w
             {| i := 44 + (Z.of_nat (length pcm) + Z.of_nat (length pcm) mod 2);
                fmt_found := true; data_found := true;
                sample_rate := rate; channels := ch; audio_format := 1;
                bits_per_sample := 16; data_offset := 44;
                data_size := Z.of_nat (length pcm) |})
  /\ find_data_size (length w) w 12 = Some (Some (Z.of_nat (length pcm)))
  /\ slice w 44 (44 + Z.of_nat (length pcm)) = pcm.
Proof.
  intros (Hlen & Hch0 & Hch & Hrate & Hbr) w. subst w. unfold synthesized.
  set (n := Z.of_nat (length pcm)) in *.
  assert (0 <= n) by (subst n; lia).
  assert (Hn : int_from_bytes_little (le_bytes 4 n) = n)
    by (apply int_from_le_bytes_4; lia).
  assert (Hfit : int_from_bytes_little (le_bytes 4 n)
                 <= Z.of_nat (length pcm)) by (rewrite Hn; subst n; lia).
  split; [apply is_wav_canonical; apply length_le_bytes|].
  split; [apply length_canonical_wav; apply length_le_bytes|].
  split; [|split].
  - rewrite parse_wav_details_canonical
      by (assumption || apply length_le_bytes).
    unfold canonical_final. rewrite Hn.
    rewrite (int_from_le_bytes_4 rate) by lia.
    rewrite (int_from_le_bytes_2 ch) by lia.
    reflexivity.
  - rewrite find_data_size_canonical
      by (assumption || apply length_le_bytes).
    rewrite Hn. reflexivity.
  - replace (44 + n) with (44 + int_from_bytes_little (le_bytes 4 n))
      by (rewrite Hn; reflexivity).
    rewrite slice_payload_canonical by apply length_le_bytes.
    rewrite Hn. subst n. rewrite Nat2Z.id. apply firstn_all.
Qed.

(** X1.  The round trip for every payload and both channel counts: for a
    non-empty payload (of any length, odd ones too) short enough for the
    RIFF size, one or two channels and a rate in (0, 192000],
    [extract_wav_pcm16] of [pcm16_to_wav pcm rate ch] returns the payload,
    the rate and the channel count, and [parse_wav_info] the last two. *)
Theorem synthesize_extract_roundtrip (pcm : list byte) (rate ch : Z) :
  pcm <> [] ->
  36 + Z.of_nat (length pcm) < 2 ^ 32 ->
  0 < rate <= 192000 ->
  ch = 1 \/ ch = 2 ->
  exists w,
    pcm16_to_wav pcm rate ch = Ok w
    /\ extract_wav_pcm16 w = Some (Ok (pcm, rate, ch))
    /\ parse_wav_info w = Some (Ok (rate, ch)).
Proof.
  intros Hne Hlen Hrate Hch.
  assert (Hfit : fields_fit pcm rate ch) by (unfold fields_fit; lia).
  exists (synthesized pcm rate ch).
  split; [apply pcm16_to_wav_synthesized; assumption|].
  destruct (parse_synthesized pcm rate ch Hfit)
    as (_ & Hl & Hp & Hfind & Hslice).
  rewrite check_scan_Ok in Hp;
    cbn [fmt_found data_found audio_format sample_rate channels
         bits_per_sample data_offset data_size] in *;
    try reflexivity; try lia.
  - split.
    + unfold extract_wav_pcm16. rewrite Hp.
      change (negb (bool_decide (1 ∈ [1; 65534]))) with false.
      change (negb (16 =? 16)) with false. cbn match.
      rewrite Hfind, Hslice. destruct pcm; [congruence|reflexivity].
    + unfold parse_wav_info. rewrite Hp. reflexivity.
  - apply elem_of_cons. left. reflexivity.
Qed.

Lemma synthesize_extract_roundtrip_witness :
  exists w,
    pcm16_to_wav [x01; x02; x03] 44100 2 = Ok w
    /\ extract_wav_pcm16 w = Some (Ok ([x01; x02; x03], 44100, 2))
    /\ parse_wav_info w = Some (Ok (44100, 2)).
Proof.
  apply (synthesize_extract_roundtrip [x01; x02; x03] 44100 2).
  - discriminate.
  - cbn. lia.
  - lia.
  - right. reflexivity.
Defined.

(** X2.  [pcm16_to_wav] writes files that the parser of the same program
    rejects: with fields that fit, a sample rate of 0 or above 192000 gives
    "Unreasonable WAV sample rate", and otherwise a channel count of 0 or
    above 2 gives "Unsupported channel count". *)
Theorem synthesized_but_rejected (pcm : list byte) (rate ch : Z) :
  pcm <> [] -> fields_fit pcm rate ch ->
  (rate = 0 \/ 192000 < rate ->
   exists w,
     pcm16_to_wav pcm rate ch = Ok w
     /\ extract_wav_pcm16 w =
        Some (Raise (ValueError ("Unreasonable WAV sample rate: "
                                 +:+ pretty rate))))
  /\ (0 < rate <= 192000 -> ch = 0 \/ 2 < ch ->
      exists w,
        pcm16_to_wav pcm rate ch = Ok w
        /\ extract_wav_pcm16 w =
           Some (Raise (ValueError ("Unsupported channel count: "
                                    +:+ pretty ch)))).
Proof.
  intros Hne Hfit.
  pose proof (pcm16_to_wav_synthesized pcm rate ch Hne Hfit) as Hw.
  destruct (parse_synthesized pcm rate ch Hfit) as (_ & _ & Hp & _).
  split.
  - intros Hbad. exists (synthesized pcm rate ch). split; [exact Hw|].
    unfold extract_wav_pcm16. rewrite Hp. unfold check_scan.
    cbn [fmt_found data_found audio_format sample_rate negb orb].
    change (negb (bool_decide (1 ∈ [1; 3; 65534]))) with false. cbn match.
    destruct (Z.leb_spec rate 0); [reflexivity|].
    destruct (Z.ltb_spec 192000 rate); [reflexivity|lia].
  - intros Hrate Hbad. exists (synthesized pcm rate ch).
    split; [exact Hw|].
    unfold extract_wav_pcm16. rewrite Hp. unfold check_scan.
    cbn [fmt_found data_found audio_format sample_rate channels negb orb].
    change (negb (bool_decide (1 ∈ [1; 3; 65534]))) with false. cbn match.
    destruct (Z.leb_spec rate 0); [lia|].
    destruct (Z.ltb_spec 192000 rate); [lia|]. cbn [orb].
    destruct (Z.leb_spec ch 0); [reflexivity|].
    destruct (Z.ltb_spec 2 ch); [reflexivity|lia].
Qed.

Lemma synthesized_but_rejected_witness :
  (exists w,
     pcm16_to_wav sample_pcm 200000 1 = Ok w
     /\ extract_wav_pcm16 w =
        Some (Raise (ValueError ("Unreasonable WAV sample rate: "
                                 +:+ pretty 200000))))
  /\ (exists w,
        pcm16_to_wav sample_pcm 24000 6 = Ok w
        /\ extract_wav_pcm16 w =
           Some (Raise (ValueError ("Unsupported channel count: "
                                    +:+ pretty 6)))).
Proof.
  split.
  - apply (proj1 (synthesized_but_rejected sample_pcm 200000 1
                    ltac:(discriminate) ltac:(unfold fields_fit; cbn; lia))).
    right. lia.
  - apply (proj2 (synthesized_but_rejected sample_pcm 24000 6
                    ltac:(discriminate) ltac:(unfold fields_fit; cbn; lia))).
    + lia.
    + right. lia.
Defined.

(** X3.  On every byte sequence both loops end within the fuel they are
    given, and [extract_wav_pcm16] either returns a result or raises
    [ValueError]: a malformed upload never produces another exception. *)
Theorem extract_returns_or_ValueError (wav : list byte) :
  (exists pcm sr ch, extract_wav_pcm16 wav = Some (Ok (pcm, sr, ch)))
  \/ (exists msg, extract_wav_pcm16 wav = Some (Raise (ValueError msg))).
Proof.
  unfold extract_wav_pcm16.
  destruct (parse_wav_details_total wav) as [[[[[[sr ch] bps] fmt] off]|e] Hp].
  2:{ right. rewrite Hp.
      apply parse_wav_details_raises in Hp as [msg ->]. eauto. }
  rewrite Hp.
  destruct (negb (bool_decide _)); [right; eauto|].
  destruct (negb (_ =? _)); [right; eauto|].
  destruct (find_data_size_enough (length wav) wav 12) as [[sz|] ->];
    [lia| |right; eauto].
  destruct (slice _ _ _); [right|left]; eauto.
Qed.

(** *** Where the parsed fields come from *)

Lemma scan_advance_eq st sz st' :
  scan_advance st sz = Continue st' \/ scan_advance st sz = Break st' ->
  st' = set_i st (i st + (sz + sz mod 2)).
Proof.
  unfold scan_advance.
  destruct (fmt_found _ && data_found _); intros [H|H];
    inversion H; reflexivity.
Qed.

(** One completed pass of the body, by kind of chunk. *)
Lemma scan_chunk_step wav st st' :
  scan_chunk wav st = Continue st' \/ scan_chunk wav st = Break st' ->
  let p := i st in
  let sz := chunk_size_at wav p in
  let next := p + 8 + (sz + sz mod 2) in
  (Z.of_nat (length wav) < p + 8 + sz /\ st' = set_i st (p + 8)
   /\ scan_chunk wav st = Break st')
  \/ (p + 8 + sz <= Z.of_nat (length wav)
      /\ ((chunk_id_at wav p = fmt_ /\ 16 <= sz
           /\ st' = set_i (set_fmt (set_i st (p + 8))
                             (_read_u16_le wav (p + 8))
                             (_read_u16_le wav (p + 8 + 2))
                             (_read_u32_le wav (p + 8 + 4))
                             (_read_u16_le wav (p + 8 + 14))) next)
          \/ (chunk_id_at wav p = data
              /\ st' = set_i (set_data (set_i st (p + 8)) (p + 8) sz) next)
          \/ (chunk_id_at wav p <> fmt_ /\ chunk_id_at wav p <> data
              /\ st' = set_i (set_i st (p + 8)) next))).
Proof.
  intros H p sz next. subst p sz next.
  destruct (Z.lt_ge_cases (Z.of_nat (length wav))
              (i st + 8 + chunk_size_at wav (i st))) as [Hcut|Hfit].
  { left. pose proof (scan_chunk_truncated wav st Hcut) as Hb.
    rewrite Hb in H. split; [assumption|].
    destruct H as [H|H]; inversion H. subst st'. split; [reflexivity|].
    exact Hb. }
  right. split; [assumption|].
  destruct (decide (chunk_id_at wav (i st) = fmt_)) as [Hf|Hf].
  { destruct (Z.lt_ge_cases (chunk_size_at wav (i st)) 16) as [Hs|Hs].
    { rewrite scan_chunk_fmt_short in H by assumption.
      destruct H; discriminate. }
    left. rewrite scan_chunk_fmt in H by assumption.
    apply scan_advance_eq in H. cbn [i set_i set_fmt] in H.
    repeat split; assumption. }
  destruct (decide (chunk_id_at wav (i st) = data)) as [Hd|Hd].
  { right; left. rewrite scan_chunk_data in H by assumption.
    apply scan_advance_eq in H. cbn [i set_i set_data] in H.
    split; assumption. }
  right; right. rewrite scan_chunk_other in H by assumption.
  apply scan_advance_eq in H. cbn [i set_i] in H. repeat split; assumption.
Qed.

Lemma read_from_chunks_step wav st st' :
  visits wav st -> read_from_chunks wav st ->
  scan_chunk wav st = Continue st' \/ scan_chunk wav st = Break st' ->
  read_from_chunks wav st'.
Proof.
  intros Hv [Hf Hd] Hs.
  assert (Hon : on_chain wav (i st)) by (exists st; split; trivial).
  apply scan_chunk_step in Hs. cbv zeta in Hs.
  destruct Hs as [(_ & -> & _)|(Hfit & [(Hid & Hsz & ->)|[(Hid & ->)|(_ & _ & ->)]])];
    split; cbn [fmt_found data_found set_i set_fmt set_data]; intros H.
  - destruct (Hf H) as [p Hp]. exists p. exact Hp.
  - destruct (Hd H) as [q Hq]. exists q. exact Hq.
  - exists (i st). unfold fmt_read_at.
    cbn [audio_format channels sample_rate bits_per_sample set_i set_fmt].
    replace (i st + 10) with (i st + 8 + 2) by lia.
    replace (i st + 12) with (i st + 8 + 4) by lia.
    replace (i st + 22) with (i st + 8 + 14) by lia.
    repeat split; assumption.
  - destruct (Hd H) as [q Hq]. exists q. exact Hq.
  - destruct (Hf H) as [p Hp]. exists p. exact Hp.
  - exists (i st). unfold data_read_at.
    cbn [data_offset data_size set_i set_data].
    repeat split; assumption.
  - destruct (Hf H) as [p Hp]. exists p. exact Hp.
  - destruct (Hd H) as [q Hq]. exists q. exact Hq.
Qed.

Lemma visits_read_from_chunks wav st :
  visits wav st -> read_from_chunks wav st.
Proof.
  induction 1 as [|st st' Hv IH _ Hs].
  - split; discriminate.
  - apply (read_from_chunks_step wav st st' Hv IH). left. exact Hs.
Qed.

(** How the loop ends: by its test, or by a [break]. *)
Lemma scan_chunks_cases fuel wav st st' :
  visits wav st -> scan_chunks fuel wav st = Some (Ok st') ->
  (visits wav st' /\ Z.of_nat (length wav) < i st' + 8)
  \/ exists st0, visits wav st0 /\ i st0 + 8 <= Z.of_nat (length wav)
                 /\ scan_chunk wav st0 = Break st'.
Proof.
  revert st. induction fuel as [|fuel IH]; intros st Hv; cbn [scan_chunks];
    destruct (Z.leb_spec (i st + 8) (Z.of_nat (length wav))) as [Hg|Hg];
    try discriminate;
    try (intros [= <-]; left; split; [assumption|lia]).
  destruct (scan_chunk wav st) as [st1|st1|e] eqn:E; try discriminate.
  - apply IH. apply (visits_step wav st st1); assumption.
  - intros [= <-]. right. exists st. auto.
Qed.

Lemma scan_read_from_chunks wav st :
  scan wav = Some (Ok st) -> read_from_chunks wav st.
Proof.
  intros H. apply scan_chunks_cases in H; [|constructor].
  destruct H as [[Hv _]|(st0 & Hv & _ & Hb)].
  - apply visits_read_from_chunks, Hv.
  - apply (read_from_chunks_step wav st0 st Hv);
      [apply visits_read_from_chunks, Hv|right; exact Hb].
Qed.

(** X4.  Whatever [parse_wav_details] returns was read from chunks of the
    buffer: the format tag, channel count, sample rate and bits per sample
    are the fields of a ["fmt "] chunk of at least 16 bytes, and the data
    offset is the payload start of a ["data"] chunk; both chunks are on the
    walk from offset 12 and lie within the buffer. *)
Theorem parsed_fields_come_from_chunks (wav : list byte)
    (sr ch bps fmt off : Z) :
  parse_wav_details wav = Some (Ok (sr, ch, bps, fmt, off)) ->
  exists p q,
    (on_chain wav p
     /\ chunk_id_at wav p = fmt_
     /\ 16 <= chunk_size_at wav p
     /\ p + 8 + chunk_size_at wav p <= Z.of_nat (length wav)
     /\ fmt = _read_u16_le wav (p + 8)
     /\ ch = _read_u16_le wav (p + 10)
     /\ sr = _read_u32_le wav (p + 12)
     /\ bps = _read_u16_le wav (p + 22))
    /\ (on_chain wav q
        /\ chunk_id_at wav q = data
        /\ off = q + 8
        /\ q + 8 + chunk_size_at wav q <= Z.of_nat (length wav)).
Proof.
  intros H. apply parse_wav_details_inv in H as (_ & st & Hscan & Hc).
  apply check_scan_inv in Hc
    as ((-> & -> & -> & -> & ->) & Hf & Hd & _).
  destruct (scan_read_from_chunks wav st Hscan) as [Hfmt Hdata].
  destruct (Hfmt Hf) as [p Hp]. destruct (Hdata Hd) as [q Hq].
  exists p, q. unfold fmt_read_at in Hp. unfold data_read_at in Hq.
  split; [exact Hp|]. tauto.
Qed.

Lemma parsed_fields_come_from_chunks_witness :
  exists p q,
    (on_chain wav_with_list p
     /\ chunk_id_at wav_with_list p = fmt_
     /\ 16 <= chunk_size_at wav_with_list p
     /\ p + 8 + chunk_size_at wav_with_list p
        <= Z.of_nat (length wav_with_list)
     /\ 1 = _read_u16_le wav_with_list (p + 8)
     /\ 1 = _read_u16_le wav_with_list (p + 10)
     /\ 24000 = _read_u32_le wav_with_list (p + 12)
     /\ 16 = _read_u16_le wav_with_list (p + 22))
    /\ (on_chain wav_with_list q
        /\ chunk_id_at wav_with_list q = data
        /\ 56 = q + 8
        /\ q + 8 + chunk_size_at wav_with_list q
           <= Z.of_nat (length wav_with_list)).
Proof.
  apply (parsed_fields_come_from_chunks wav_with_list 24000 1 16 1 56).
  vm_compute. reflexivity.
Defined.

(** *** Which payload [extract_wav_pcm16] returns *)

Lemma find_data_size_more fuel fuel' wav off r :
  find_data_size fuel wav off = Some r -> (fuel <= fuel')%nat ->
  find_data_size fuel' wav off = Some r.
Proof.
  revert fuel' off. induction fuel as [|fuel IH]; intros fuel' off;
    cbn [find_data_size].
  - destruct fuel'; cbn [find_data_size];
      destruct (off + 8 <=? Z.of_nat (length wav)); congruence.
  - intros H Hle. destruct fuel' as [|fuel']; [lia|]. cbn [find_data_size].
    destruct (off + 8 <=? Z.of_nat (length wav)); [|assumption].
    cbv zeta in *.
    destruct (_ <? _); [assumption|].
    destruct (bytes_eqb _ _); [assumption|].
    apply IH; [assumption|lia].
Qed.

Lemma find_data_size_agree fuel fuel' wav off r r' :
  find_data_size fuel wav off = Some r ->
  find_data_size fuel' wav off = Some r' -> r = r'.
Proof.
  intros H H'.
  apply (find_data_size_more _ (Nat.max fuel fuel')) in H; [|lia].
  apply (find_data_size_more _ (Nat.max fuel fuel')) in H'; [|lia].
  congruence.
Qed.

(** While the first loop has seen no [data] chunk, the second loop runs
    through the same chunk headers. *)
Lemma find_data_size_from_visited wav st :
  visits wav st -> data_found st = false ->
  forall fuel r,
    find_data_size fuel wav (i st) = Some r ->
    find_data_size (length wav) wav 12 = Some r.
Proof.
  induction 1 as [|st st' Hv IH Hg Hs]; intros Hnd fuel r Hr.
  - destruct (find_data_size_enough (length wav) wav 12) as [r' Hr'];
      [lia|].
    rewrite Hr'. f_equal. symmetry.
    exact (find_data_size_agree _ _ _ _ _ _ Hr Hr').
  - pose proof (scan_chunk_step wav st st' (or_introl Hs)) as Hc.
    cbv zeta in Hc.
    destruct Hc as [(_ & _ & Hb)|(Hfit & [(Hid & _ & ->)|[(_ & ->)|(_ & Hid & ->)]])].
    + congruence.
    + cbn [i data_found set_i set_fmt] in *.
      apply (IH Hnd (S fuel)). rewrite find_data_size_skip; [exact Hr|lia|].
      rewrite Hid. discriminate.
    + discriminate.
    + cbn [i data_found set_i] in *.
      apply (IH Hnd (S fuel)).
      rewrite find_data_size_skip; [exact Hr|lia|exact Hid].
Qed.

Lemma length_slice_fits {A} (l : list A) lo n :
  0 <= lo -> 0 <= n -> lo + n <= Z.of_nat (length l) ->
  length (slice l lo (lo + n)) = Z.to_nat n.
Proof.
  intros. unfold slice. rewrite length_firstn, length_skipn. lia.
Qed.

Lemma extract_from_scan wav st sz :
  is_wav wav = true ->
  scan wav = Some (Ok st) ->
  fmt_found st = true -> data_found st = true ->
  audio_format st = 1 \/ audio_format st = 65534 ->
  bits_per_sample st = 16 ->
  channels st = 1 \/ channels st = 2 ->
  0 < sample_rate st <= 192000 ->
  0 <= data_offset st ->
  data_offset st + data_size st <= Z.of_nat (length wav) ->
  find_data_size (length wav) wav 12 = Some (Some sz) ->
  slice wav (data_offset st) (data_offset st + sz) <> [] ->
  extract_wav_pcm16 wav =
  Some (Ok (slice wav (data_offset st) (data_offset st + sz),
            sample_rate st, channels st)).
Proof.
  intros Hwav Hscan Hf Hd Hfmt Hbps Hch Hsr Hoff Hfit Hfind Hne.
  assert (Hp : parse_wav_details wav =
               Some (Ok (sample_rate st, channels st, 16, audio_format st,
                         data_offset st))).
  { unfold parse_wav_details. rewrite Hwav, Hscan. cbn [negb]. f_equal.
    rewrite check_scan_Ok; try assumption; try lia.
    - rewrite Hbps. reflexivity.
    - destruct Hfmt as [-> | ->]; [apply elem_of_cons; left; reflexivity|].
      do 2 (apply elem_of_cons; right). apply elem_of_cons. left. reflexivity.
  }
  unfold extract_wav_pcm16. rewrite Hp.
  replace (negb (bool_decide (audio_format st ∈ [1; 65534]))) with false.
  2:{ symmetry. apply negb_false_iff, bool_decide_eq_true.
      destruct Hfmt as [-> | ->]; [apply elem_of_cons; left; reflexivity|].
      apply elem_of_cons; right. apply elem_of_cons. left. reflexivity. }
  change (negb (16 =? 16)) with false. cbn match. rewrite Hfind.
  destruct (slice wav (data_offset st) (data_offset st + sz));
    [congruence|reflexivity].
Qed.

(** X5.  A file in which the walk reaches a ["data"] chunk after a ["fmt "]
    chunk and before any other ["data"] chunk, the recorded format being
    PCM (tag 1 or 65534) with 16 bits, one or two channels and a rate in
    (0, 192000], and the chunk non-empty and within the buffer:
    [extract_wav_pcm16] returns exactly that chunk's payload with the
    recorded rate and channel count, whatever chunks come before or
    after. *)
Theorem extract_returns_data_payload (wav : list byte) (st : scan_state) :
  is_wav wav = true ->
  visits wav st ->
  fmt_found st = true ->
  chunk_id_at wav (i st) = data ->
  0 < chunk_size_at wav (i st) ->
  i st + 8 + chunk_size_at wav (i st) <= Z.of_nat (length wav) ->
  audio_format st = 1 \/ audio_format st = 65534 ->
  bits_per_sample st = 16 ->
  channels st = 1 \/ channels st = 2 ->
  0 < sample_rate st <= 192000 ->
  extract_wav_pcm16 wav =
  Some (Ok (slice wav (i st + 8) (i st + 8 + chunk_size_at wav (i st)),
            sample_rate st, channels st)).
Proof.
  intros Hwav Hv Hf Hid Hpos Hfit Hfmt Hbps Hch Hsr.
  pose proof (visits_i_ge wav st Hv) as Hi.
  pose proof (visits_not_both wav st Hv) as Hnb.
  rewrite Hf in Hnb. cbn [andb] in Hnb.
  set (sz := chunk_size_at wav (i st)) in *.
  set (final := set_i (set_data (set_i st (i st + 8)) (i st + 8) sz)
                  (i st + 8 + (sz + sz mod 2))).
  assert (Hb : scan_chunk wav st = Break final).
  { rewrite scan_chunk_data by assumption. unfold scan_advance.
    cbn [fmt_found data_found set_i set_data]. rewrite Hf. reflexivity. }
  assert (Hscan : scan wav = Some (Ok final))
    by (apply (visits_Break wav st final Hv); [lia|exact Hb]).
  assert (Hfind : find_data_size (length wav) wav 12 = Some (Some sz)).
  { apply (find_data_size_from_visited wav st Hv Hnb 1).
    apply find_data_size_hit; assumption. }
  apply (extract_from_scan wav final sz); try assumption;
    subst final; cbn [fmt_found data_found audio_format sample_rate
                      channels bits_per_sample data_offset data_size
                      set_i set_data]; try assumption; try reflexivity;
    try lia.
  intros Hnil.
  pose proof (length_slice_fits wav (i st + 8) sz ltac:(lia) ltac:(lia)
                ltac:(lia)) as Hlen.
  rewrite Hnil in Hlen. cbn [length] in Hlen. lia.
Qed.

Lemma extract_returns_data_payload_witness :
  extract_wav_pcm16 wav_with_list =
  Some (Ok (slice wav_with_list (i wav_with_list_at_data + 8)
              (i wav_with_list_at_data + 8
               + chunk_size_at wav_with_list (i wav_with_list_at_data)),
            sample_rate wav_with_list_at_data,
            channels wav_with_list_at_data)).
Proof.
  apply (extract_returns_data_payload wav_with_list wav_with_list_at_data).
  - vm_compute. reflexivity.
  - apply (visits_step _ (set_i scan_init 24)).
    + apply (visits_step _ scan_init).
      * constructor.
      * vm_compute. discriminate.
      * vm_compute. reflexivity.
    + vm_compute. discriminate.
    + vm_compute. reflexivity.
  - reflexivity.
  - vm_compute. reflexivity.
  - vm_compute. reflexivity.
  - vm_compute. discriminate.
  - left. reflexivity.
  - reflexivity.
  - left. reflexivity.
  - cbn. lia.
Defined.

(** *** Two [data] chunks before the [fmt ] chunk *)

Lemma slice_at {A} (pre l : list A) p k n :
  Z.of_nat (length pre) = p -> 0 <= k ->
  slice (pre ++ l) (p + k) (p + k + n) = slice l k (k + n).
Proof.
  intros <- Hk. unfold slice.
  replace (Z.of_nat (length pre) + k + n - (Z.of_nat (length pre) + k))
    with (k + n - k) by lia.
  f_equal. rewrite skipn_app.
  rewrite skipn_all2 by lia. cbn [app]. f_equal. lia.
Qed.

Lemma Even_mod2 n : Nat.Even n -> Z.of_nat n mod 2 = 0.
Proof.
  intros [k ->]. rewrite Nat2Z.inj_mul, Z.mul_comm. apply Z_mod_mult.
Qed.

Section TwoData.
Variables a b : list byte.
Hypothesis a_fits : Z.of_nat (length a) < 2 ^ 32.
Hypothesis b_fits : Z.of_nat (length b) < 2 ^ 32.
Hypothesis a_even : Nat.Even (length a).
Hypothesis b_even : Nat.Even (length b).
Let la := Z.of_nat (length a).
Let lb := Z.of_nat (length b).
Let wav := two_data_wav a b.
Let head := RIFF ++ le_bytes 4 (44 + la + lb) ++ WAVE.
Let upto_a := head ++ data ++ le_bytes 4 la ++ a.
Let upto_b := upto_a ++ data ++ le_bytes 4 lb ++ b.

Lemma two_data_split_a :
  wav = head ++ data ++ le_bytes 4 la ++ a
        ++ data ++ le_bytes 4 lb ++ b ++ fmt_chunk_mono.
Proof. reflexivity. Qed.

Lemma two_data_split_b :
  wav = upto_a ++ data ++ le_bytes 4 lb ++ b ++ fmt_chunk_mono.
Proof.
  subst upto_a. rewrite two_data_split_a.
  rewrite <- !app_assoc. reflexivity.
Qed.

Lemma two_data_split_fmt : wav = upto_b ++ fmt_chunk_mono.
Proof.
  subst upto_b. rewrite two_data_split_b.
  rewrite <- !app_assoc. reflexivity.
Qed.

Lemma length_head : Z.of_nat (length head) = 12.
Proof. reflexivity. Qed.

Lemma length_upto_a : Z.of_nat (length upto_a) = 20 + la.
Proof.
  subst upto_a head la. rewrite !length_app, !length_le_bytes.
  cbn [length RIFF WAVE data]. lia.
Qed.

Lemma length_upto_b : Z.of_nat (length upto_b) = 28 + la + lb.
Proof.
  subst upto_b. rewrite length_app, Nat2Z.inj_add, length_upto_a.
  subst lb. rewrite !length_app, !length_le_bytes. cbn [length data]. lia.
Qed.

Lemma length_two_data : Z.of_nat (length wav) = 52 + la + lb.
Proof.
  rewrite two_data_split_fmt, length_app, Nat2Z.inj_add, length_upto_b.
  change (Z.of_nat (length fmt_chunk_mono)) with 24. lia.
Qed.

(** The bytes at [k .. k + n) after a prefix of length [p]. *)
Lemma two_data_header pre id v tail p :
  wav = pre ++ id ++ le_bytes 4 v ++ tail ->
  Z.of_nat (length pre) = p -> length id = 4%nat -> 0 <= v < 2 ^ 32 ->
  chunk_id_at wav p = id /\ chunk_size_at wav p = v.
Proof.
  intros -> Hp Hid Hv. unfold chunk_id_at, chunk_size_at, _read_u32_le.
  split.
  - rewrite <- (Z.add_0_r p) at 1 2. rewrite (slice_at pre _ p 0 4 Hp) by lia.
    unfold slice. change (Z.to_nat 0) with 0%nat.
    change (Z.to_nat (0 + 4 - 0)) with 4%nat. rewrite skipn_O.
    apply take_app_length'. symmetry. exact Hid.
  - replace (p + 4 + 4) with (p + 4 + 0 + 4) by lia.
    replace (p + 4) with (p + 4 + 0) at 1 by lia. rewrite app_assoc.
    rewrite (slice_at (pre ++ id) _ (p + 4) 0 4)
      by (rewrite ?length_app; lia).
    unfold slice. change (Z.to_nat 0) with 0%nat.
    change (Z.to_nat (0 + 4 - 0)) with 4%nat. rewrite skipn_O.
    rewrite take_app_length' by (symmetry; apply length_le_bytes).
    apply int_from_le_bytes_4. exact Hv.
Qed.

Let s1 : scan_state :=
  {| i := 20 + la; fmt_found := false; data_found := true;
     sample_rate := 0; channels := 0; audio_format := 0;
     bits_per_sample := 0; data_offset := 20; data_size := la |}.
Let s2 : scan_state :=
  {| i := 28 + la + lb; fmt_found := false; data_found := true;
     sample_rate := 0; channels := 0; audio_format := 0;
     bits_per_sample := 0; data_offset := 28 + la; data_size := lb |}.
Let final : scan_state :=
  {| i := 52 + la + lb; fmt_found := true; data_found := true;
     sample_rate := 24000; channels := 1; audio_format := 1;
     bits_per_sample := 16; data_offset := 28 + la; data_size := lb |}.

Lemma two_data_first :
  chunk_id_at wav 12 = data /\ chunk_size_at wav 12 = la.
Proof.
  apply (two_data_header head data la _ 12 two_data_split_a);
    [reflexivity|reflexivity|subst la; lia].
Qed.

Lemma two_data_second :
  chunk_id_at wav (20 + la) = data /\ chunk_size_at wav (20 + la) = lb.
Proof.
  apply (two_data_header upto_a data lb _ _ two_data_split_b);
    [apply length_upto_a|reflexivity|subst lb; lia].
Qed.

Lemma two_data_third :
  chunk_id_at wav (28 + la + lb) = fmt_
  /\ chunk_size_at wav (28 + la + lb) = 16.
Proof.
  apply (two_data_header upto_b fmt_ 16 _ _ two_data_split_fmt);
    [apply length_upto_b|reflexivity|lia].
Qed.

Lemma two_data_field k n :
  0 <= k ->
  slice wav (28 + la + lb + k) (28 + la + lb + k + n)
  = slice fmt_chunk_mono k (k + n).
Proof.
  intros Hk. rewrite two_data_split_fmt.
  apply slice_at; [apply length_upto_b|exact Hk].
Qed.

Lemma two_data_scan : scan wav = Some (Ok final).
Proof.
  pose proof length_two_data as Hlen.
  pose proof (Even_mod2 _ a_even) as Ha. fold la in Ha.
  pose proof (Even_mod2 _ b_even) as Hb. fold lb in Hb.
  destruct two_data_first as [Hid1 Hsz1].
  destruct two_data_second as [Hid2 Hsz2].
  destruct two_data_third as [Hid3 Hsz3].
  assert (0 <= la) by (subst la; lia).
  assert (0 <= lb) by (subst lb; lia).
  assert (Hv1 : visits wav s1).
  { apply (visits_step wav scan_init); [constructor|cbn [i scan_init]; lia|].
    rewrite scan_chunk_data;
      cbn [i scan_init]; rewrite ?Hsz1; [|lia|exact Hid1].
    unfold scan_advance. cbn. rewrite Ha, Z.add_0_r. reflexivity. }
  assert (Hv2 : visits wav s2).
  { apply (visits_step wav s1); [exact Hv1|cbn [i s1]; lia|].
    rewrite scan_chunk_data;
      cbn [i s1]; rewrite ?Hsz2; [|lia|exact Hid2].
    unfold scan_advance. cbn. rewrite Hb, Z.add_0_r.
    replace (20 + la + 8) with (28 + la) by lia.
    replace (28 + la + lb) with (28 + la + lb) by lia. reflexivity. }
  apply (visits_Break wav s2 final Hv2); [cbn [i s2]; lia|].
  rewrite scan_chunk_fmt; cbn [i s2]; rewrite ?Hsz3; [|lia|exact Hid3|lia].
  unfold _read_u16_le, _read_u32_le.
  replace (28 + la + lb + 8 + 2 + 2) with (28 + la + lb + 10 + 2) by lia.
  replace (28 + la + lb + 8 + 2) with (28 + la + lb + 10) by lia.
  replace (28 + la + lb + 8 + 4 + 4) with (28 + la + lb + 12 + 4) by lia.
  replace (28 + la + lb + 8 + 4) with (28 + la + lb + 12) by lia.
  replace (28 + la + lb + 8 + 14 + 2) with (28 + la + lb + 22 + 2) by lia.
  replace (28 + la + lb + 8 + 14) with (28 + la + lb + 22) by lia.
  rewrite !two_data_field by lia.
  replace (slice wav (28 + la + lb + 8) (28 + la + lb + 10))
    with (slice fmt_chunk_mono 8 (8 + 2))
    by (rewrite <- two_data_field by lia; f_equal; lia).
  change (int_from_bytes_little (slice fmt_chunk_mono 8 (8 + 2))) with 1.
  change (int_from_bytes_little (slice fmt_chunk_mono 10 (10 + 2))) with 1.
  change (int_from_bytes_little (slice fmt_chunk_mono 12 (12 + 4)))
    with 24000.
  change (int_from_bytes_little (slice fmt_chunk_mono 22 (22 + 2))) with 16.
  unfold scan_advance. subst s2 final.
  unfold set_i, set_fmt.
  cbn [fmt_found data_found i andb sample_rate channels
       audio_format bits_per_sample data_offset data_size].
  replace (28 + la + lb + 8 + (16 + 16 mod 2)) with (52 + la + lb)
    by (change (16 mod 2) with 0; lia).
  reflexivity.
Qed.

Lemma two_data_payload :
  slice wav (28 + la) (28 + la + la) = firstn (length a) (b ++ fmt_chunk_mono).
Proof.
  assert (E : wav = (upto_a ++ data ++ le_bytes 4 lb)
                    ++ b ++ fmt_chunk_mono).
  { rewrite two_data_split_b. rewrite <- !app_assoc. reflexivity. }
  rewrite E.
  replace (28 + la + la) with (28 + la + 0 + la) by lia.
  replace (28 + la) with (28 + la + 0) at 1 by lia.
  rewrite slice_at; [|rewrite !length_app, !Nat2Z.inj_add, length_upto_a,
                       length_le_bytes; cbn [length data]; lia|lia].
  unfold slice. cbn [skipn Z.to_nat].
  replace (0 + la - 0) with la by lia. subst la. rewrite Nat2Z.id.
  reflexivity.
Qed.

Lemma two_data_is_wav : is_wav wav = true.
Proof.
  unfold is_wav. rewrite length_two_data.
  assert (0 <= la) by (subst la; lia).
  assert (0 <= lb) by (subst lb; lia).
  destruct (Z.leb_spec 12 (52 + la + lb)); [|lia]. reflexivity.
Qed.

End TwoData.

(** X6.  The two loops of [extract_wav_pcm16] can disagree.  In a file with
    two ["data"] chunks (payloads [a] and [b], of even lengths) before its
    ["fmt "] chunk, the offset is that of the second chunk and the size that
    of the first: the result is the first [len a] bytes of [b] followed by
    the ["fmt "] chunk, so [b] is cut short when it is longer than [a] and
    followed by header bytes when it is shorter. *)
Theorem extract_two_data_chunks (a b : list byte) :
  a <> [] ->
  Z.of_nat (length a) < 2 ^ 32 ->
  Z.of_nat (length b) < 2 ^ 32 ->
  Nat.Even (length a) -> Nat.Even (length b) ->
  extract_wav_pcm16 (two_data_wav a b) =
  Some (Ok (firstn (length a) (b ++ fmt_chunk_mono), 24000, 1)).
Proof.
  intros Hne Ha Hb Hae Hbe.
  pose proof (two_data_scan a b Ha Hb Hae Hbe) as Hscan.
  pose proof (two_data_payload a b) as Hpay.
  pose proof (length_two_data a b) as Hlen.
  destruct (two_data_first a b Ha) as [Hid Hsz].
  cbv zeta in *.
  rewrite <- Hpay.
  match type of Hscan with
  | _ = Some (Ok ?st) =>
    apply (extract_from_scan (two_data_wav a b) st (Z.of_nat (length a)))
  end;
    [apply two_data_is_wav|exact Hscan|..];
    cbn [fmt_found data_found audio_format sample_rate channels
         bits_per_sample data_offset data_size];
    try reflexivity; try lia; try (left; reflexivity).
  - rewrite <- Hsz. apply (find_data_size_hit _ _ 12); [|exact Hid].
    rewrite Hsz. lia.
  - rewrite Hpay. destruct a as [|x a']; [congruence|].
    destruct b; discriminate.
Qed.

Lemma extract_two_data_chunks_witness :
  extract_wav_pcm16 (two_data_wav [x01; x02; x03; x04] [x05; x06]) =
  Some (Ok (firstn (length [x01; x02; x03; x04])
              ([x05; x06] ++ fmt_chunk_mono), 24000, 1)).
Proof.
  apply (extract_two_data_chunks [x01; x02; x03; x04] [x05; x06]).
  - discriminate.
  - cbn. lia.
  - cbn. lia.
  - exists 2%nat. reflexivity.
  - exists 1%nat. reflexivity.
Defined.

End WavMore.

(** ** More on the users table *)

Module ModelsMore.
Import Py PyFacts State StateFacts Models ModelsFacts ModelsTerms.

Lemma find_user_elem_of sub rows user :
  find_user sub rows = Some user -> user ∈ rows.
Proof.
  unfold find_user. intros [Hin _]%find_some.
  apply list_elem_of_In, Hin.
Qed.

Lemma find_user_cons sub r rows :
  find_user sub (r :: rows) =
  if bool_decide (user_google_sub r = sub) then Some r
  else find_user sub rows.
Proof. reflexivity. Qed.

Lemma update_user_cons u r rows :
  update_user u (r :: rows) =
  (if bool_decide (user_id r = user_id u) then u else r)
  :: update_user u rows.
Proof. reflexivity. Qed.

(** The row just written is the one a lookup of its subject finds. *)
Lemma find_update_user sub rows old u :
  find_user sub rows = Some old ->
  user_id u = user_id old -> user_google_sub u = sub ->
  find_user sub (update_user u rows) = Some u.
Proof.
  intros Hf Hid Hsub. induction rows as [|r rows IH]; [discriminate|].
  rewrite find_user_cons in Hf. rewrite update_user_cons, find_user_cons.
  destruct (bool_decide (user_id r = user_id u)) eqn:Ei.
  - rewrite bool_decide_eq_true_2 by exact Hsub. reflexivity.
  - destruct (bool_decide (user_google_sub r = sub)) eqn:Es.
    + injection Hf as <-. apply bool_decide_eq_false in Ei. congruence.
    + apply IH, Hf.
Qed.

Lemma find_user_app_new sub rows u :
  find_user sub rows = None -> user_google_sub u = sub ->
  find_user sub (rows ++ [u]) = Some u.
Proof.
  intros Hf Hsub. induction rows as [|r rows IH].
  - cbn [app]. rewrite find_user_cons, bool_decide_eq_true_2 by exact Hsub.
    reflexivity.
  - rewrite find_user_cons in Hf. change ((r :: rows) ++ [u])
      with (r :: (rows ++ [u])). rewrite find_user_cons.
    destruct (bool_decide (user_google_sub r = sub)); [discriminate|].
    apply IH, Hf.
Qed.

Lemma find_user_app_other sub rows u :
  user_google_sub u <> sub ->
  find_user sub (rows ++ [u]) = find_user sub rows.
Proof.
  intros Hsub. induction rows as [|r rows IH].
  - cbn [app]. rewrite find_user_cons, bool_decide_eq_false_2 by exact Hsub.
    reflexivity.
  - change ((r :: rows) ++ [u]) with (r :: (rows ++ [u])).
    rewrite !find_user_cons, IH. reflexivity.
Qed.

Lemma find_update_other sub' rows u :
  (forall r, r ∈ rows -> user_id r = user_id u ->
             user_google_sub r <> sub') ->
  user_google_sub u <> sub' ->
  find_user sub' (update_user u rows) = find_user sub' rows.
Proof.
  intros Hrows Hu. induction rows as [|r rows IH]; [reflexivity|].
  rewrite update_user_cons, !find_user_cons.
  rewrite IH by (intros r' Hr'; apply Hrows; right; exact Hr').
  destruct (bool_decide (user_id r = user_id u)) eqn:Ei; [|reflexivity].
  apply bool_decide_eq_true in Ei.
  rewrite bool_decide_eq_false_2 by exact Hu.
  rewrite bool_decide_eq_false_2; [reflexivity|].
  apply Hrows; [left|exact Ei].
Qed.

Lemma unique_id rows r1 r2 :
  NoDup (user_id <$> rows) -> r1 ∈ rows -> r2 ∈ rows ->
  user_id r1 = user_id r2 -> r1 = r2.
Proof.
  induction rows as [|r rows IH]; intros Hnd H1 H2 Hid.
  - apply elem_of_nil in H1. destruct H1.
  - rewrite fmap_cons in Hnd. apply NoDup_cons in Hnd as [Hnot Hnd].
    apply elem_of_cons in H1 as [->|H1], H2 as [->|H2].
    + reflexivity.
    + exfalso. apply Hnot. rewrite Hid.
      apply list_elem_of_fmap_2, H2.
    + exfalso. apply Hnot. rewrite <- Hid.
      apply list_elem_of_fmap_2, H1.
    + apply IH; assumption.
Qed.

Lemma update_user_same rows u :
  (forall r, r ∈ rows -> user_id r = user_id u -> r = u) ->
  update_user u rows = rows.
Proof.
  intros Hrows. induction rows as [|r rows IH]; [reflexivity|].
  rewrite update_user_cons.
  rewrite IH by (intros r' Hr'; apply Hrows; right; exact Hr').
  destruct (bool_decide (user_id r = user_id u)) eqn:Ei; [|reflexivity].
  apply bool_decide_eq_true in Ei. f_equal. symmetry.
  apply Hrows; [left|exact Ei].
Qed.

Lemma length_update_user u rows :
  length (update_user u rows) = length rows.
Proof. apply length_map. Qed.

Section Upsert.
Context `{Environment}.

Lemma upsert_found sub email name picture w old :
  find_user sub (users w) = Some old ->
  upsert_google_user sub email name picture w =
  (Ok (updated_row old email name picture),
   set_users (update_user (updated_row old email name picture)) w).
Proof.
  intros Hf. unfold upsert_google_user.
  unfold mbind at 1, M_bind at 1, get_world. rewrite Hf. reflexivity.
Qed.

Lemma upsert_created sub email name picture w :
  find_user sub (users w) = None ->
  upsert_google_user sub email name picture w =
  (Ok (created_row (uuid4 (uuids w)) sub email name picture),
   set_users
     (fun rows =>
        rows ++ [created_row (uuid4 (uuids w)) sub email name picture])
     (set_uuids (S (uuids w)) w)).
Proof.
  intros Hf. unfold upsert_google_user.
  unfold mbind at 1, M_bind at 1, get_world. rewrite Hf. reflexivity.
Qed.

Lemma upsert_outcome sub email name picture w :
  exists user w',
    upsert_google_user sub email name picture w = (Ok user, w')
    /\ find_user sub (users w') = Some user
    /\ user_google_sub user = sub
    /\ session_strs w' = session_strs w
    /\ session_user w' = session_user w
    /\ oauth_cached w' = oauth_cached w
    /\ net_log w' = net_log w.
Proof.
  destruct (find_user sub (users w)) as [old|] eqn:Hf.
  - eexists _, _. split; [apply upsert_found, Hf|].
    pose proof (find_user_sub _ _ _ Hf) as Hsub.
    cbn [users set_users session_strs session_user oauth_cached net_log].
    split; [|auto]. apply (find_update_user sub _ old); auto.
  - eexists _, _. split; [apply upsert_created, Hf|].
    cbn [users set_users set_uuids session_strs session_user oauth_cached
         net_log].
    split; [|auto]. apply find_user_app_new; [exact Hf|reflexivity].
Qed.

(** X7.  [upsert_google_user] never fails, and the row it returns is the
    one that a lookup of the subject finds afterwards; the row carries the
    subject.  The session, the cached client and the network log are not
    touched. *)
Theorem upsert_then_find (sub email name picture : string) (w : World) :
  exists user w',
    upsert_google_user sub email name picture w = (Ok user, w')
    /\ find_user sub (users w') = Some user
    /\ user_google_sub user = sub
    /\ session_strs w' = session_strs w
    /\ session_user w' = session_user w
    /\ oauth_cached w' = oauth_cached w
    /\ net_log w' = net_log w.
Proof.
  destruct (find_user sub (users w)) as [old|] eqn:Hf.
  - eexists _, _. split; [apply upsert_found, Hf|].
    pose proof (find_user_sub _ _ _ Hf) as Hsub.
    cbn [users set_users session_strs session_user oauth_cached net_log].
    split; [|auto]. apply (find_update_user sub _ old); auto.
  - eexists _, _. split; [apply upsert_created, Hf|].
    cbn [users set_users set_uuids session_strs session_user oauth_cached
         net_log].
    split; [|auto]. apply find_user_app_new; [exact Hf|reflexivity].
Qed.

(** X8.  In a table whose ids are distinct, [upsert_google_user] for one
    subject leaves the row of every other subject as a lookup finds it. *)
Theorem upsert_keeps_other_rows (sub email name picture other : string)
    (w : World) :
  NoDup (user_id <$> users w) ->
  other <> sub ->
  find_user other (users (snd (upsert_google_user sub email name picture w)))
  = find_user other (users w).
Proof.
  intros Hnd Hne.
  destruct (find_user sub (users w)) as [old|] eqn:Hf.
  - rewrite (upsert_found _ _ _ _ _ _ Hf). cbn [snd users set_users].
    pose proof (find_user_sub _ _ _ Hf) as Hsub.
    apply find_update_other; cbn [user_id user_google_sub updated_row];
      [|congruence].
    intros r Hr Hid.
    rewrite (unique_id _ r old Hnd Hr (find_user_elem_of _ _ _ Hf) Hid).
    congruence.
  - rewrite (upsert_created _ _ _ _ _ Hf).
    cbn [snd users set_users set_uuids].
    apply find_user_app_other. cbn [user_google_sub created_row].
    congruence.
Qed.

Lemma new_or_old_again x old :
  new_or_old x (new_or_old x old) = new_or_old x old.
Proof. unfold new_or_old. destruct (nonempty x); reflexivity. Qed.

Lemma new_or_old_or_None x : new_or_old x (or_None x) = or_None x.
Proof. unfold new_or_old, or_None. destruct (nonempty x); reflexivity. Qed.

(** X9.  Signing in again with the same profile changes nothing: after
    an upsert of a normalised profile (the email stripped and lowered,
    the name and the picture stripped, as [callback] passes them) into a
    table whose ids are then distinct, a second upsert of the same profile
    returns the same row, draws no id and leaves the table as it is. *)
Theorem upsert_twice (sub email name picture : string) (w w1 : World)
    (user : User) :
  upsert_google_user sub email name picture w = (Ok user, w1) ->
  normalised email name picture ->
  NoDup (user_id <$> users w1) ->
  exists w2,
    upsert_google_user sub email name picture w1 = (Ok user, w2)
    /\ users w2 = users w1 /\ uuids w2 = uuids w1.
Proof.
  intros Hu (He & Hn & Hp) Hnd.
  assert (Hfind : find_user sub (users w1) = Some user).
  { destruct (upsert_outcome sub email name picture w)
      as (u & w' & E & Hf & _). congruence. }
  assert (Hsame : updated_row user email name picture = user).
  { destruct (find_user sub (users w)) as [old|] eqn:Hf.
    - rewrite (upsert_found _ _ _ _ _ _ Hf) in Hu. injection Hu as <- _.
      unfold updated_row. cbn [user_id user_google_sub user_email user_name
                               user_picture].
      rewrite !new_or_old_again. reflexivity.
    - rewrite (upsert_created _ _ _ _ _ Hf) in Hu. injection Hu as <- _.
      unfold updated_row, created_row.
      cbn [user_id user_google_sub user_email user_name user_picture].
      rewrite He, Hn, Hp, !new_or_old_or_None. reflexivity. }
  eexists. rewrite (upsert_found _ _ _ _ _ _ Hfind), Hsame.
  split; [reflexivity|]. cbn [users uuids set_users]. split; [|reflexivity].
  apply update_user_same. intros r Hr Hid.
  apply (unique_id _ r user Hnd Hr (find_user_elem_of _ _ _ Hfind) Hid).
Qed.

End Upsert.

Lemma upsert_keeps_other_rows_witness :
  find_user "abc"
    (users (snd (@upsert_google_user Samples.configured "xyz" "x@y.z" "X" ""
                   (with_rows [ada] Samples.fresh))))
  = find_user "abc" (users (with_rows [ada] Samples.fresh)).
Proof.
  apply (@upsert_keeps_other_rows Samples.configured "xyz" "x@y.z" "X" ""
           "abc" (with_rows [ada] Samples.fresh)).
  - apply NoDup_singleton.
  - discriminate.
Defined.

Lemma upsert_twice_witness :
  exists w2,
    @upsert_google_user Samples.configured "abc" "ada@b.com" "Ada L" ""
      (snd (@upsert_google_user Samples.configured "abc" "ada@b.com" "Ada L"
              "" Samples.fresh))
    = (Ok ada, w2)
    /\ users w2
       = users (snd (@upsert_google_user Samples.configured "abc"
                       "ada@b.com" "Ada L" "" Samples.fresh))
    /\ uuids w2
       = uuids (snd (@upsert_google_user Samples.configured "abc"
                       "ada@b.com" "Ada L" "" Samples.fresh)).
Proof.
  apply (@upsert_twice Samples.configured "abc" "ada@b.com" "Ada L" ""
           Samples.fresh).
  - reflexivity.
  - repeat split.
  - apply NoDup_singleton.
Defined.

End ModelsMore.

(** ** More on the sign-in flow *)

Module AuthMore.
Import Py PyFacts Encoding EncodingFacts State StateFacts GoogleOAuth
  GoogleOAuthFacts Models ModelsFacts ModelsTerms ModelsMore Redirect Routes
  RoutesFacts AuthTerms.

Lemma quiet_refl w : quiet w w.
Proof. repeat split. Qed.

Lemma quiet_trans w1 w2 w3 : quiet w1 w2 -> quiet w2 w3 -> quiet w1 w3.
Proof.
  unfold quiet. intros (?&?&?&?&?) (?&?&?&?&?). repeat split; congruence.
Qed.

Lemma startswith_append a b : startswith (a +:+ b) a = true.
Proof.
  unfold startswith. induction a as [|c a IH]; [destruct b; reflexivity|].
  change (String c a +:+ b) with (String c (a +:+ b)).
  cbn [String.prefix]. destruct (ascii_dec c c); [exact IH|congruence].
Qed.

(** *** Tokens carry no white space *)

Lemma unreserved_not_space a : is_unreserved a = true -> isspace a = false.
Proof.
  destruct a as [[] [] [] [] [] [] [] []]; intros Hu;
    try reflexivity; discriminate Hu.
Qed.

Lemma rstrip_plain l :
  Forall plain l ->
  rstrip_by isspace (string_of_list_byte l) = string_of_list_byte l.
Proof.
  induction 1 as [|c l [_ Hc] _ IH]; [reflexivity|].
  change (string_of_list_byte (c :: l))
    with (String (ascii_of_byte c) (string_of_list_byte l)).
  rewrite rstrip_by_prefix by (apply unreserved_not_space, Hc).
  rewrite IH. reflexivity.
Qed.

Lemma strip_plain l :
  Forall plain l ->
  strip (string_of_list_byte l) = string_of_list_byte l.
Proof.
  intros Hl. unfold strip. destruct Hl as [|c l [Hp Hc] Hl]; [reflexivity|].
  change (string_of_list_byte (c :: l))
    with (String (ascii_of_byte c) (string_of_list_byte l)).
  cbn [lstrip_by]. rewrite (unreserved_not_space _ Hc).
  apply (rstrip_plain (c :: l)). constructor; [split|]; assumption.
Qed.

Lemma strip_token n t :
  strip (fst (token_urlsafe n t)) = fst (token_urlsafe n t).
Proof.
  unfold token_urlsafe, token_bytes. cbn [fst].
  rewrite rstrip_urlsafe_b64encode. apply strip_plain, b64_unpadded_plain.
Qed.

Lemma quote_plus_token n t :
  quote_plus (fst (token_urlsafe n t)) = fst (token_urlsafe n t).
Proof.
  unfold token_urlsafe, token_bytes. cbn [fst].
  rewrite rstrip_urlsafe_b64encode.
  apply quote_plus_plain, b64_unpadded_plain.
Qed.

Lemma token_nonempty n t : (0 < n)%nat -> fst (token_urlsafe n t) <> "".
Proof.
  intros Hn E. pose proof (length_token_urlsafe n t) as Hlen.
  rewrite E in Hlen. cbn [String.length] in Hlen.
  assert (1 <= (4 * n + 2) / 3)%nat; [|lia].
  apply Nat.div_le_lower_bound; lia.
Qed.

Section Flow.
Context `{Environment}.

(** *** What the steps of [build_authorize_url] leave alone *)

Lemma client_id_secret_outcome w :
  (exists p w', _client_id_secret w = (Ok p, w')
                /\ oauth_cached w' = Some p /\ quiet w w'
                /\ entropy w' = entropy w)
  \/ (_client_id_secret w = (Raise (OAuthError client_missing_message), w)
      /\ oauth_cached w = None).
Proof.
  destruct (oauth_cached w) as [c|] eqn:Ec.
  { left. exists c, w. rewrite (client_id_secret_cached w c Ec).
    repeat split. exact Ec. }
  destruct (decide (fst loaded_client = "")) as [E1|E1].
  { right. split; [|reflexivity].
    apply client_id_secret_missing; [exact Ec|left; exact E1]. }
  destruct (decide (snd loaded_client = "")) as [E2|E2].
  { right. split; [|reflexivity].
    apply client_id_secret_missing; [exact Ec|right; exact E2]. }
  left. exists loaded_client, (set_oauth_cached (Some loaded_client) w).
  rewrite (client_id_secret_loaded w Ec E1 E2). repeat split.
Qed.

Lemma redirect_uri_outcome w :
  (_redirect_uri w = (Ok (strip GOOGLE_OAUTH_REDIRECT_URI), w)
   /\ strip GOOGLE_OAUTH_REDIRECT_URI <> "")
  \/ _redirect_uri w = (Raise (OAuthError redirect_missing_message), w).
Proof.
  destruct (decide (strip GOOGLE_OAUTH_REDIRECT_URI = "")) as [E|E].
  - right. apply redirect_uri_missing, E.
  - left. split; [apply redirect_uri_set, E|exact E].
Qed.

(** [build_authorize_url], step by step: the state is the token of the
    first 24 bytes of the tape, the verifier that of the next 64. *)
Lemma build_authorize_url_outcome w :
  (exists cid sec w',
     build_authorize_url w =
     (Ok (fst (token_urlsafe 24 (entropy w)),
          fst (token_urlsafe 64 (snd (token_urlsafe 24 (entropy w)))),
          AUTH_URL +:+ "?" +:+
          urlencode
            (authorize_params cid (strip GOOGLE_OAUTH_REDIRECT_URI)
               requested_scope (fst (token_urlsafe 24 (entropy w)))
               (_pkce_challenge
                  (fst (token_urlsafe 64
                          (snd (token_urlsafe 24 (entropy w)))))))), w')
     /\ oauth_cached w' = Some (cid, sec)
     /\ strip GOOGLE_OAUTH_REDIRECT_URI <> ""
     /\ quiet w w')
  \/ (exists msg w',
        build_authorize_url w = (Raise (OAuthError msg), w')
        /\ quiet w w').
Proof.
  unfold build_authorize_url.
  destruct (client_id_secret_outcome w)
    as [([cid sec] & w1 & E1 & Hc & Hq & He)|[E1 _]].
  2:{ right. exists client_missing_message, w.
      rewrite (bind_Raise _ _ _ _ _ E1). split; [reflexivity|].
      apply quiet_refl. }
  rewrite (bind_Ok _ _ _ _ _ E1). cbv beta iota.
  destruct (redirect_uri_outcome w1) as [[E2 Hru]|E2].
  2:{ right. exists redirect_missing_message, w1.
      rewrite (bind_Raise _ _ _ _ _ E2). split; [reflexivity|exact Hq]. }
  rewrite (bind_Ok _ _ _ _ _ E2).
  rewrite (bind_Ok _ _ _ _ _ (secrets_token_urlsafe_run 24 w1)).
  rewrite (bind_Ok _ _ _ _ _ (pkce_verifier_run _)).
  cbn [entropy set_entropy]. rewrite He.
  left. exists cid, sec. eexists. split; [reflexivity|].
  split; [exact Hc|]. split; [exact Hru|].
  destruct Hq as (?&?&?&?&?). repeat split; assumption.
Qed.

(** X10.  The state of [build_authorize_url] has 32 characters, none of
    them white space or in need of quoting, and stands as it is after
    ["&state="] in the URL, before the challenge of the verifier.  The
    state is the token of the first 24 bytes of the random tape and the
    verifier that of the 64 bytes after them, so the two share no random
    byte.  Nothing observable changes: no session entry, no row, no
    network call. *)
Theorem authorize_url_state (w w' : World) (state verifier url : string) :
  build_authorize_url w = (Ok (state, verifier, url), w') ->
  String.length state = 32%nat
  /\ strip state = state /\ quote_plus state = state
  /\ state = fst (token_urlsafe 24 (entropy w))
  /\ verifier = fst (token_urlsafe 64 (snd (token_urlsafe 24 (entropy w))))
  /\ (exists client_id redirect_uri,
        url = (AUTH_URL +:+ "?client_id=" +:+ quote_plus client_id
               +:+ "&redirect_uri=" +:+ quote_plus redirect_uri
               +:+ "&response_type=code&scope=" +:+ quote_plus requested_scope
               +:+ "&state=" +:+ state)
              +:+ "&code_challenge=" +:+ _pkce_challenge verifier
              +:+ url_after_challenge)
  /\ quiet w w'.
Proof.
  intros Hb.
  destruct (build_authorize_url_outcome w)
    as [(cid & sec & w1 & E & _ & _ & Hq)|(msg & w1 & E & _)];
    [|congruence].
  rewrite E in Hb.
  assert (Hs : state = fst (token_urlsafe 24 (entropy w))) by congruence.
  assert (Hv : verifier
               = fst (token_urlsafe 64 (snd (token_urlsafe 24 (entropy w)))))
    by congruence.
  assert (Hw : w' = w1) by congruence.
  assert (Hu : url = AUTH_URL +:+ "?" +:+
                     urlencode
                       (authorize_params cid
                          (strip GOOGLE_OAUTH_REDIRECT_URI) requested_scope
                          state (_pkce_challenge verifier)))
    by congruence.
  clear Hb E. rewrite Hw, Hu. clear Hw Hu.
  pose proof (quote_plus_token 24 (entropy w)) as Hquote.
  rewrite <- Hs in Hquote. rewrite <- Hv, <- Hs.
  assert (Hlen : String.length state = 32%nat)
    by (rewrite Hs; apply (length_token_urlsafe 24)).
  assert (Hstrip : strip state = state)
    by (rewrite Hs; apply strip_token).
  clear Hs Hv.
  split; [exact Hlen|].
  split; [exact Hstrip|]. split; [exact Hquote|].
  split; [reflexivity|]. split; [reflexivity|]. split; [|exact Hq].
  exists cid, (strip GOOGLE_OAUTH_REDIRECT_URI).
  rewrite authorize_url_shape. unfold url_before_challenge, _pkce_challenge.
  rewrite Hquote, quote_plus_b64url. reflexivity.
Qed.

(** *** The next URL that is stored and followed *)

Lemma safe_next_or_default next_url :
  safe_target (str_or (_safe_next_url next_url) "/kiosk.html").
Proof.
  unfold safe_target, _safe_next_url, frontend.
  set (nxt := strip next_url). set (fe := rstrip_slash (strip FRONTEND_URL)).
  destruct (nonempty nxt) eqn:En; cbn [negb]; [|left; split; reflexivity].
  destruct (startswith nxt "//") eqn:E2; [left; split; reflexivity|].
  destruct (startswith nxt "/") eqn:E1.
  { unfold str_or. rewrite En. left. split; assumption. }
  destruct (nonempty fe && startswith nxt fe) eqn:Ef;
    [|left; split; reflexivity].
  apply andb_true_iff in Ef as [Hfe Hp]. unfold str_or. rewrite En.
  right. split; [exact E1|]. split; [apply nonempty_true, Hfe|exact Hp].
Qed.

(** *** [login] *)

Lemma login_outcome next w :
  session_enabled = true ->
  (exists state verifier url w1,
     build_authorize_url w = (Ok (state, verifier, url), w1)
     /\ login next w =
        (Ok (RedirectResponse url 302),
         set_session_strs
           (insert "oauth_next" (str_or (_safe_next_url next) "/kiosk.html"))
           (set_session_strs (insert "oauth_verifier" verifier)
              (set_session_strs (insert "oauth_state" state) w1))))
  \/ (exists msg w1,
        build_authorize_url w = (Raise (OAuthError msg), w1)
        /\ login next w = (Raise (OAuthError msg), w1)).
Proof.
  intros Hs. unfold login. rewrite Hs. cbn [negb]. cbv zeta.
  destruct (build_authorize_url w) as [[[[state verifier] url]|e] w1] eqn:E.
  - left. exists state, verifier, url, w1. split; [reflexivity|].
    rewrite (bind_Ok _ _ _ _ _ E). reflexivity.
  - destruct (build_authorize_url_outcome w)
      as [(cid & sec & w' & E' & _)|(msg & w' & E' & _)]; [congruence|].
    right. exists msg, w1. assert (e = OAuthError msg) as -> by congruence.
    split; [reflexivity|]. rewrite (bind_Raise _ _ _ _ _ E). reflexivity.
Qed.

(** X11.  A successful [login] redirects (302) to the URL that
    [build_authorize_url] returned and stores, in the session, the state
    and the verifier returned with it and a next URL that the validator
    lets through; it leaves every other session entry, the signed-in user
    and the users table as they were, and makes no network call. *)
Theorem login_stores_authorization_state (next : string) (w w' : World)
    (reply : Reply) :
  login next w = (Ok reply, w') ->
  exists state verifier url nxt w1,
    build_authorize_url w = (Ok (state, verifier, url), w1)
    /\ reply = RedirectResponse url 302
    /\ session_strs w' !! "oauth_state" = Some state
    /\ session_strs w' !! "oauth_verifier" = Some verifier
    /\ session_strs w' !! "oauth_next" = Some nxt
    /\ safe_target nxt
    /\ (forall k, k <> "oauth_state" -> k <> "oauth_verifier" ->
                  k <> "oauth_next" ->
                  session_strs w' !! k = session_strs w !! k)
    /\ session_user w' = session_user w
    /\ users w' = users w
    /\ net_log w' = net_log w.
Proof.
  intros Hl.
  destruct session_enabled eqn:Hs;
    [|unfold login in Hl; rewrite Hs in Hl; discriminate].
  destruct (login_outcome next w Hs)
    as [(state & verifier & url & w1 & Hb & E)|(msg & w1 & _ & E)];
    [|congruence].
  rewrite E in Hl. injection Hl as <- <-.
  exists state, verifier, url,
    (str_or (_safe_next_url next) "/kiosk.html"), w1.
  destruct (build_authorize_url_outcome w)
    as [(cid & sec & w2 & E' & _ & _ & Hq)|(msg & w2 & E' & _)];
    [|congruence].
  assert (w2 = w1) as -> by congruence.
  destruct Hq as (Hss & Hsu & Hus & _ & Hlog).
  cbn [session_strs session_user users net_log set_session_strs].
  split; [exact Hb|]. split; [reflexivity|].
  split; [rewrite lookup_insert_ne, lookup_insert_ne by discriminate;
          apply lookup_insert_eq|].
  split; [rewrite lookup_insert_ne by discriminate; apply lookup_insert_eq|].
  split; [apply lookup_insert_eq|].
  split; [apply safe_next_or_default|].
  split; [|auto].
  intros k H1 H2 H3. rewrite !lookup_insert_ne by congruence.
  rewrite Hss. reflexivity.
Qed.

(** X12.  A [login] that fails raises the 500 for a missing session
    middleware or an [OAuthError], which it does not catch; it then has
    stored nothing: the session, the users table and the network log are
    as before. *)
Theorem login_failure_stores_nothing (next : string) (w w' : World)
    (e : exn) :
  login next w = (Raise e, w') ->
  (e = no_session_error \/ exists msg, e = OAuthError msg)
  /\ quiet w w'.
Proof.
  intros Hl.
  destruct session_enabled eqn:Hs.
  - destruct (login_outcome next w Hs)
      as [(state & verifier & url & w1 & _ & E)|(msg & w1 & Hb & E)];
      [congruence|].
    rewrite E in Hl. injection Hl as <- <-.
    split; [right; eauto|].
    destruct (build_authorize_url_outcome w)
      as [(cid & sec & w2 & E' & _)|(msg' & w2 & E' & Hq)]; [congruence|].
    assert (w2 = w1) as -> by congruence. exact Hq.
  - unfold login in Hl. rewrite Hs in Hl. injection Hl as <- <-.
    split; [left; reflexivity|apply quiet_refl].
Qed.

(** *** Where a successful [callback] sends the browser *)

Lemma callback_inv_Ok qp w reply w' :
  callback qp w = (Ok reply, w') ->
  session_enabled = true /\ provider_error qp = false
  /\ state_rejected qp w = false
  /\ exists userinfo w1,
       fetch_identity (received_code qp) (stored_verifier w) (consumed w)
       = (Ok userinfo, w1)
       /\ complete_sign_in userinfo (stored_next w) w1 = (Ok reply, w').
Proof.
  intros Hc.
  destruct session_enabled eqn:E;
    [|rewrite callback_no_session in Hc by assumption; discriminate].
  destruct (provider_error qp) eqn:He;
    [rewrite callback_provider_error in Hc by assumption; discriminate|].
  destruct (state_rejected qp w) eqn:Hr;
    [rewrite callback_rejected in Hc by assumption; discriminate|].
  rewrite callback_accepted in Hc by assumption.
  apply bind_inv_Ok in Hc as (userinfo & w1 & Hf & Hc).
  repeat split. exists userinfo, w1. split; assumption.
Qed.

Lemma complete_sign_in_reply userinfo next_url w reply w' :
  complete_sign_in userinfo next_url w = (Ok reply, w') ->
  let nxt := str_or (_safe_next_url next_url) "/kiosk.html" in
  exists user,
    session_user w' = Some user
    /\ reply =
       if startswith nxt "/" && nonempty frontend
       then RedirectResponse (frontend +:+ nxt) 302
       else if nonempty frontend && startswith nxt frontend
            then RedirectResponse nxt 302
            else JSONResponse_ok_user user.
Proof.
  intros Hc nxt. unfold complete_sign_in in Hc.
  destruct (nonempty (strip (or_empty (userinfo !! "sub"))));
    cbn [negb] in Hc; [|discriminate].
  apply bind_inv_Ok in Hc as (user & w2 & _ & Hc).
  exists user. unfold mbind, M_bind, modify, mret, M_ret in Hc.
  fold frontend nxt in Hc.
  destruct (startswith nxt "/" && nonempty frontend);
    [injection Hc as <- <-; split; reflexivity|].
  destruct (nonempty frontend && startswith nxt frontend);
    injection Hc as <- <-; split; reflexivity.
Qed.

(** X13.  Where a successful [callback] sends the browser.  Without a
    front-end origin it answers with the JSON body that carries the
    session's user.  With one it always redirects (302), and only to a URL
    that begins with the origin [frontend]: the origin followed by a path
    that does not begin with ["//"], or the stored next URL when that
    begins with the origin. *)
Theorem callback_reply_target (qp : gmap string string) (w w' : World)
    (reply : Reply) :
  callback qp w = (Ok reply, w') ->
  (frontend = ""
   /\ exists user,
        reply = JSONResponse_ok_user user /\ session_user w' = Some user)
  \/ (frontend <> ""
      /\ exists url,
           reply = RedirectResponse url 302
           /\ startswith url frontend = true
           /\ ((exists path, url = frontend +:+ path
                             /\ startswith path "/" = true
                             /\ startswith path "//" = false)
               \/ url = str_or (_safe_next_url (stored_next w))
                          "/kiosk.html")).
Proof.
  intros Hc. apply callback_inv_Ok in Hc
    as (_ & _ & _ & userinfo & w1 & _ & Hc).
  apply complete_sign_in_reply in Hc as (user & Hu & ->). cbv zeta.
  pose proof (safe_next_or_default (stored_next w)) as Hsafe.
  set (nxt := str_or (_safe_next_url (stored_next w)) "/kiosk.html") in *.
  destruct (nonempty frontend) eqn:Hfe.
  - right. apply nonempty_true in Hfe. split; [exact Hfe|].
    rewrite andb_true_r. cbn [andb].
    destruct Hsafe as [[H1 H2]|(H1 & _ & Hp)]; rewrite H1.
    + exists (frontend +:+ nxt). split; [reflexivity|].
      split; [apply startswith_append|]. left. exists nxt. auto.
    + rewrite Hp. exists nxt. split; [reflexivity|]. split; [exact Hp|].
      right. reflexivity.
  - left. apply nonempty_false in Hfe. split; [exact Hfe|].
    rewrite andb_false_r. cbn [andb]. exists user. split; [reflexivity|].
    exact Hu.
Qed.

(** *** The two calls to the provider *)

Lemma quiet_after_calls w w' : quiet w w' <-> after_calls w w' [].
Proof. unfold quiet, after_calls. rewrite app_nil_r. tauto. Qed.

Lemma after_calls_trans w1 w2 w3 l1 l2 :
  after_calls w1 w2 l1 -> after_calls w2 w3 l2 ->
  after_calls w1 w3 (l1 ++ l2).
Proof.
  unfold after_calls. intros (?&?&?&?&?) (?&?&?&?&?).
  repeat split; try congruence. rewrite app_assoc. congruence.
Qed.

Lemma after_calls_log_call w c : after_calls w (log_call c w) [c].
Proof. repeat split. Qed.

Lemma copy_keys_lookup_ne keys j out k :
  k ∉ keys -> copy_keys keys j out !! k = out !! k.
Proof.
  unfold copy_keys. revert out.
  induction keys as [|a keys IH]; intros out Hk; [reflexivity|].
  apply not_elem_of_cons in Hk as [Hne Hk]. cbn [foldl].
  rewrite IH by exact Hk.
  destruct (j !! a); [apply lookup_insert_ne; congruence|reflexivity].
Qed.

Lemma exchange_code_blank code v w cid sec w1 ru :
  _client_id_secret w = (Ok (cid, sec), w1) ->
  _redirect_uri w1 = (Ok ru, w1) ->
  strip code = "" \/ strip v = "" ->
  exchange_code code v w =
  (Raise (OAuthError "Missing code or code_verifier"), w1).
Proof.
  intros E1 E2 Hb. unfold exchange_code.
  rewrite (bind_Ok _ _ _ _ _ E1). cbv beta iota.
  rewrite (bind_Ok _ _ _ _ _ E2). cbv zeta.
  assert (negb (nonempty (strip code)) || negb (nonempty (strip v)) = true)
    as ->; [|reflexivity].
  destruct Hb as [-> | ->]; [reflexivity|apply orb_true_r].
Qed.

Lemma exchange_code_sent code v w cid sec w1 ru :
  _client_id_secret w = (Ok (cid, sec), w1) ->
  _redirect_uri w1 = (Ok ru, w1) ->
  strip code <> "" -> strip v <> "" ->
  exists r,
    exchange_code code v w =
    (r, log_call (TokenRequest (token_form (strip code) cid sec ru (strip v)))
          w1)
    /\ token_result r.
Proof.
  intros E1 E2 Hc Hv. unfold exchange_code.
  rewrite (bind_Ok _ _ _ _ _ E1). cbv beta iota.
  rewrite (bind_Ok _ _ _ _ _ E2). cbv zeta.
  apply nonempty_true in Hc, Hv. rewrite Hc, Hv. cbn [negb orb].
  unfold mbind, M_bind, post_token. cbv beta iota.
  fold (token_form (strip code) cid sec ru (strip v)).
  destruct (token_endpoint _ _) as [r|e].
  - destruct (400 <=? Http.status_code r).
    + eexists. split; [reflexivity|]. left. eauto.
    + destruct (Http.json r) as [j|].
      * destruct (nonempty (strip (or_empty (j !! "access_token"))))
          eqn:Et; cbn [negb].
        -- eexists. split; [reflexivity|]. cbn [token_result].
           exists (strip (or_empty (j !! "access_token"))).
           split; [|split; [apply nonempty_true, Et|apply strip_idem]].
           rewrite copy_keys_lookup_ne; [apply lookup_singleton_eq|].
           rewrite !not_elem_of_cons. repeat split; try discriminate.
           apply not_elem_of_nil.
        -- eexists. split; [reflexivity|]. left. eauto.
      * eexists. split; [reflexivity|]. right. reflexivity.
  - eexists. split; [reflexivity|]. left. eauto.
Qed.

Lemma exchange_code_cases (code v : string) (w : World) :
  (exists msg w',
     exchange_code code v w = (Raise (OAuthError msg), w') /\ quiet w w')
  \/ (exists cid sec r w',
        exchange_code code v w = (r, w')
        /\ after_calls w w'
             [TokenRequest
                (token_form (strip code) cid sec
                   (strip GOOGLE_OAUTH_REDIRECT_URI) (strip v))]
        /\ oauth_cached w' = Some (cid, sec)
        /\ strip code <> "" /\ strip v <> ""
        /\ strip GOOGLE_OAUTH_REDIRECT_URI <> ""
        /\ token_result r).
Proof.
  destruct (client_id_secret_outcome w)
    as [([cid sec] & w1 & E1 & Hc & Hq & He)|[E1 _]].
  2:{ left. exists client_missing_message, w. unfold exchange_code.
      rewrite (bind_Raise _ _ _ _ _ E1). split; [reflexivity|].
      apply quiet_refl. }
  destruct (redirect_uri_outcome w1) as [[E2 Hru]|E2].
  2:{ left. exists redirect_missing_message, w1. unfold exchange_code.
      rewrite (bind_Ok _ _ _ _ _ E1). cbv beta iota.
      rewrite (bind_Raise _ _ _ _ _ E2). split; [reflexivity|exact Hq]. }
  destruct (decide (strip code = "")) as [Hcode|Hcode].
  { left. eexists _, w1. split; [|exact Hq].
    apply (exchange_code_blank _ _ _ _ _ _ _ E1 E2). left. exact Hcode. }
  destruct (decide (strip v = "")) as [Hv|Hv].
  { left. eexists _, w1. split; [|exact Hq].
    apply (exchange_code_blank _ _ _ _ _ _ _ E1 E2). right. exact Hv. }
  right.
  destruct (exchange_code_sent _ _ _ _ _ _ _ E1 E2 Hcode Hv)
    as (r & E & Hr).
  exists cid, sec, r. eexists. split; [exact E|].
  split; [|cbn [oauth_cached log_call]; auto].
  apply quiet_after_calls in Hq.
  apply (after_calls_trans _ _ _ [] _ Hq), after_calls_log_call.
Qed.


Lemma fetch_userinfo_cases (access_token : string) (w : World) :
  (strip access_token = ""
   /\ fetch_userinfo access_token w =
      (Raise (OAuthError "Missing access_token"), w))
  \/ (strip access_token <> ""
      /\ exists r,
           fetch_userinfo access_token w =
           (r, log_call (UserinfoRequest ("Bearer " +:+ strip access_token))
                 w)
           /\ userinfo_result r).
Proof.
  unfold fetch_userinfo. cbv zeta.
  destruct (nonempty (strip access_token)) eqn:Et; cbn [negb].
  2:{ left. apply nonempty_false in Et. split; [exact Et|reflexivity]. }
  right. split; [apply nonempty_true, Et|].
  unfold mbind, M_bind, get_userinfo. cbv beta iota.
  destruct (userinfo_endpoint _ _) as [r|e].
  - destruct (400 <=? Http.status_code r).
    + eexists. split; [reflexivity|]. left. eauto.
    + destruct (Http.json r) as [j|].
      * eexists. split; [reflexivity|]. cbn [userinfo_result]. split.
        -- intros k Hk. rewrite !elem_of_cons, elem_of_nil in Hk.
           destruct Hk as [->|[->|[->|[->|[]]]]];
             rewrite ?lookup_insert_eq, ?lookup_insert_ne,
               ?lookup_singleton_eq by discriminate; eauto.
        -- intros k x Hx.
           rewrite !lookup_insert_Some, lookup_singleton_Some in Hx.
           rewrite !elem_of_cons.
           destruct Hx as [[<- <-]|[_ [[<- <-]|[_ [[<- <-]|[_ [<- <-]]]]]]];
             (split; [tauto|apply strip_idem]).
      * eexists. split; [reflexivity|]. right. reflexivity.
  - eexists. split; [reflexivity|]. left. eauto.
Qed.


(** *** [callback], step by step *)

Lemma fetch_identity_outcome code v w :
  exists r w' calls,
    fetch_identity code v w = (r, w')
    /\ after_calls w w' calls
    /\ provider_calls calls
    /\ match r with
       | Ok info => both_calls calls
       | Raise e => (exists msg, e = HTTPException 400 msg)
                    \/ e = JSONDecodeError
       end.
Proof.
  unfold fetch_identity, except_OAuthError.
  destruct (exchange_code_cases code v w)
    as [(msg & w1 & E & Hq)
       |(cid & sec & r & w1 & E & Hafter & _ & _ & _ & _ & Hr)].
  { rewrite (bind_Raise _ _ _ _ _ E).
    eexists _, _, []. split; [reflexivity|].
    split; [apply quiet_after_calls, Hq|]. split; [left; reflexivity|].
    left. eauto. }
  destruct r as [tokens|e].
  2:{ rewrite (bind_Raise _ _ _ _ _ E).
      destruct Hr as [[msg ->]| ->];
        (eexists _, _, _; split; [reflexivity|]; split; [exact Hafter|];
         split; [right; left; eauto|]); [left|right]; eauto. }
  rewrite (bind_Ok _ _ _ _ _ E).
  destruct Hr as (tok & -> & Hne & Hs).
  destruct (fetch_userinfo_cases tok w1) as [[Hb _]|[_ (r2 & E2 & Hr2)]];
    [congruence|].
  rewrite E2. rewrite Hs in *.
  assert (Hcalls : both_calls
            [TokenRequest
               (token_form (strip code) cid sec
                  (strip GOOGLE_OAUTH_REDIRECT_URI) (strip v));
             UserinfoRequest ("Bearer " +:+ tok)])
    by (eexists _, tok; split; [exact Hne|reflexivity]).
  pose proof (after_calls_trans _ _ _ _ _ Hafter
                (after_calls_log_call w1
                   (UserinfoRequest ("Bearer " +:+ tok)))) as Hboth.
  destruct r2 as [info|e].
  - eexists _, _, _. split; [reflexivity|]. split; [exact Hboth|].
    split; [right; right; exact Hcalls|exact Hcalls].
  - destruct Hr2 as [[msg ->]| ->];
      (eexists _, _, _; split; [reflexivity|]; split; [exact Hboth|];
       split; [right; right; exact Hcalls|]); [left|right]; eauto.
Qed.

Lemma complete_sign_in_outcome userinfo next_url w :
  complete_sign_in userinfo next_url w =
  (Raise (HTTPException 400 "Google userinfo missing sub"), w)
  \/ exists user w2 reply,
       complete_sign_in userinfo next_url w =
       (Ok reply, set_session_user (Some user) w2)
       /\ net_log w2 = net_log w.
Proof.
  unfold complete_sign_in. cbv zeta.
  destruct (nonempty (strip (or_empty (userinfo !! "sub"))));
    cbn [negb]; [|left; reflexivity].
  right.
  destruct (upsert_outcome (strip (or_empty (userinfo !! "sub")))
              (lower (strip (or_empty (userinfo !! "email"))))
              (strip (or_empty (userinfo !! "name")))
              (strip (or_empty (userinfo !! "picture"))) w)
    as (user & w2 & E & _ & _ & _ & _ & _ & Hlog).
  rewrite (bind_Ok _ _ _ _ _ E). exists user, w2.
  unfold mbind, M_bind, modify, mret, M_ret.
  destruct (_ && _); [eexists; split; [reflexivity|exact Hlog]|].
  destruct (_ && _); eexists; (split; [reflexivity|exact Hlog]).
Qed.

Lemma consumed_after_calls w :
  session_user (consumed w) = session_user w
  /\ users (consumed w) = users w /\ uuids (consumed w) = uuids w
  /\ net_log (consumed w) = net_log w
  /\ oauth_cached (consumed w) = oauth_cached w.
Proof. repeat split. Qed.

Lemma callback_outcome qp w :
  exists r w' calls,
    callback qp w = (r, w')
    /\ net_log w' = net_log w ++ calls
    /\ provider_calls calls
    /\ match r with
       | Ok reply => both_calls calls
       | Raise e =>
         (e = no_session_error \/ (exists detail, e = HTTPException 400 detail)
          \/ e = JSONDecodeError)
         /\ session_user w' = session_user w
         /\ users w' = users w /\ uuids w' = uuids w
       end.
Proof.
  destruct session_enabled eqn:Hs.
  2:{ rewrite (callback_no_session qp w Hs). eexists _, _, [].
      rewrite app_nil_r. split; [reflexivity|]. split; [reflexivity|].
      split; [left; reflexivity|]. auto. }
  destruct (provider_error qp) eqn:He.
  { rewrite (callback_provider_error qp w Hs He). eexists _, _, [].
    rewrite app_nil_r. split; [reflexivity|]. split; [reflexivity|].
    split; [left; reflexivity|]. split; [|auto]. right; left. eauto. }
  destruct (state_rejected qp w) eqn:Hr.
  { rewrite (callback_rejected qp w Hs He Hr). eexists _, _, [].
    rewrite app_nil_r. split; [reflexivity|]. split; [reflexivity|].
    split; [left; reflexivity|]. split; [|auto]. right; left. eauto. }
  rewrite (callback_accepted qp w Hs He Hr).
  destruct (fetch_identity_outcome (received_code qp) (stored_verifier w)
              (consumed w))
    as (r & w1 & calls & E & (_ & Hsu & Hus & Hid & Hlog) & Hcalls & Hres).
  destruct r as [info|e].
  2:{ rewrite (bind_Raise _ _ _ _ _ E). eexists _, _, calls.
      split; [reflexivity|]. split; [exact Hlog|]. split; [exact Hcalls|].
      split; [|auto]. destruct Hres as [Hres| ->]; auto. }
  rewrite (bind_Ok _ _ _ _ _ E).
  destruct (complete_sign_in_outcome info (stored_next w) w1)
    as [E2|(user & w2 & reply & E2 & Hlog2)]; rewrite E2.
  - eexists _, _, calls. split; [reflexivity|]. split; [exact Hlog|].
    split; [exact Hcalls|]. split; [|auto]. right; left. eauto.
  - eexists _, _, calls. split; [reflexivity|].
    cbn [net_log set_session_user].
    split; [exact (eq_trans Hlog2 Hlog)|].
    split; [exact Hcalls|exact Hres].
Qed.

(** X16.  The network calls of one [callback]: none, or the token request,
    or the token request followed by the userinfo request with a non-empty
    bearer token - never more, and in this order.  A callback that signs
    the user in has made both. *)
Theorem callback_calls (qp : gmap string string) (w : World) :
  exists calls,
    net_log (snd (callback qp w)) = net_log w ++ calls
    /\ provider_calls calls
    /\ forall reply, fst (callback qp w) = Ok reply -> both_calls calls.
Proof.
  destruct (callback_outcome qp w) as (r & w' & calls & E & Hlog & Hc & Hr).
  exists calls. rewrite E. cbn [fst snd]. split; [exact Hlog|].
  split; [exact Hc|]. intros reply [= ->]. exact Hr.
Qed.


(** *** The client's credentials *)

(** X18.  [_client_id_secret] caches what it resolves.  A call that
    succeeds leaves its pair in the cache and changes nothing else; from
    then on every call returns that pair and leaves the state as it is.
    A pair resolved with an empty cache is the stripped pair of
    [_try_load_client_secrets_json], neither part empty.  A call that
    fails raises the [OAuthError] for a missing client and caches
    nothing. *)
Theorem client_credentials_cache (w : World) :
  (forall p w1,
     _client_id_secret w = (Ok p, w1) ->
     oauth_cached w1 = Some p /\ quiet w w1
     /\ (forall w2, oauth_cached w2 = Some p ->
                    _client_id_secret w2 = (Ok p, w2))
     /\ (oauth_cached w = None ->
         p = loaded_client /\ fst p <> "" /\ snd p <> ""))
  /\ (forall e w1,
        _client_id_secret w = (Raise e, w1) ->
        e = OAuthError client_missing_message /\ w1 = w
        /\ oauth_cached w = None).
Proof.
  split.
  - intros p w1 E.
    destruct (client_id_secret_outcome w)
      as [(p' & w1' & E' & Hc & Hq & _)|[E' _]]; [|congruence].
    rewrite E' in E. injection E as -> ->.
    split; [exact Hc|]. split; [exact Hq|].
    split; [intros w2 H2; apply client_id_secret_cached, H2|].
    intros Hnone.
    destruct (decide (fst loaded_client = "")) as [E1|E1];
      [rewrite client_id_secret_missing in E' by auto; discriminate|].
    destruct (decide (snd loaded_client = "")) as [E2|E2];
      [rewrite client_id_secret_missing in E' by auto; discriminate|].
    rewrite (client_id_secret_loaded w Hnone E1 E2) in E'.
    injection E' as <- _. auto.
  - intros e w1 E.
    destruct (client_id_secret_outcome w)
      as [(p' & w1' & E' & _)|[E' Hnone]]; [congruence|].
    rewrite E' in E. injection E as <- <-. auto.
Qed.

Lemma first_client_secrets_passed pre rest :
  Forall passed_over pre ->
  first_client_secrets (pre ++ rest) = first_client_secrets rest.
Proof.
  induction 1 as [|o pre Ho _ IH]; [reflexivity|].
  change ((o :: pre) ++ rest) with (o :: (pre ++ rest)).
  destruct o as [data|]; cbn [first_client_secrets]; [|exact IH].
  unfold passed_over, usable in Ho.
  destruct (_extract_client_id_secret data) as [c x]. cbn [fst snd] in Ho.
  rewrite Ho. exact IH.
Qed.

Lemma first_client_secrets_usable data rest :
  usable data = true ->
  first_client_secrets (Some data :: rest)
  = Some (_extract_client_id_secret data).
Proof.
  unfold usable. cbn [first_client_secrets].
  destruct (_extract_client_id_secret data) as [c x]. cbn [fst snd].
  intros ->. reflexivity.
Qed.

(** X19.  Where the client comes from.  A client id and a client secret
    in the settings, both not blank, are taken, stripped, whatever the
    files hold.  Otherwise the first candidate file that has both in its
    block is taken, and both parts come from that file: a part missing in
    the settings is never filled in from a file, nor the reverse.  When
    no file has both, the stripped settings are returned, of which a part
    is empty. *)
Theorem client_secrets_priority :
  let cid := strip GOOGLE_OAUTH_CLIENT_ID in
  let sec := strip GOOGLE_OAUTH_CLIENT_SECRET in
  (cid <> "" /\ sec <> "" -> _try_load_client_secrets_json = (cid, sec))
  /\ (cid = "" \/ sec = "" ->
      forall pre data rest,
        client_secrets_files = pre ++ Some data :: rest ->
        Forall passed_over pre -> usable data = true ->
        _try_load_client_secrets_json = _extract_client_id_secret data)
  /\ (cid = "" \/ sec = "" ->
      Forall passed_over client_secrets_files ->
      _try_load_client_secrets_json = (cid, sec)).
Proof.
  intros cid sec. unfold _try_load_client_secrets_json. fold cid sec.
  assert (Hblank : cid = "" \/ sec = "" ->
                   nonempty cid && nonempty sec = false).
  { intros [-> | ->]; [reflexivity|apply andb_false_r]. }
  split; [|split].
  - intros [Hc Hx]. apply nonempty_true in Hc, Hx. rewrite Hc, Hx.
    reflexivity.
  - intros Hb pre data rest Hfiles Hpre Hdata. rewrite (Hblank Hb), Hfiles.
    rewrite (first_client_secrets_passed pre _ Hpre).
    rewrite (first_client_secrets_usable data rest Hdata). reflexivity.
  - intros Hb Hall. rewrite (Hblank Hb).
    rewrite <- (app_nil_r client_secrets_files).
    rewrite (first_client_secrets_passed _ [] Hall). reflexivity.
Qed.

(** *** From [login] to [callback] *)

Lemma fetch_identity_sent code v w cid sec :
  oauth_cached w = Some (cid, sec) ->
  strip GOOGLE_OAUTH_REDIRECT_URI <> "" ->
  strip code <> "" -> strip v <> "" ->
  exists r w' rest,
    fetch_identity code v w = (r, w')
    /\ net_log w' =
       net_log w
       ++ TokenRequest
            (token_form (strip code) cid sec
               (strip GOOGLE_OAUTH_REDIRECT_URI) (strip v)) :: rest.
Proof.
  intros Hc Hru Hcode Hv.
  destruct (exchange_code_sent code v w cid sec w
              (strip GOOGLE_OAUTH_REDIRECT_URI)
              (client_id_secret_cached w _ Hc) (redirect_uri_set w Hru)
              Hcode Hv) as (r & E & Hr).
  unfold fetch_identity, except_OAuthError.
  destruct r as [tokens|e].
  2:{ rewrite (bind_Raise _ _ _ _ _ E).
      destruct e; eexists _, _, []; (split; [reflexivity|reflexivity]). }
  rewrite (bind_Ok _ _ _ _ _ E).
  destruct Hr as (tok & -> & Hne & Hs).
  destruct (fetch_userinfo_cases tok
              (log_call
                 (TokenRequest
                    (token_form (strip code) cid sec
                       (strip GOOGLE_OAUTH_REDIRECT_URI) (strip v))) w))
    as [[Hb _]|[_ (r2 & E2 & _)]]; [congruence|].
  rewrite E2.
  destruct r2 as [info|[]]; eexists _, _, [_];
    (split; [reflexivity|]); cbn [net_log log_call];
    rewrite <- app_assoc; reflexivity.
Qed.

(** X20.  What binds a callback to the login before it.  After a
    successful [login], a callback without a provider error that brings a
    code and the state stored by the login posts one form to the token
    endpoint, before anything else, and the verifier in that form is the
    stored one: the verifier whose challenge the login put into the
    authorization URL, with the same client and redirect URI. *)
Theorem login_then_callback_sends_verifier (next : string) (w w1 : World)
    (reply : Reply) (qp : gmap string string) :
  login next w = (Ok reply, w1) ->
  provider_error qp = false ->
  received_code qp <> "" ->
  session_strs w1 !! "oauth_state" = Some (received_state qp) ->
  exists verifier cid sec rest,
    session_strs w1 !! "oauth_verifier" = Some verifier
    /\ reply =
       RedirectResponse
         (AUTH_URL +:+ "?" +:+
          urlencode
            (authorize_params cid (strip GOOGLE_OAUTH_REDIRECT_URI)
               requested_scope (received_state qp)
               (_pkce_challenge verifier))) 302
    /\ net_log (snd (callback qp w1)) =
       net_log w
       ++ TokenRequest
            (token_form (received_code qp) cid sec
               (strip GOOGLE_OAUTH_REDIRECT_URI) verifier) :: rest.
Proof.
  intros Hl He Hcode Hstate.
  destruct session_enabled eqn:Hs;
    [|unfold login in Hl; rewrite Hs in Hl; discriminate].
  destruct (login_outcome next w Hs)
    as [(state & verifier & url & w0 & Hb & E)|(msg & w0 & _ & E)];
    [|congruence].
  rewrite E in Hl. injection Hl as <- <-.
  destruct (build_authorize_url_outcome w)
    as [(cid & sec & w0' & E' & Hcache & Hru & Hq)|(msg & w0' & E' & _)];
    [|congruence].
  rewrite E' in Hb. injection Hb as <- <- <- <-.
  set (state := fst (token_urlsafe 24 (entropy w))) in *.
  set (verifier :=
         fst (token_urlsafe 64 (snd (token_urlsafe 24 (entropy w))))) in *.
  set (w1 := set_session_strs _ _) in *.
  assert (Hst : session_strs w1 !! "oauth_state" = Some state).
  { subst w1. cbn [session_strs set_session_strs].
    rewrite lookup_insert_ne, lookup_insert_ne by discriminate.
    apply lookup_insert_eq. }
  assert (Hver : session_strs w1 !! "oauth_verifier" = Some verifier).
  { subst w1. cbn [session_strs set_session_strs].
    rewrite lookup_insert_ne by discriminate. apply lookup_insert_eq. }
  assert (Hrecv : received_state qp = state) by congruence.
  assert (Hss : stored_state w1 = state).
  { unfold stored_state. rewrite Hst. apply strip_token. }
  assert (Hsv : stored_verifier w1 = verifier).
  { unfold stored_verifier. rewrite Hver. apply strip_token. }
  assert (Hrej : state_rejected qp w1 = false).
  { unfold state_rejected. rewrite Hss, Hsv, Hrecv.
    rewrite (proj2 (nonempty_true _) Hcode).
    rewrite (proj2 (nonempty_true state)) by (apply token_nonempty; lia).
    rewrite (proj2 (nonempty_true verifier)) by (apply token_nonempty; lia).
    rewrite String.eqb_refl. reflexivity. }
  exists verifier, cid, sec.
  rewrite (callback_accepted qp w1 Hs He Hrej), Hsv.
  destruct (fetch_identity_sent (received_code qp) verifier (consumed w1)
              cid sec Hcache Hru)
    as (r & w2 & rest & Ef & Hlog).
  { unfold received_code. rewrite strip_idem. exact Hcode. }
  { subst verifier. rewrite strip_token. apply token_nonempty. lia. }
  assert (Hcs : strip (received_code qp) = received_code qp)
    by apply strip_idem.
  assert (Hvs : strip verifier = verifier) by apply strip_token.
  rewrite Hcs, Hvs in Hlog.
  assert (Hw : net_log (consumed w1) = net_log w)
    by (destruct Hq as (_ & _ & _ & _ & Hq); exact Hq).
  rewrite Hw in Hlog.
  exists rest. split; [exact Hver|]. split; [rewrite Hrecv; reflexivity|].
  destruct r as [info|e].
  - rewrite (bind_Ok _ _ _ _ _ Ef).
    destruct (complete_sign_in_outcome info (stored_next w1) w2)
      as [E2|(user & w3 & reply & E2 & Hlog2)]; rewrite E2; cbn [snd].
    + exact Hlog.
    + cbn [net_log set_session_user]. congruence.
  - rewrite (bind_Raise _ _ _ _ _ Ef). exact Hlog.
Qed.

End Flow.

Lemma authorize_url_state_witness :
  exists state verifier url,
    fst (@build_authorize_url Samples.configured Samples.fresh)
    = Ok (state, verifier, url)
    /\ String.length state = 32%nat
    /\ strip state = state /\ quote_plus state = state
    /\ state = fst (token_urlsafe 24 (entropy Samples.fresh))
    /\ verifier =
       fst (token_urlsafe 64
              (snd (token_urlsafe 24 (entropy Samples.fresh))))
    /\ (exists client_id redirect_uri,
          url = (AUTH_URL +:+ "?client_id=" +:+ quote_plus client_id
                 +:+ "&redirect_uri=" +:+ quote_plus redirect_uri
                 +:+ "&response_type=code&scope="
                 +:+ quote_plus (@requested_scope Samples.configured)
                 +:+ "&state=" +:+ state)
                +:+ "&code_challenge="
                +:+ @_pkce_challenge Samples.configured verifier
                +:+ url_after_challenge)
    /\ quiet Samples.fresh
         (snd (@build_authorize_url Samples.configured Samples.fresh)).
Proof.
  assert (E : exists state verifier url,
    fst (@build_authorize_url Samples.configured Samples.fresh)
    = Ok (state, verifier, url)).
  { eexists _, _, _. vm_compute. reflexivity. }
  destruct E as (state & verifier & url & E).
  exists state, verifier, url. split; [exact E|].
  exact (@authorize_url_state Samples.configured _ _ _ _ _
           (run_pair _ _ E)).
Defined.

Lemma login_stores_authorization_state_witness :
  exists reply,
    fst (@login Samples.configured "/kiosk.html" Samples.fresh) = Ok reply
    /\ exists state verifier url nxt w1,
         @build_authorize_url Samples.configured Samples.fresh
         = (Ok (state, verifier, url), w1)
         /\ reply = RedirectResponse url 302
         /\ session_strs
              (snd (@login Samples.configured "/kiosk.html" Samples.fresh))
            !! "oauth_state" = Some state
         /\ session_strs
              (snd (@login Samples.configured "/kiosk.html" Samples.fresh))
            !! "oauth_verifier" = Some verifier
         /\ session_strs
              (snd (@login Samples.configured "/kiosk.html" Samples.fresh))
            !! "oauth_next" = Some nxt
         /\ @safe_target Samples.configured nxt
         /\ (forall k, k <> "oauth_state" -> k <> "oauth_verifier" ->
                       k <> "oauth_next" ->
                       session_strs
                         (snd (@login Samples.configured "/kiosk.html"
                                 Samples.fresh)) !! k
                       = session_strs Samples.fresh !! k)
         /\ session_user
              (snd (@login Samples.configured "/kiosk.html" Samples.fresh))
            = session_user Samples.fresh
         /\ users (snd (@login Samples.configured "/kiosk.html"
                          Samples.fresh))
            = users Samples.fresh
         /\ net_log (snd (@login Samples.configured "/kiosk.html"
                            Samples.fresh))
            = net_log Samples.fresh.
Proof.
  assert (E : exists reply,
    fst (@login Samples.configured "/kiosk.html" Samples.fresh) = Ok reply).
  { eexists. vm_compute. reflexivity. }
  destruct E as [reply E]. exists reply. split; [exact E|].
  exact (@login_stores_authorization_state Samples.configured _ _ _ _
           (run_pair _ _ E)).
Defined.

Lemma login_failure_stores_nothing_witness :
  (OAuthError client_missing_message = no_session_error
   \/ exists msg, OAuthError client_missing_message = OAuthError msg)
  /\ quiet Samples.fresh Samples.fresh.
Proof.
  apply (@login_failure_stores_nothing Samples.unconfigured "/kiosk.html").
  reflexivity.
Defined.


Lemma login_then_callback_sends_verifier_witness :
  exists reply,
    fst (@login Samples.configured "/kiosk.html" Samples.fresh) = Ok reply
    /\ exists verifier cid sec rest,
         session_strs
           (snd (@login Samples.configured "/kiosk.html" Samples.fresh))
         !! "oauth_verifier" = Some verifier
         /\ reply =
            RedirectResponse
              (AUTH_URL +:+ "?" +:+
               urlencode
                 (authorize_params cid
                    (strip (@GOOGLE_OAUTH_REDIRECT_URI Samples.configured))
                    (@requested_scope Samples.configured)
                    (received_state query_after_login)
                    (@_pkce_challenge Samples.configured verifier))) 302
         /\ net_log
              (snd (@callback Samples.configured query_after_login
                      (snd (@login Samples.configured "/kiosk.html"
                              Samples.fresh)))) =
            net_log Samples.fresh
            ++ TokenRequest
                 (token_form (received_code query_after_login) cid sec
                    (strip (@GOOGLE_OAUTH_REDIRECT_URI Samples.configured))
                    verifier) :: rest.
Proof.
  assert (E : exists reply,
    fst (@login Samples.configured "/kiosk.html" Samples.fresh) = Ok reply).
  { eexists. vm_compute. reflexivity. }
  destruct E as [reply E]. exists reply. split; [exact E|].
  apply (@login_then_callback_sends_verifier Samples.configured
           "/kiosk.html" Samples.fresh _ reply query_after_login
           (run_pair _ _ E)).
  - vm_compute. reflexivity.
  - vm_compute. discriminate.
  - vm_compute. reflexivity.
Defined.

Lemma callback_reply_target_witness :
  (@frontend Samples.configured = ""
   /\ exists user,
        RedirectResponse "https://app.example/kiosk.html" 302
        = JSONResponse_ok_user user
        /\ session_user
             (snd (@callback Samples.configured Samples.query_ok
                     Samples.pending)) = Some user)
  \/ (@frontend Samples.configured <> ""
      /\ exists url,
           RedirectResponse "https://app.example/kiosk.html" 302
           = RedirectResponse url 302
           /\ startswith url (@frontend Samples.configured) = true
           /\ ((exists path, url = @frontend Samples.configured +:+ path
                             /\ startswith path "/" = true
                             /\ startswith path "//" = false)
               \/ url = str_or (@_safe_next_url Samples.configured
                                  (stored_next Samples.pending))
                          "/kiosk.html")).
Proof.
  apply (@callback_reply_target Samples.configured Samples.query_ok
           Samples.pending).
  apply run_pair. vm_compute. reflexivity.
Defined.

End AuthMore.

(** ** The session's user and the history routes *)

Module AccountMore.
Import Py PyFacts State StateFacts Routes RoutesFacts Json HistoryStore
  Account AuthTerms ModelsTerms.

Section History.
Context `{Environment} {number : Type}.
Implicit Types rows : @table number.
Implicit Types payload h : json number.

Lemma load_save_same uid h rows :
  load uid (save uid h rows) = if is_list_or_dict h then h else JList [].
Proof.
  unfold load, save, table. cbv zeta. rewrite lookup_insert_eq.
  destruct h; reflexivity.
Qed.

Lemma load_save_other uid uid' h rows :
  uid' <> uid -> load uid' (save uid h rows) = load uid' rows.
Proof.
  intros Hne. unfold load, save, table. cbv zeta.
  rewrite lookup_insert_ne by congruence.
  reflexivity.
Qed.

Lemma load_is_list_or_dict uid rows : is_list_or_dict (load uid rows) = true.
Proof. unfold load. destruct (rows !! uid) as [[]|]; reflexivity. Qed.

Lemma require_user_signed_in w u :
  _session_user w = Some u -> _require_user w = Ok u.
Proof. unfold _require_user. intros ->. reflexivity. Qed.

Lemma require_user_anonymous w :
  _session_user w = None ->
  _require_user w = Raise (HTTPException 401 "Not signed in").
Proof. unfold _require_user. intros ->. reflexivity. Qed.

(** X21.  Without a signed-in user - no session, or a session without a
    user - both history routes fail with 401 "Not signed in", and
    [put_history] writes nothing. *)
Theorem history_requires_user (w : World) (rows : @table number)
    (payload : json number) :
  _session_user w = None ->
  get_history w rows = Raise (HTTPException 401 "Not signed in")
  /\ put_history payload w rows
     = (Raise (HTTPException 401 "Not signed in"), rows).
Proof.
  intros Hu. unfold get_history, put_history.
  rewrite (require_user_anonymous w Hu). split; reflexivity.
Qed.

(** X22.  For a signed-in user [put_history] succeeds, and [get_history]
    then returns what was put when that is a list or a dict, and the empty
    list otherwise: for null, a number, a string or a boolean, and for a
    dict body that has no ["history"] entry.  Whatever the table holds,
    [get_history] answers with a list or a dict. *)
Theorem put_then_get_history (w : World) (u : User) (rows : @table number)
    (payload : json number) :
  _session_user w = Some u ->
  fst (put_history payload w rows) = Ok tt
  /\ get_history w (snd (put_history payload w rows))
     = Ok (if is_list_or_dict (body_history payload)
           then body_history payload else JList [])
  /\ (forall items, payload = JList items ->
                    get_history w (snd (put_history payload w rows))
                    = Ok payload)
  /\ (forall items, payload = JDict items ->
                    dict_get "history" items = JNull ->
                    get_history w (snd (put_history payload w rows))
                    = Ok (JList []))
  /\ exists h, get_history w rows = Ok h /\ is_list_or_dict h = true.
Proof.
  intros Hu. unfold get_history, put_history.
  rewrite (require_user_signed_in w u Hu). cbn [fst snd mbind result_bind].
  rewrite load_save_same.
  split; [reflexivity|]. split; [reflexivity|].
  split; [intros items ->; reflexivity|].
  split; [intros items -> Hm; cbn [body_history]; rewrite Hm; reflexivity|].
  eexists. split; [reflexivity|apply load_is_list_or_dict].
Qed.

(** X23.  A history put by one user does not change what another user
    gets. *)
Theorem put_history_other_users (w w2 : World) (u u2 : User)
    (rows : @table number) (payload : json number) :
  _session_user w = Some u -> _session_user w2 = Some u2 ->
  user_id u2 <> user_id u ->
  get_history w2 (snd (put_history payload w rows)) = get_history w2 rows.
Proof.
  intros Hu Hu2 Hne. unfold get_history, put_history.
  rewrite (require_user_signed_in w u Hu),
    (require_user_signed_in w2 u2 Hu2).
  cbn [fst snd mbind result_bind]. rewrite load_save_other by exact Hne.
  reflexivity.
Qed.

(** X24.  [logout] always succeeds and leaves a session without a user and
    without entries; the users table and the network log are as before.
    After it the history routes answer 401, and every [callback] fails
    with an HTTP error without a network call, whatever code and state it
    brings. *)
Theorem logout_signs_out (w : World) (rows : @table number) :
  fst (logout w) = Ok tt
  /\ _session_user (snd (logout w)) = None
  /\ session_strs (snd (logout w)) = ∅
  /\ users (snd (logout w)) = users w
  /\ net_log (snd (logout w)) = net_log w
  /\ get_history (snd (logout w)) rows
     = Raise (HTTPException 401 "Not signed in")
  /\ forall qp,
       exists status detail w',
         callback qp (snd (logout w))
         = (Raise (HTTPException status detail), w')
         /\ net_log w' = net_log w
         /\ _session_user w' = None.
Proof.
  assert (Hsu : _session_user (snd (logout w)) = None)
    by (unfold _session_user; destruct session_enabled; reflexivity).
  split; [reflexivity|]. split; [exact Hsu|]. split; [reflexivity|].
  split; [reflexivity|]. split; [reflexivity|].
  split.
  { unfold get_history. rewrite (require_user_anonymous _ Hsu).
    reflexivity. }
  intros qp. set (w1 := snd (logout w)) in *.
  destruct session_enabled eqn:Hs.
  2:{ rewrite (callback_no_session qp w1 Hs). eexists _, _, _.
      split; [reflexivity|]. split; [reflexivity|exact Hsu]. }
  destruct (provider_error qp) eqn:He.
  { rewrite (callback_provider_error qp w1 Hs He). eexists _, _, _.
    split; [reflexivity|]. split; [reflexivity|exact Hsu]. }
  rewrite (callback_rejected qp w1 Hs He).
  - eexists _, _, _. split; [reflexivity|]. split; [reflexivity|].
    unfold _session_user. rewrite Hs. reflexivity.
  - apply erased_rejected. repeat split.
Qed.

End History.

Lemma history_requires_user_witness :
  @get_history Samples.configured Z Samples.fresh ∅
  = Raise (HTTPException 401 "Not signed in")
  /\ @put_history Samples.configured Z (JList [JString "hi"]) Samples.fresh
       ∅
     = (Raise (HTTPException 401 "Not signed in"), ∅).
Proof.
  apply (@history_requires_user Samples.configured Z Samples.fresh ∅
           (JList [JString "hi"])).
  reflexivity.
Defined.

Lemma put_then_get_history_witness :
  let w := signed_in ada Samples.fresh in
  let payload : json Z := JDict [("history", JList [JString "hi"])] in
  fst (@put_history Samples.configured Z payload w ∅) = Ok tt
  /\ @get_history Samples.configured Z w
       (snd (@put_history Samples.configured Z payload w ∅))
     = Ok (if is_list_or_dict (body_history payload)
           then body_history payload else JList [])
  /\ (forall items, payload = JList items ->
                    @get_history Samples.configured Z w
                      (snd (@put_history Samples.configured Z payload w ∅))
                    = Ok payload)
  /\ (forall items, payload = JDict items ->
                    dict_get "history" items = JNull ->
                    @get_history Samples.configured Z w
                      (snd (@put_history Samples.configured Z payload w ∅))
                    = Ok (JList []))
  /\ exists h, @get_history Samples.configured Z w ∅ = Ok h
               /\ is_list_or_dict h = true.
Proof.
  apply (@put_then_get_history Samples.configured Z
           (signed_in ada Samples.fresh) ada ∅
           (JDict [("history", JList [JString "hi"])])).
  reflexivity.
Defined.

Lemma put_history_other_users_witness :
  @get_history Samples.configured Z
    (signed_in (created_row "user-1" "xyz" "" "" "") Samples.fresh)
    (snd (@put_history Samples.configured Z (JList [JString "hi"])
            (signed_in ada Samples.fresh) ∅))
  = @get_history Samples.configured Z
      (signed_in (created_row "user-1" "xyz" "" "" "") Samples.fresh) ∅.
Proof.
  apply (@put_history_other_users Samples.configured Z
           (signed_in ada Samples.fresh)
           (signed_in (created_row "user-1" "xyz" "" "" "") Samples.fresh)
           ada (created_row "user-1" "xyz" "" "" "")).
  - reflexivity.
  - reflexivity.
  - discriminate.
Defined.

End AccountMore.

(** ** Language codes *)

Module LangMore.
Import Py PyFacts Lang.

Lemma length_take_str n s :
  String.length (take_str n s) = Nat.min n (String.length s).
Proof.
  unfold take_str. revert n.
  induction s as [|c s IH]; intros [|n]; cbn [String.substring String.length];
    try reflexivity.
  rewrite IH. reflexivity.
Qed.

Lemma startswith_take_str n s : startswith s (take_str n s) = true.
Proof.
  unfold startswith, take_str. revert n.
  induction s as [|c s IH]; intros [|n];
    cbn [String.substring String.prefix]; try reflexivity.
  destruct (ascii_dec c c); [apply IH|congruence].
Qed.

Lemma length_lstrip_le p s :
  (String.length (lstrip_by p s) <= String.length s)%nat.
Proof.
  induction s as [|c s IH]; cbn [lstrip_by String.length]; [lia|].
  destruct (p c); cbn [String.length]; lia.
Qed.

Lemma length_rstrip_le p s :
  (String.length (rstrip_by p s) <= String.length s)%nat.
Proof.
  induction s as [|c s IH]; cbn [rstrip_by String.length]; [lia|].
  destruct (rstrip_by p s); [destruct (p c)|];
    cbn [String.length] in *; lia.
Qed.

Lemma length_strip_le s : (String.length (strip s) <= String.length s)%nat.
Proof.
  unfold strip. pose proof (length_rstrip_le isspace (lstrip_by isspace s)).
  pose proof (length_lstrip_le isspace s). lia.
Qed.

Lemma length_lower s : String.length (lower s) = String.length s.
Proof.
  induction s as [|c s IH]; [reflexivity|]. cbn [lower String.length].
  rewrite IH. reflexivity.
Qed.

Lemma hyphen_lower_char c : Ascii.eqb (lower_char c) "-" = Ascii.eqb c "-".
Proof. destruct c as [[] [] [] [] [] [] [] []]; reflexivity. Qed.

Lemma has_hyphen_lower s : has_hyphen (lower s) = has_hyphen s.
Proof.
  induction s as [|c s IH]; [reflexivity|]. cbn [lower has_hyphen].
  rewrite hyphen_lower_char, IH. reflexivity.
Qed.

(** A stripped string that is not empty begins with a character that is
    no white space. *)
Lemma strip_head s :
  strip s <> "" -> exists c r, strip s = String c r /\ isspace c = false.
Proof.
  unfold strip. intros Hne.
  destruct (lstrip_by_head isspace s) as [E|(c & r & E & Hc)];
    rewrite E in *; [contradiction|].
  rewrite (rstrip_by_prefix _ _ _ Hc). eauto.
Qed.

Lemma strip_cons_nonempty c r : isspace c = false -> strip (String c r) <> "".
Proof.
  intros Hc. unfold strip. cbn [lstrip_by]. rewrite Hc.
  rewrite (rstrip_by_prefix _ _ _ Hc). discriminate.
Qed.

Lemma take_to_nonneg m s : 0 <= m -> take_to m s = take_str (Z.to_nat m) s.
Proof.
  intros Hm. unfold take_to. destruct (Z.ltb_spec m 0); [lia|reflexivity].
Qed.

(** X25.  [clamp_str] returns the default for a blank string.  Otherwise
    it returns a prefix of the stripped string: its first [max_len]
    characters when [max_len] is not negative, and all but its last
    [-max_len] characters when it is. *)
Theorem clamp_str_spec (s default : string) (max_len : Z) :
  (strip s = "" -> clamp_str s default max_len = default)
  /\ (strip s <> "" ->
      startswith (strip s) (clamp_str s default max_len) = true
      /\ String.length (clamp_str s default max_len)
         = if max_len <? 0
           then (String.length (strip s) - Z.to_nat (- max_len))%nat
           else Nat.min (Z.to_nat max_len) (String.length (strip s))).
Proof.
  unfold clamp_str. cbv zeta. split.
  - intros ->. reflexivity.
  - intros Hne. rewrite (proj2 (nonempty_true _) Hne). cbn [negb].
    unfold take_to. destruct (max_len <? 0).
    + split; [apply startswith_take_str|]. rewrite length_take_str. lia.
    + split; [apply startswith_take_str|apply length_take_str].
Qed.

(** The string that [normalize_lang] works on. *)
Lemma clamped_lang lang :
  let x := strip (clamp_str lang "en" 32) in
  x <> "" /\ strip x = x /\ (String.length x <= 32)%nat.
Proof.
  cbv zeta. split; [|split; [apply strip_idem|]].
  - unfold clamp_str. cbv zeta.
    destruct (nonempty (strip lang)) eqn:En; cbn [negb]; [|discriminate].
    apply nonempty_true in En.
    destruct (strip_head lang En) as (c & r & -> & Hc).
    rewrite take_to_nonneg by lia. change (Z.to_nat 32) with 32%nat.
    unfold take_str. cbn [String.substring].
    apply strip_cons_nonempty, Hc.
  - pose proof (length_strip_le (clamp_str lang "en" 32)) as Hle.
    unfold clamp_str in *. cbv zeta in *.
    destruct (nonempty (strip lang)); cbn [negb] in *.
    + rewrite take_to_nonneg in * by lia.
      rewrite length_take_str in Hle. lia.
    + cbn [String.length] in Hle. lia.
Qed.

Lemma clamp_fixed x :
  x <> "" -> strip x = x -> (String.length x <= 32)%nat ->
  strip (clamp_str x "en" 32) = x.
Proof.
  intros Hne Hs Hlen. unfold clamp_str. cbv zeta. rewrite Hs.
  rewrite (proj2 (nonempty_true _) Hne). cbn [negb].
  rewrite take_to_nonneg by lia. rewrite take_str_all by exact Hlen.
  exact Hs.
Qed.

(** The first [return] of [normalize_lang] is never reached. *)
Lemma normalize_lang_cases lang :
  let x := strip (clamp_str lang "en" 32) in
  normalize_lang lang =
  if String.eqb (lower x) "ar-xa" then "ar-SA"
  else if has_hyphen (lower x) then x
       else get_or (lower x) _LANG_MAP x.
Proof.
  cbv zeta. unfold normalize_lang. cbv zeta.
  destruct (clamped_lang lang) as (Hne & _).
  rewrite (proj2 (nonempty_true _) Hne). reflexivity.
Qed.

Lemma get_or_cases key d default :
  get_or key d default = default
  \/ exists v, (key, v) ∈ d /\ get_or key d default = v.
Proof.
  induction d as [|[k v] d IH]; [left; reflexivity|]. cbn [get_or].
  destruct (String.eqb_spec k key) as [->|Hne].
  - right. exists v. split; [left|reflexivity].
  - destruct IH as [IH|(v' & Hin & IH)]; [left; exact IH|].
    right. exists v'. split; [right; exact Hin|exact IH].
Qed.

Lemma lang_map_values :
  Forall (fun kv => snd kv <> "" /\ strip (snd kv) = snd kv
                    /\ (String.length (snd kv) <= 32)%nat
                    /\ normalize_lang (snd kv) = snd kv) _LANG_MAP.
Proof.
  unfold _LANG_MAP.
  repeat (constructor;
          [cbn [snd]; split; [discriminate|];
           split; [vm_compute; reflexivity|];
           split; [cbn [String.length]; lia|vm_compute; reflexivity]|]).
  constructor.
Qed.

Lemma lang_map_value k v :
  (k, v) ∈ _LANG_MAP ->
  v <> "" /\ strip v = v /\ (String.length v <= 32)%nat
  /\ normalize_lang v = v.
Proof.
  intros Hin. pose proof lang_map_values as Hall.
  rewrite Forall_forall in Hall. apply (Hall (k, v)), Hin.
Qed.

(** X26.  Whatever it is given, [normalize_lang] returns a code that is
    not empty, has no white space at its ends and has at most 32
    characters. *)
Theorem normalize_lang_shape (lang : string) :
  normalize_lang lang <> ""
  /\ strip (normalize_lang lang) = normalize_lang lang
  /\ (String.length (normalize_lang lang) <= 32)%nat.
Proof.
  rewrite normalize_lang_cases. cbv zeta.
  pose proof (clamped_lang lang) as Hx. cbv zeta in Hx.
  set (x := strip (clamp_str lang "en" 32)) in *.
  destruct (String.eqb (lower x) "ar-xa").
  { split; [discriminate|]. split; [reflexivity|cbn; lia]. }
  destruct (has_hyphen (lower x)); [exact Hx|].
  destruct (get_or_cases (lower x) _LANG_MAP x) as [->|(v & Hin & ->)];
    [exact Hx|].
  destruct (lang_map_value _ _ Hin) as (? & ? & ? & _). auto.
Qed.

(** X27.  [normalize_lang] is idempotent: a code that it returned is
    returned as it is. *)
Theorem normalize_lang_idempotent (lang : string) :
  normalize_lang (normalize_lang lang) = normalize_lang lang.
Proof.
  rewrite (normalize_lang_cases lang). cbv zeta.
  destruct (clamped_lang lang) as (Hne & Hs & Hlen). cbv zeta in *.
  set (x := strip (clamp_str lang "en" 32)) in *.
  assert (Hx : normalize_lang x =
               if String.eqb (lower x) "ar-xa" then "ar-SA"
               else if has_hyphen (lower x) then x
                    else get_or (lower x) _LANG_MAP x).
  { rewrite normalize_lang_cases. cbv zeta.
    rewrite (clamp_fixed x Hne Hs Hlen). reflexivity. }
  destruct (String.eqb (lower x) "ar-xa") eqn:Ea; [reflexivity|].
  destruct (has_hyphen (lower x)) eqn:Eh; [exact Hx|].
  destruct (get_or_cases (lower x) _LANG_MAP x) as [E|(v & Hin & E)].
  - rewrite E in *. exact Hx.
  - rewrite E. apply (lang_map_value _ _ Hin).
Qed.

(** X28.  What [normalize_lang] maps.  A blank string gives ["en-US"];
    ["ar-xa"] in any case gives ["ar-SA"]; a code of the table, in any
    case and with white space around it, gives the table's locale; and
    every other string of at most 32 characters that contains a hyphen is
    returned stripped, in its own case. *)
Theorem normalize_lang_codes (lang : string) :
  (strip lang = "" -> normalize_lang lang = "en-US")
  /\ (lower (strip lang) = "ar-xa" -> normalize_lang lang = "ar-SA")
  /\ (forall k v, (k, v) ∈ _LANG_MAP -> lower (strip lang) = k ->
                  normalize_lang lang = v)
  /\ (has_hyphen (strip lang) = true ->
      (String.length (strip lang) <= 32)%nat ->
      lower (strip lang) <> "ar-xa" ->
      normalize_lang lang = strip lang).
Proof.
  assert (Hshort : strip lang <> "" ->
                   (String.length (strip lang) <= 32)%nat ->
                   strip (clamp_str lang "en" 32) = strip lang).
  { intros Hne Hlen. unfold clamp_str. cbv zeta.
    rewrite (proj2 (nonempty_true _) Hne). cbn [negb].
    rewrite take_to_nonneg by lia. rewrite take_str_all by exact Hlen.
    apply strip_idem. }
  assert (Hlow : forall k, lower (strip lang) = k -> k <> "" ->
                           (String.length k <= 32)%nat ->
                           strip (clamp_str lang "en" 32) = strip lang).
  { intros k Hk Hne Hlen. apply Hshort.
    - intros E. rewrite E in Hk. cbn in Hk. congruence.
    - rewrite <- (length_lower (strip lang)), Hk. exact Hlen. }
  split; [|split; [|split]].
  - intros Hb. unfold normalize_lang, clamp_str. cbv zeta. rewrite Hb.
    reflexivity.
  - intros Hk. rewrite normalize_lang_cases. cbv zeta.
    rewrite (Hlow _ Hk) by (discriminate || (cbn; lia)). rewrite Hk.
    reflexivity.
  - intros k v Hin Hk. rewrite normalize_lang_cases. cbv zeta.
    assert (Hkeys : k <> "" /\ (String.length k <= 32)%nat
                    /\ String.eqb k "ar-xa" = false
                    /\ has_hyphen k = false
                    /\ forall d, get_or k _LANG_MAP d = v).
    { unfold _LANG_MAP in Hin. rewrite !elem_of_cons, elem_of_nil in Hin.
      repeat (destruct Hin as [[= -> ->]|Hin];
              [repeat split; try discriminate; cbn [String.length]; lia|]).
      destruct Hin. }
    destruct Hkeys as (Hne & Hlen & Ha & Hh & Hget).
    rewrite (Hlow _ Hk Hne Hlen), Hk, Ha, Hh. apply Hget.
  - intros Hh Hlen Ha. rewrite normalize_lang_cases. cbv zeta.
    assert (Hne : strip lang <> "").
    { intros E. rewrite E in Hh. discriminate. }
    rewrite (Hshort Hne Hlen). rewrite has_hyphen_lower, Hh.
    apply String.eqb_neq in Ha. rewrite Ha. reflexivity.
Qed.

End LangMore.
